(** * A shallow embedding of the 3D portfolio carousel

    The development follows the JavaScript sources of the repository:
    the carousel platform ([createCarousel]), the camera system
    ([createCameraSystem]), the transition controller
    ([createTransitionController]), the input controls
    ([createControls]), the application controller ([APP]) and the asset
    manager ([AssetManager]).  Every closure-held variable of a factory
    function becomes a field of a record, every method a function from the
    record to a result and the updated record. *)

From Stdlib Require Import QArith Qabs Lqa Lia ZArith List Bool.
From stdpp Require Import base option strings gmap.

Local Open Scope Q_scope.

(** ** JavaScript numbers

    A finite IEEE-754 double is a rational number, so finite numbers are
    embedded in [Q]; [NaN] is kept as a separate value because the code can
    produce it ([-undefined]).  The remainder operator [%] is exact on
    doubles and is modelled exactly; [+], [-], [*] and [/] are modelled
    without rounding.  Infinities are not modelled. *)
Module JsNum.

Inductive number : Type :=
| Num (q : Q)
| NaN.

(** [Math.PI]: the double nearest to pi, 0x400921FB54442D18. *)
Definition Math_PI : Q := 884279719003555 # 281474976710656.

(** Truncation toward zero, as performed by [%] on its quotient. *)
Definition trunc (q : Q) : Z := Z.quot (Qnum q) (Zpos (Qden q)).

(** [a % b] on finite operands with [b] non-zero: the result has the sign
    of the dividend. *)
Definition rem (a b : Q) : Q := a - b * inject_Z (trunc (a / b)).

Definition is_zero (q : Q) : bool := Qeq_bool q 0.

Definition jrem (a b : number) : number :=
  match a, b with
  | Num x, Num y => if is_zero y then NaN else Num (rem x y)
  | _, _ => NaN
  end.

Definition jadd (a b : number) : number :=
  match a, b with
  | Num x, Num y => Num (x + y)
  | _, _ => NaN
  end.

Definition jsub (a b : number) : number :=
  match a, b with
  | Num x, Num y => Num (x - y)
  | _, _ => NaN
  end.

Definition jmul (a b : number) : number :=
  match a, b with
  | Num x, Num y => Num (x * y)
  | _, _ => NaN
  end.

Definition jneg (a : number) : number :=
  match a with
  | Num x => Num (- x)
  | NaN => NaN
  end.

(** [Math.abs]. *)
Definition jabs (a : number) : number :=
  match a with
  | Num x => Num (Qabs x)
  | NaN => NaN
  end.

(** [a > b]: every comparison with [NaN] is false. *)
Definition jgt (a b : number) : bool :=
  match a, b with
  | Num x, Num y => if Qlt_le_dec y x then true else false
  | _, _ => false
  end.

(** [a < b] *)
Definition jlt (a b : number) : bool := jgt b a.

(** [Math.PI * 2] *)
Definition two_pi : number := jmul (Num Math_PI) (Num 2).

(** Numeric equality of two numbers as values ([Q] is a setoid). *)
Definition eqn (a b : number) : Prop :=
  match a, b with
  | Num x, Num y => x == y
  | NaN, NaN => True
  | _, _ => False
  end.

End JsNum.

Export JsNum.

Infix "=n=" := eqn (at level 70, no associativity).

(** ** Property lookup on an object literal

    [table[key]] first looks at the own properties of the literal and then
    at the properties every object inherits from [Object.prototype]; both
    yield truthy values.  Only a key found in neither gives [undefined]. *)
Module JsObject.

Definition Object_prototype_keys : list string :=
  [ "constructor"; "__defineGetter__"; "__defineSetter__"; "hasOwnProperty";
    "__lookupGetter__"; "__lookupSetter__"; "isPrototypeOf";
    "propertyIsEnumerable"; "toString"; "valueOf"; "__proto__";
    "toLocaleString" ]%string.

Inductive property (V : Type) : Type :=
| Own (v : V)
| Inherited
| Undefined.

Arguments Own {V} v.
Arguments Inherited {V}.
Arguments Undefined {V}.

Definition get {V : Type} (table : gmap string V) (key : string) : property V :=
  match table !! key with
  | Some v => Own v
  | None =>
      if bool_decide (key ∈ Object_prototype_keys) then Inherited else Undefined
  end.

End JsObject.

Export JsObject.

(** ** The carousel platform (carousel.js) *)
Module Carousel.

Record Settings : Type := {
  rotationDuration : Q;
  rotationEase : string;
  damping : Q
}.

Definition DEFAULT_SETTINGS : Settings := {|
  rotationDuration := 12 # 10;
  rotationEase := "power2.inOut";
  damping := 95 # 100
|}.

Record SectionDef : Type := {
  name : string;
  color : Z;
  position : Q * Q * Q;
  angle : number;
  interactive : bool
}.

Definition SECTION_DEFINITIONS : gmap string SectionDef :=
  list_to_map
    [ ("project-theater"%string,
       {| name := "Project Theater"; color := 0x9966ff;
          position := (-10, 0, 0);
          angle := Num 0; interactive := true |});
      ("achievement-shelf"%string,
       {| name := "Achievement Shelf"; color := 0xffcc99;
          position := (0, 0, -10);
          angle := Num (Math_PI / 2); interactive := true |});
      ("skill-planet"%string,
       {| name := "Skill Planet"; color := 0x99ffee;
          position := (10, 0, 0);
          angle := Num Math_PI; interactive := true |});
      ("chill-zone"%string,
       {| name := "Chill Zone"; color := 0x66ccff;
          position := (0, 0, 10);
          angle := Num (- Math_PI / 2); interactive := true |}) ].

(** [sectionDef.angle] on the value found by the lookup: a section
    definition has the property, an inherited object does not, and the
    unary minus then turns [undefined] into [NaN]. *)
Definition angle_of (p : property SectionDef) : number :=
  match p with
  | Own d => angle d
  | _ => NaN
  end.

(** What was handed to [gsap.to(state, ...)]. *)
Record Tween : Type := {
  tween_rotation : number;
  tween_duration : Q;
  tween_ease : string
}.

Inductive LogEntry : Type :=
| Warn (msg : string)
| Log (msg : string).

(** The double-quote character of the message templates. *)
Definition dquote : string := String (Ascii.ascii_of_nat 34) EmptyString.

(** The warning of [rotateToSection]. *)
Definition not_found (sectionKey : string) : string :=
  "Section " ++ dquote ++ sectionKey ++ dquote ++ " not found".

(** The [state] object of the closure together with the other variables
    the rotation methods touch: [carouselGroup.rotation.y], the tweens
    created so far (newest first) and the console. *)
Record Carousel : Type := {
  settings : Settings;
  rotation : number;
  targetRotation : number;
  rotationVelocity : number;
  isAnimating : bool;
  activeSection : option string;
  isLocked : bool;
  group_rotation_y : number;
  tweens : list Tween;
  console : list LogEntry
}.

Definition createCarousel : Carousel := {|
  settings := DEFAULT_SETTINGS;
  rotation := Num 0;
  targetRotation := Num 0;
  rotationVelocity := Num 0;
  isAnimating := false;
  activeSection := None;
  isLocked := false;
  group_rotation_y := Num 0;
  tweens := [];
  console := []
|}.

Definition set_rotation (r : number) (c : Carousel) : Carousel :=
  {| settings := settings c; rotation := r;
     targetRotation := targetRotation c;
     rotationVelocity := rotationVelocity c; isAnimating := isAnimating c;
     activeSection := activeSection c; isLocked := isLocked c;
     group_rotation_y := r; tweens := tweens c; console := console c |}.

Definition set_isAnimating (b : bool) (c : Carousel) : Carousel :=
  {| settings := settings c; rotation := rotation c;
     targetRotation := targetRotation c;
     rotationVelocity := rotationVelocity c; isAnimating := b;
     activeSection := activeSection c; isLocked := isLocked c;
     group_rotation_y := group_rotation_y c; tweens := tweens c;
     console := console c |}.

Definition setLocked (locked : bool) (c : Carousel) : Carousel :=
  {| settings := settings c; rotation := rotation c;
     targetRotation := targetRotation c;
     rotationVelocity := rotationVelocity c; isAnimating := isAnimating c;
     activeSection := activeSection c; isLocked := locked;
     group_rotation_y := group_rotation_y c; tweens := tweens c;
     console := console c |}.

Definition warn (msg : string) (c : Carousel) : Carousel :=
  {| settings := settings c; rotation := rotation c;
     targetRotation := targetRotation c;
     rotationVelocity := rotationVelocity c; isAnimating := isAnimating c;
     activeSection := activeSection c; isLocked := isLocked c;
     group_rotation_y := group_rotation_y c; tweens := tweens c;
     console := Warn msg :: console c |}.

(** The two assignments of [rotateTo] and the call of [gsap.to]. *)
Definition start_tween (tw : Tween) (c : Carousel) : Carousel :=
  {| settings := settings c; rotation := rotation c;
     targetRotation := tween_rotation tw;
     rotationVelocity := rotationVelocity c; isAnimating := true;
     activeSection := activeSection c; isLocked := isLocked c;
     group_rotation_y := group_rotation_y c; tweens := tw :: tweens c;
     console := console c |}.

Definition getRotation (c : Carousel) : number := rotation c.

(** [rotate(amount)] *)
Definition rotate (amount : number) (c : Carousel) : Carousel :=
  if isLocked c then c
  else set_rotation (jadd (rotation c) amount) c.

(** [rotateTo(targetAngle, duration = settings.rotationDuration)]; the
    result [None] is the [null] of the rejected call. *)
Definition rotateTo (targetAngle : number) (duration : option Q)
    (c : Carousel) : option Tween * Carousel :=
  let duration := default (rotationDuration (settings c)) duration in
  if isLocked c || isAnimating c then (None, c)
  else
    let currentAngle := jrem (rotation c) two_pi in
    let normalizedTarget := jrem targetAngle two_pi in
    let diff := jsub normalizedTarget currentAngle in
    let normalizedTarget :=
      if jgt (jabs diff) (Num Math_PI) then
        if jgt diff (Num 0) then jsub normalizedTarget two_pi
        else jadd normalizedTarget two_pi
      else normalizedTarget in
    let rotationTween :=
      {| tween_rotation := normalizedTarget;
         tween_duration := duration;
         tween_ease := rotationEase (settings c) |} in
    (Some rotationTween, start_tween rotationTween c).

(** The target the accepted branch of [rotateTo] computes from a finite
    rotation and a finite request, with the same steps written over [Q]
    (see [rotateTo_accepted]). *)
Definition chosen_target (r t : Q) : Q :=
  let currentAngle := rem r (Math_PI * 2) in
  let normalizedTarget := rem t (Math_PI * 2) in
  let diff := normalizedTarget - currentAngle in
  if Qlt_le_dec Math_PI (Qabs diff) then
    if Qlt_le_dec 0 diff then normalizedTarget - Math_PI * 2
    else normalizedTarget + Math_PI * 2
  else normalizedTarget.

(** [rotateToSection(sectionKey, duration = settings.rotationDuration)] *)
Definition rotateToSection (sectionKey : string) (duration : option Q)
    (c : Carousel) : option Tween * Carousel :=
  let duration := default (rotationDuration (settings c)) duration in
  match get SECTION_DEFINITIONS sectionKey with
  | Undefined =>
      (None, warn (not_found sectionKey) c)
  | sectionDef =>
      let targetAngle := jneg (angle_of sectionDef) in
      rotateTo targetAngle (Some duration) c
  end.

(** The tween created by [rotateTo] reaching its end: [state.rotation]
    holds the end value, [onUpdate] has copied it to the group and
    [onComplete] clears the flag. *)
Definition tween_complete (tw : Tween) (c : Carousel) : Carousel :=
  set_isAnimating false (set_rotation (tween_rotation tw) c).

(** The rotation part of [update(deltaTime)]. *)
Definition update (c : Carousel) : Carousel :=
  if isLocked c then c
  else if negb (isAnimating c)
          && jgt (jabs (jsub (rotation c) (targetRotation c))) (Num (1 # 1000))
  then set_rotation
         (jadd (rotation c)
               (jmul (jsub (targetRotation c) (rotation c)) (Num (1 # 10)))) c
  else c.

End Carousel.

(** ** Math utilities (math.js) *)
Module MathUtils.

(** [shortestArc(start, end)] *)
Definition shortestArc (start finish : number) : number :=
  let diff := jrem (jsub finish start) two_pi in
  if jlt diff (jneg (Num Math_PI)) then jadd diff two_pi
  else if jgt diff (Num Math_PI) then jsub diff two_pi
  else diff.

End MathUtils.

(** ** The camera system (camera.js) *)
Module CameraSystem.

Record Vector3 : Type := { x : Q; y : Q; z : Q }.

(** A settings object given to [configureOrbitControls]; a property the
    object literal does not define is [None] ([undefined]).  No settings
    object of the file defines [minAzimuthAngle], [maxAzimuthAngle],
    [enableZoom] or [enableRotate], so these four are left out. *)
Record OrbitSettings : Type := {
  s_enableDamping : option bool;
  s_dampingFactor : option Q;
  s_rotateSpeed : option Q;
  s_minDistance : option Q;
  s_maxDistance : option Q;
  s_minPolarAngle : option Q;
  s_maxPolarAngle : option Q;
  s_enablePan : option bool;
  s_autoRotate : option bool;
  s_autoRotateSpeed : option Q
}.

(** The [OrbitControls] instance. *)
Record Controls : Type := {
  enabled : bool;
  target : Vector3;
  enableDamping : bool;
  dampingFactor : Q;
  rotateSpeed : Q;
  minDistance : Q;
  maxDistance : Q;
  minPolarAngle : Q;
  maxPolarAngle : Q;
  enablePan : bool;
  autoRotate : bool;
  autoRotateSpeed : Q
}.

(** [configureOrbitControls(controls, settings)] *)
Definition configureOrbitControls (controls : Controls) (s : OrbitSettings)
    : Controls :=
  {| enabled := enabled controls;
     target := target controls;
     enableDamping := default (enableDamping controls) (s_enableDamping s);
     dampingFactor := default (dampingFactor controls) (s_dampingFactor s);
     rotateSpeed := default (rotateSpeed controls) (s_rotateSpeed s);
     minDistance := default (minDistance controls) (s_minDistance s);
     maxDistance := default (maxDistance controls) (s_maxDistance s);
     minPolarAngle := default (minPolarAngle controls) (s_minPolarAngle s);
     maxPolarAngle := default (maxPolarAngle controls) (s_maxPolarAngle s);
     enablePan := default (enablePan controls) (s_enablePan s);
     autoRotate := default (autoRotate controls) (s_autoRotate s);
     autoRotateSpeed :=
       default (autoRotateSpeed controls) (s_autoRotateSpeed s) |}.

Record SectionSettings : Type := {
  position : Vector3;
  lookAt : Vector3;
  fov : Q;
  orbitControls : option OrbitSettings
}.

Definition vec (a b c : Q) : Vector3 := {| x := a; y := b; z := c |}.

Definition overview_orbit : OrbitSettings := {|
  s_enableDamping := None; s_dampingFactor := None; s_rotateSpeed := None;
  s_minDistance := Some 15; s_maxDistance := Some 40;
  s_minPolarAngle := Some (1 # 10);
  s_maxPolarAngle := Some (Math_PI / (15 # 10));
  s_enablePan := Some false;
  s_autoRotate := None; s_autoRotateSpeed := None
|}.

Definition section_orbit : OrbitSettings := {|
  s_enableDamping := None; s_dampingFactor := None; s_rotateSpeed := None;
  s_minDistance := Some 5; s_maxDistance := Some 15;
  s_minPolarAngle := Some (3 # 10);
  s_maxPolarAngle := Some (Math_PI / (18 # 10));
  s_enablePan := Some false;
  s_autoRotate := None; s_autoRotateSpeed := None
|}.

Definition overview_settings : SectionSettings := {|
  position := vec 0 15 30; lookAt := vec 0 0 0; fov := 75;
  orbitControls := Some overview_orbit
|}.

Definition SECTION_CAMERA_SETTINGS : gmap string SectionSettings :=
  list_to_map
    [ ("overview"%string, overview_settings);
      ("project-theater"%string,
       {| position := vec (-12) 5 0; lookAt := vec (-12) 5 (-5); fov := 60;
          orbitControls := Some section_orbit |});
      ("achievement-shelf"%string,
       {| position := vec 0 5 (-12); lookAt := vec 0 5 (-17); fov := 60;
          orbitControls := Some section_orbit |});
      ("skill-planet"%string,
       {| position := vec 12 5 0; lookAt := vec 12 5 (-5); fov := 60;
          orbitControls := Some section_orbit |});
      ("chill-zone"%string,
       {| position := vec 0 5 12; lookAt := vec 0 5 7; fov := 60;
          orbitControls := Some section_orbit |}) ].

(** The callbacks that this code base installs as [onComplete] of a camera
    timeline: the one [transitionToSection] passes to [gsap.timeline], and
    the one the input controls put in its place with
    [timeline.eventCallback('onComplete', ...)]. *)
Inductive TimelineCallback : Type :=
| CameraTransitionComplete (sectionSettings : SectionSettings)
| SelectionComplete (sectionName : string).

(** The timeline built by [transitionToSection]: the end values of its
    tweens (the field-of-view tween exists only when the value differs),
    and its [onComplete]. *)
Record Timeline : Type := {
  to_position : Vector3;
  to_target : Vector3;
  to_fov : option Q;
  tl_duration : Q;
  tl_ease : string;
  onComplete : TimelineCallback
}.

Record CameraState : Type := {
  cs_position : Vector3;
  cs_target : Vector3;
  cs_fov : Q
}.

Inductive LogEntry : Type :=
| Warn (msg : string).

(** [camera], [controls] and the variables of the closure. *)
Record Camera : Type := {
  camera_position : Vector3;
  camera_fov : Q;
  controls : Controls;
  currentState : CameraState;
  activeTransition : option Timeline;
  currentSection : string;
  isLocked : bool;
  console : list LogEntry
}.

(** The state [createCameraSystem] builds when called without options:
    the controls are a fresh [OrbitControls] (enabled, target at the
    origin) configured with [DEFAULT_CAMERA_SETTINGS.orbitControls], which
    defines every property kept in [Controls]. *)
Definition createCameraSystem : Camera := {|
  camera_position := vec 0 15 30;
  camera_fov := 75;
  controls :=
    {| enabled := true; target := vec 0 0 0;
       enableDamping := true; dampingFactor := 5 # 100;
       rotateSpeed := 5 # 10;
       minDistance := 15; maxDistance := 40;
       minPolarAngle := 1 # 10; maxPolarAngle := Math_PI / (15 # 10);
       enablePan := false; autoRotate := false;
       autoRotateSpeed := 5 # 10 |};
  currentState :=
    {| cs_position := vec 0 15 30; cs_target := vec 0 0 0; cs_fov := 75 |};
  activeTransition := None;
  currentSection := "overview";
  isLocked := false;
  console := []
|}.

Definition with_enabled (b : bool) (c : Controls) : Controls :=
  {| enabled := b; target := target c;
     enableDamping := enableDamping c; dampingFactor := dampingFactor c;
     rotateSpeed := rotateSpeed c; minDistance := minDistance c;
     maxDistance := maxDistance c; minPolarAngle := minPolarAngle c;
     maxPolarAngle := maxPolarAngle c; enablePan := enablePan c;
     autoRotate := autoRotate c; autoRotateSpeed := autoRotateSpeed c |}.

Definition with_target (t : Vector3) (c : Controls) : Controls :=
  {| enabled := enabled c; target := t;
     enableDamping := enableDamping c; dampingFactor := dampingFactor c;
     rotateSpeed := rotateSpeed c; minDistance := minDistance c;
     maxDistance := maxDistance c; minPolarAngle := minPolarAngle c;
     maxPolarAngle := maxPolarAngle c; enablePan := enablePan c;
     autoRotate := autoRotate c; autoRotateSpeed := autoRotateSpeed c |}.

Definition warn (msg : string) (cam : Camera) : Camera :=
  {| camera_position := camera_position cam; camera_fov := camera_fov cam;
     controls := controls cam; currentState := currentState cam;
     activeTransition := activeTransition cam;
     currentSection := currentSection cam; isLocked := isLocked cam;
     console := Warn msg :: console cam |}.

(** The warning of [transitionToSection]. *)
Definition not_found (sectionName : string) : string :=
  "Section " ++ Carousel.dquote ++ sectionName ++ Carousel.dquote
  ++ " not found, transitioning to overview".

(** What a call does: return a transition object, or throw. *)
Inductive Outcome : Type :=
| Returned (transition : Timeline)
| Threw (error : string).

(** The statements of [transitionToSection] up to and including the
    creation of the timeline: [currentSection], [currentState] and
    [controls.enabled] are written before any property of
    [sectionSettings] is read. *)
Definition begin_transition (sectionName : string) (cam : Camera) : Camera :=
  {| camera_position := camera_position cam; camera_fov := camera_fov cam;
     controls := with_enabled false (controls cam);
     currentState :=
       {| cs_position := camera_position cam;
          cs_target := target (controls cam);
          cs_fov := camera_fov cam |};
     activeTransition := activeTransition cam;
     currentSection := sectionName; isLocked := isLocked cam;
     console := console cam |}.

Definition set_activeTransition (t : option Timeline) (cam : Camera)
    : Camera :=
  {| camera_position := camera_position cam; camera_fov := camera_fov cam;
     controls := controls cam; currentState := currentState cam;
     activeTransition := t;
     currentSection := currentSection cam; isLocked := isLocked cam;
     console := console cam |}.

(** The body of [transitionToSection] below the guard, for the value the
    lookup produced.  An inherited property is truthy and passes the guard,
    but has no [position]: reading [sectionSettings.position.x] throws. *)
Definition run_transition (sectionName : string)
    (found : SectionSettings + unit) (duration : Q) (easing : string)
    (cam : Camera) : Outcome * Camera :=
  let cam := begin_transition sectionName cam in
  match found with
  | inl sectionSettings =>
      let timeline :=
        {| to_position := position sectionSettings;
           to_target := lookAt sectionSettings;
           to_fov :=
             if negb (is_zero (fov sectionSettings))
                && negb (Qeq_bool (fov sectionSettings) (camera_fov cam))
             then Some (fov sectionSettings) else None;
           tl_duration := duration;
           tl_ease := easing;
           onComplete := CameraTransitionComplete sectionSettings |} in
      (Returned timeline, set_activeTransition (Some timeline) cam)
  | inr _ =>
      (Threw "TypeError: Cannot read properties of undefined (reading 'x')",
       cam)
  end.

(** [transitionToSection(sectionName, duration = 2, easing =
    'power2.inOut')].  The recursive call of the fallback is made with the
    literal ['overview'], which the table defines, so it is unfolded
    once. *)
Definition transitionToSection (sectionName : string) (duration : option Q)
    (easing : option string) (cam : Camera) : Outcome * Camera :=
  let duration := default 2 duration in
  let easing := default "power2.inOut"%string easing in
  match get SECTION_CAMERA_SETTINGS sectionName with
  | Undefined =>
      let cam := warn (not_found sectionName) cam in
      run_transition "overview" (inl overview_settings) duration easing cam
  | Own sectionSettings =>
      run_transition sectionName (inl sectionSettings) duration easing cam
  | Inherited =>
      run_transition sectionName (inr tt) duration easing cam
  end.

(** [resetToOverview(duration = 1.5)] *)
Definition resetToOverview (duration : option Q) (cam : Camera)
    : Outcome * Camera :=
  transitionToSection "overview" (Some (default (15 # 10) duration)) None cam.

(** [setLocked(locked)] *)
Definition setLocked (locked : bool) (cam : Camera) : Camera :=
  {| camera_position := camera_position cam; camera_fov := camera_fov cam;
     controls := with_enabled (negb locked) (controls cam);
     currentState := currentState cam;
     activeTransition := activeTransition cam;
     currentSection := currentSection cam; isLocked := locked;
     console := console cam |}.

(** The tweens of a timeline at their end: every animated property holds
    its end value. *)
Definition tweens_finished (tl : Timeline) (cam : Camera) : Camera :=
  {| camera_position := to_position tl;
     camera_fov := default (camera_fov cam) (to_fov tl);
     controls := with_target (to_target tl) (controls cam);
     currentState := currentState cam;
     activeTransition := activeTransition cam;
     currentSection := currentSection cam; isLocked := isLocked cam;
     console := console cam |}.

(** The [onComplete] closure of [transitionToSection]. *)
Definition on_transition_complete (sectionSettings : SectionSettings)
    (cam : Camera) : Camera :=
  let controls :=
    match orbitControls sectionSettings with
    | Some s => configureOrbitControls (controls cam) s
    | None => controls cam
    end in
  let controls := with_enabled (negb (isLocked cam)) controls in
  {| camera_position := camera_position cam; camera_fov := camera_fov cam;
     controls := controls;
     currentState :=
       {| cs_position := camera_position cam;
          cs_target := target controls;
          cs_fov := camera_fov cam |};
     activeTransition := activeTransition cam;
     currentSection := currentSection cam; isLocked := isLocked cam;
     console := console cam |}.

(** A timeline running to its end inside the camera system: the tweens
    finish, then the [onComplete] of [transitionToSection] runs. *)
Definition timeline_complete (tl : Timeline) (cam : Camera) : Camera :=
  let cam := tweens_finished tl cam in
  match onComplete tl with
  | CameraTransitionComplete sectionSettings =>
      on_transition_complete sectionSettings cam
  | SelectionComplete _ => cam
  end.

(** The transition part of [update(deltaTime)]: a finished timeline
    ([progress() === 1]) is dropped. *)
Definition update (finished : bool) (cam : Camera) : Camera :=
  match activeTransition cam with
  | Some _ => if finished then set_activeTransition None cam else cam
  | None => cam
  end.

End CameraSystem.

(** ** The transition controller (transition.js)

    The controller is modelled together with the camera system and the
    carousel it commands.  The post-processing and audio controllers are
    arguments of [createTransitionController] whose code is not part of
    the rotation and camera logic; they are represented by whether they
    were supplied. *)
Module TransitionController.

Inductive TransitionState : Type := IDLE | ACTIVE | COMPLETING.

Record Settings : Type := {
  duration : Q;
  cameraEase : string;
  rotationEase : string;
  colorEase : string;
  bloomTransition : bool;
  audioTransition : bool;
  particleTransition : bool
}.

Definition DEFAULT_TRANSITION_SETTINGS : Settings := {|
  duration := 12 # 10;
  cameraEase := "power2.inOut";
  rotationEase := "power2.inOut";
  colorEase := "power1.out";
  bloomTransition := true;
  audioTransition := true;
  particleTransition := true
|}.

(** [customOptions]: the properties a caller may override. *)
Record CustomOptions : Type := {
  o_duration : option Q;
  o_cameraEase : option string;
  o_rotationEase : option string;
  o_bloomTransition : option bool;
  o_audioTransition : option bool
}.

Definition no_options : CustomOptions := {|
  o_duration := None; o_cameraEase := None; o_rotationEase := None;
  o_bloomTransition := None; o_audioTransition := None
|}.

(** [{ ...settings, ...customOptions }] *)
Definition merge (s : Settings) (o : CustomOptions) : Settings := {|
  duration := default (duration s) (o_duration o);
  cameraEase := default (cameraEase s) (o_cameraEase o);
  rotationEase := default (rotationEase s) (o_rotationEase o);
  colorEase := colorEase s;
  bloomTransition := default (bloomTransition s) (o_bloomTransition o);
  audioTransition := default (audioTransition s) (o_audioTransition o);
  particleTransition := particleTransition s
|}.

Inductive TimelineKind : Type :=
| MasterTimeline (sectionName : string)
| CustomTimeline.

(** A [gsap.timeline()] created by the controller; [timeline_id] stands for
    the identity of the object ([indexOf] compares by identity). *)
Record Timeline : Type := {
  timeline_id : nat;
  kind : TimelineKind
}.

(** The sub-timelines added to a master timeline at position 0. *)
Record Children : Type := {
  cameraTimeline : option CameraSystem.Timeline;
  carouselTimeline : option Carousel.Tween;
  postTimeline : bool;
  audioTimeline : bool
}.

(** The object returned by an accepted [transitionToSection]. *)
Record Handle : Type := {
  timeline : Timeline;
  section : string;
  children : Children
}.

Inductive LogEntry : Type :=
| Warn (msg : string)
| Log (msg : string).

Record Controller : Type := {
  settings : Settings;
  currentState : TransitionState;
  activeTransitions : list nat;
  activeTimelines : list Timeline;
  previousSection : option string;
  targetSection : option string;
  camera : CameraSystem.Camera;
  carousel : Carousel.Carousel;
  postprocessing : bool;
  audio : bool;
  killed : list nat;
  next_id : nat;
  console : list LogEntry
}.

Definition createTransitionController (camera : CameraSystem.Camera)
    (carousel : Carousel.Carousel) (postprocessing audio : bool)
    : Controller := {|
  settings := DEFAULT_TRANSITION_SETTINGS;
  currentState := IDLE;
  activeTransitions := [];
  activeTimelines := [];
  previousSection := None;
  targetSection := None;
  camera := camera;
  carousel := carousel;
  postprocessing := postprocessing;
  audio := audio;
  killed := [];
  next_id := 0;
  console := []
|}.

Definition getState (t : Controller) : TransitionState := currentState t.

Definition state_eqb (a b : TransitionState) : bool :=
  match a, b with
  | IDLE, IDLE | ACTIVE, ACTIVE | COMPLETING, COMPLETING => true
  | _, _ => false
  end.

Definition isTransitioning (t : Controller) : bool :=
  negb (state_eqb (currentState t) IDLE).

Definition getPreviousSection (t : Controller) : option string :=
  previousSection t.

Definition getTargetSection (t : Controller) : option string :=
  targetSection t.

Definition log (e : LogEntry) (t : Controller) : Controller :=
  {| settings := settings t; currentState := currentState t;
     activeTransitions := activeTransitions t;
     activeTimelines := activeTimelines t;
     previousSection := previousSection t; targetSection := targetSection t;
     camera := camera t; carousel := carousel t;
     postprocessing := postprocessing t; audio := audio t;
     killed := killed t; next_id := next_id t;
     console := e :: console t |}.

Definition set_state (s : TransitionState) (t : Controller) : Controller :=
  {| settings := settings t; currentState := s;
     activeTransitions := activeTransitions t;
     activeTimelines := activeTimelines t;
     previousSection := previousSection t; targetSection := targetSection t;
     camera := camera t; carousel := carousel t;
     postprocessing := postprocessing t; audio := audio t;
     killed := killed t; next_id := next_id t; console := console t |}.

Definition set_activeTimelines (l : list Timeline) (t : Controller)
    : Controller :=
  {| settings := settings t; currentState := currentState t;
     activeTransitions := activeTransitions t;
     activeTimelines := l;
     previousSection := previousSection t; targetSection := targetSection t;
     camera := camera t; carousel := carousel t;
     postprocessing := postprocessing t; audio := audio t;
     killed := killed t; next_id := next_id t; console := console t |}.

Definition set_camera (c : CameraSystem.Camera) (t : Controller)
    : Controller :=
  {| settings := settings t; currentState := currentState t;
     activeTransitions := activeTransitions t;
     activeTimelines := activeTimelines t;
     previousSection := previousSection t; targetSection := targetSection t;
     camera := c; carousel := carousel t;
     postprocessing := postprocessing t; audio := audio t;
     killed := killed t; next_id := next_id t; console := console t |}.

Definition set_carousel (c : Carousel.Carousel) (t : Controller)
    : Controller :=
  {| settings := settings t; currentState := currentState t;
     activeTransitions := activeTransitions t;
     activeTimelines := activeTimelines t;
     previousSection := previousSection t; targetSection := targetSection t;
     camera := camera t; carousel := c;
     postprocessing := postprocessing t; audio := audio t;
     killed := killed t; next_id := next_id t; console := console t |}.

(** [timeline.kill()] *)
Definition kill (tl : Timeline) (t : Controller) : Controller :=
  {| settings := settings t; currentState := currentState t;
     activeTransitions := activeTransitions t;
     activeTimelines := activeTimelines t;
     previousSection := previousSection t; targetSection := targetSection t;
     camera := camera t; carousel := carousel t;
     postprocessing := postprocessing t; audio := audio t;
     killed := timeline_id tl :: killed t; next_id := next_id t;
     console := console t |}.

(** [clearActiveTransitions()] *)
Definition clearActiveTransitions (t : Controller) : Controller :=
  let t := fold_left (fun acc tl => kill tl acc) (activeTimelines t) t in
  {| settings := settings t; currentState := currentState t;
     activeTransitions := [];
     activeTimelines := [];
     previousSection := previousSection t; targetSection := targetSection t;
     camera := camera t; carousel := carousel t;
     postprocessing := postprocessing t; audio := audio t;
     killed := killed t; next_id := next_id t; console := console t |}.

(** The three assignments that open an accepted transition, and the
    creation of the master timeline. *)
Definition begin_transition (sectionName : string) (t : Controller)
    : Timeline * Controller :=
  ({| timeline_id := next_id t; kind := MasterTimeline sectionName |},
   {| settings := settings t; currentState := ACTIVE;
      activeTransitions := activeTransitions t;
      activeTimelines := activeTimelines t;
      previousSection := targetSection t;
      targetSection := Some sectionName;
      camera := camera t; carousel := carousel t;
      postprocessing := postprocessing t; audio := audio t;
      killed := killed t; next_id := S (next_id t);
      console := console t |}).

Inductive Outcome : Type :=
| Rejected
| Started (transition : Handle)
| Threw (error : string).

(** [createCarouselTransition(carousel, sectionName, options)] *)
Definition createCarouselTransition (sectionName : string)
    (options : Settings) (c : Carousel.Carousel)
    : option Carousel.Tween * Carousel.Carousel :=
  if String.eqb sectionName "overview" then (None, c)
  else Carousel.rotateToSection sectionName (Some (duration options)) c.

(** [transitionToSection(sectionName, customOptions = {})]; [Rejected] is
    the [null] of the guard. *)
Definition transitionToSection (sectionName : string)
    (customOptions : CustomOptions) (t : Controller)
    : Outcome * Controller :=
  if negb (state_eqb (currentState t) IDLE) then
    (Rejected, log (Warn "Transition already in progress, skipping") t)
  else
    let '(masterTimeline, t) := begin_transition sectionName t in
    let transitionOptions := merge (settings t) customOptions in
    let t := clearActiveTransitions t in
    match
      CameraSystem.transitionToSection sectionName
        (Some (duration transitionOptions))
        (Some (cameraEase transitionOptions)) (camera t)
    with
    | (CameraSystem.Threw e, cam) => (Threw e, set_camera cam t)
    | (CameraSystem.Returned cameraTimeline, cam) =>
        let t := set_camera cam t in
        let '(carouselTimeline, car) :=
          createCarouselTransition sectionName transitionOptions
            (carousel t) in
        let t := set_carousel car t in
        let h :=
          {| timeline := masterTimeline;
             section := sectionName;
             children :=
               {| cameraTimeline := Some cameraTimeline;
                  carouselTimeline := carouselTimeline;
                  postTimeline :=
                    postprocessing t && bloomTransition transitionOptions;
                  audioTimeline :=
                    audio t && audioTransition transitionOptions |} |} in
        (Started h,
         set_activeTimelines (activeTimelines t ++ [masterTimeline]) t)
    end.

(** [transitionToOverview(customOptions = {})] *)
Definition transitionToOverview (customOptions : CustomOptions)
    (t : Controller) : Outcome * Controller :=
  transitionToSection "overview" customOptions t.

(** The master timeline reaching its end: its children have finished,
    then its [onComplete] runs ([optimizeForSection] acts on the
    post-processing controller only). *)
Definition master_complete (h : Handle) (t : Controller) : Controller :=
  let t :=
    match cameraTimeline (children h) with
    | Some tl => set_camera (CameraSystem.timeline_complete tl (camera t)) t
    | None => t
    end in
  let t :=
    match carouselTimeline (children h) with
    | Some tw => set_carousel (Carousel.tween_complete tw (carousel t)) t
    | None => t
    end in
  let t := set_activeTimelines [] (set_state IDLE t) in
  log (Log ("Transition to " ++ section h ++ " complete")) t.

(** The [cancel] method of the returned object. *)
Definition cancel (h : Handle) (t : Controller) : Controller :=
  let t := kill (timeline h) t in
  log (Log "Transition cancelled") (set_activeTimelines [] (set_state IDLE t)).

(** [cancelAllTransitions()] *)
Definition cancelAllTransitions (t : Controller) : Controller :=
  log (Log "All transitions cancelled")
      (set_state IDLE (clearActiveTransitions t)).

Definition timeline_eqb (a b : Timeline) : bool :=
  Nat.eqb (timeline_id a) (timeline_id b).

(** [indexOf] followed by [splice(index, 1)]: the first occurrence is
    removed, if there is one. *)
Fixpoint remove_first (tl : Timeline) (l : list Timeline) : list Timeline :=
  match l with
  | [] => []
  | a :: l' => if timeline_eqb tl a then l' else a :: remove_first tl l'
  end.

(** [createCustomTransition(customOptions = {})] *)
Definition createCustomTransition (t : Controller) : Timeline * Controller :=
  let customTimeline :=
    {| timeline_id := next_id t; kind := CustomTimeline |} in
  (customTimeline,
   {| settings := settings t; currentState := currentState t;
      activeTransitions := activeTransitions t;
      activeTimelines := activeTimelines t ++ [customTimeline];
      previousSection := previousSection t;
      targetSection := targetSection t;
      camera := camera t; carousel := carousel t;
      postprocessing := postprocessing t; audio := audio t;
      killed := killed t; next_id := S (next_id t);
      console := console t |}).

(** [onComplete] of a custom timeline. *)
Definition custom_complete (tl : Timeline) (t : Controller) : Controller :=
  set_activeTimelines (remove_first tl (activeTimelines t)) t.

(** [cancel] of a custom transition. *)
Definition custom_cancel (tl : Timeline) (t : Controller) : Controller :=
  let t := kill tl t in
  set_activeTimelines (remove_first tl (activeTimelines t)) t.




(** What can happen to a controller: calls of its methods and of the
    methods of the objects it returned, timelines reaching their end, and
    the other components acting on the camera and carousel they share. *)
Inductive Action : Type :=
| DoTransitionToSection (sectionName : string) (customOptions : CustomOptions)
| DoMasterComplete (h : Handle)
| DoCancel (h : Handle)
| DoCancelAll
| DoCreateCustom
| DoCustomComplete (tl : Timeline)
| DoCustomCancel (tl : Timeline)
| CameraChanged (cam : CameraSystem.Camera)
| CarouselChanged (car : Carousel.Carousel).

Definition perform (a : Action) (t : Controller) : Controller :=
  match a with
  | DoTransitionToSection sectionName customOptions =>
      snd (transitionToSection sectionName customOptions t)
  | DoMasterComplete h => master_complete h t
  | DoCancel h => cancel h t
  | DoCancelAll => cancelAllTransitions t
  | DoCreateCustom => snd (createCustomTransition t)
  | DoCustomComplete tl => custom_complete tl t
  | DoCustomCancel tl => custom_cancel tl t
  | CameraChanged cam => set_camera cam t
  | CarouselChanged car => set_carousel car t
  end.

Definition perform_all (actions : list Action) (t : Controller)
    : Controller :=
  fold_left (fun acc a => perform a acc) actions t.

End TransitionController.

(** ** The input controls (controls.js)

    The keyboard handlers, section selection and the per-frame update,
    acting on the camera system and the carousel passed to
    [createControls]. *)
Module InputControls.

Record Settings : Type := {
  rotationSpeed : Q;
  dampingFactor : Q;
  autoRotate : bool;
  autoRotateSpeed : Q;
  enableRotation : bool
}.

Definition DEFAULT_SETTINGS : Settings := {|
  rotationSpeed := 5 # 10;
  dampingFactor := 92 # 100;
  autoRotate := true;
  autoRotateSpeed := 2 # 10;
  enableRotation := true
|}.

Inductive LogEntry : Type :=
| Log (msg : string).

(** The [input] object (the fields the keyboard and selection code use),
    [settings], and the two controllers. *)
Record Controls : Type := {
  settings : Settings;
  keys : gmap string bool;
  mouseDown : bool;
  touchDown : bool;
  rotationVelocity : number;
  isTransitioning : bool;
  activeSection : option string;
  camera : CameraSystem.Camera;
  carousel : Carousel.Carousel;
  console : list LogEntry
}.

Definition createControls (camera : CameraSystem.Camera)
    (carousel : Carousel.Carousel) : Controls := {|
  settings := DEFAULT_SETTINGS;
  keys := ∅;
  mouseDown := false;
  touchDown := false;
  rotationVelocity := Num 0;
  isTransitioning := false;
  activeSection := None;
  camera := camera;
  carousel := carousel;
  console := []
|}.

Definition set_key (code : string) (down : bool) (c : Controls) : Controls :=
  {| settings := settings c; keys := <[code := down]> (keys c);
     mouseDown := mouseDown c; touchDown := touchDown c;
     rotationVelocity := rotationVelocity c;
     isTransitioning := isTransitioning c;
     activeSection := activeSection c; camera := camera c;
     carousel := carousel c; console := console c |}.

Definition set_carousel (car : Carousel.Carousel) (c : Controls) : Controls :=
  {| settings := settings c; keys := keys c;
     mouseDown := mouseDown c; touchDown := touchDown c;
     rotationVelocity := rotationVelocity c;
     isTransitioning := isTransitioning c;
     activeSection := activeSection c; camera := camera c;
     carousel := car; console := console c |}.

Definition set_camera (cam : CameraSystem.Camera) (c : Controls) : Controls :=
  {| settings := settings c; keys := keys c;
     mouseDown := mouseDown c; touchDown := touchDown c;
     rotationVelocity := rotationVelocity c;
     isTransitioning := isTransitioning c;
     activeSection := activeSection c; camera := cam;
     carousel := carousel c; console := console c |}.

Definition set_selection (transitioning : bool) (active : option string)
    (c : Controls) : Controls :=
  {| settings := settings c; keys := keys c;
     mouseDown := mouseDown c; touchDown := touchDown c;
     rotationVelocity := rotationVelocity c;
     isTransitioning := transitioning;
     activeSection := active; camera := camera c;
     carousel := carousel c; console := console c |}.

Definition set_rotationVelocity (v : number) (c : Controls) : Controls :=
  {| settings := settings c; keys := keys c;
     mouseDown := mouseDown c; touchDown := touchDown c;
     rotationVelocity := v;
     isTransitioning := isTransitioning c;
     activeSection := activeSection c; camera := camera c;
     carousel := carousel c; console := console c |}.

Definition toggle_autoRotate (c : Controls) : Controls :=
  {| settings :=
       {| rotationSpeed := rotationSpeed (settings c);
          dampingFactor := dampingFactor (settings c);
          autoRotate := negb (autoRotate (settings c));
          autoRotateSpeed := autoRotateSpeed (settings c);
          enableRotation := enableRotation (settings c) |};
     keys := keys c;
     mouseDown := mouseDown c; touchDown := touchDown c;
     rotationVelocity := rotationVelocity c;
     isTransitioning := isTransitioning c;
     activeSection := activeSection c; camera := camera c;
     carousel := carousel c; console := console c |}.

Definition log (msg : string) (c : Controls) : Controls :=
  {| settings := settings c; keys := keys c;
     mouseDown := mouseDown c; touchDown := touchDown c;
     rotationVelocity := rotationVelocity c;
     isTransitioning := isTransitioning c;
     activeSection := activeSection c; camera := camera c;
     carousel := carousel c; console := Log msg :: console c |}.

(** Truthiness of [input.activeSection]: [null] and the empty string are
    falsy. *)
Definition truthy (s : option string) : bool :=
  match s with
  | Some EmptyString => false
  | Some _ => true
  | None => false
  end.

Inductive Direction : Type := dir_left | dir_right.

(** [handleArrowNavigation(direction)] *)
Definition handleArrowNavigation (direction : Direction) (c : Controls)
    : Controls :=
  let currentRotation := Carousel.getRotation (carousel c) in
  let sectionAngle := Num (Math_PI / 2) in
  let targetRotation :=
    match direction with
    | dir_left => jadd currentRotation sectionAngle
    | dir_right => jsub currentRotation sectionAngle
    end in
  set_carousel (snd (Carousel.rotateTo targetRotation None (carousel c))) c.

(** The body of the Escape branch and of the [resetToOverview] method. *)
Definition resetToOverview (c : Controls) : Controls :=
  if truthy (activeSection c) then
    let cam := snd (CameraSystem.resetToOverview None (camera c)) in
    set_selection (isTransitioning c) None (set_camera cam c)
  else c.

(** [onKeyDown(event)], by [event.code]. *)
Definition onKeyDown (code : string) (c : Controls) : Controls :=
  let c := set_key code true c in
  if negb (isTransitioning c) then
    if String.eqb code "ArrowLeft" then handleArrowNavigation dir_left c
    else if String.eqb code "ArrowRight" then handleArrowNavigation dir_right c
    else if String.eqb code "Escape" then resetToOverview c
    else if String.eqb code "Space" then toggle_autoRotate c
    else c
  else c.

(** [onKeyUp(event)] *)
Definition onKeyUp (code : string) (c : Controls) : Controls :=
  set_key code false c.

Inductive Outcome : Type :=
| Skipped
| Launched (timeline : CameraSystem.Timeline)
| Threw (error : string).

(** [selectSection(sectionName, sectionObject)].  The camera system always
    returns an object with a [timeline], whose [onComplete] is replaced
    through [eventCallback]; the timeline stored in the camera's
    [activeTransition] is the same object. *)
Definition selectSection (sectionName : string) (c : Controls)
    : Outcome * Controls :=
  if bool_decide (activeSection c = Some sectionName) then (Skipped, c)
  else
    let c := log ("Selecting section: " ++ sectionName) c in
    let c := set_selection true (activeSection c) c in
    match CameraSystem.transitionToSection sectionName None None (camera c) with
    | (CameraSystem.Returned tl, cam) =>
        let tl :=
          {| CameraSystem.to_position := CameraSystem.to_position tl;
             CameraSystem.to_target := CameraSystem.to_target tl;
             CameraSystem.to_fov := CameraSystem.to_fov tl;
             CameraSystem.tl_duration := CameraSystem.tl_duration tl;
             CameraSystem.tl_ease := CameraSystem.tl_ease tl;
             CameraSystem.onComplete :=
               CameraSystem.SelectionComplete sectionName |} in
        (Launched tl,
         set_camera (CameraSystem.set_activeTransition (Some tl) cam) c)
    | (CameraSystem.Threw e, cam) => (Threw e, set_camera cam c)
    end.

(** A camera timeline reaching its end: the tweens finish and the
    installed [onComplete] runs. *)
Definition timeline_complete (tl : CameraSystem.Timeline) (c : Controls)
    : Controls :=
  let c := set_camera (CameraSystem.timeline_complete tl (camera c)) c in
  match CameraSystem.onComplete tl with
  | CameraSystem.SelectionComplete sectionName =>
      set_selection false (Some sectionName) c
  | CameraSystem.CameraTransitionComplete _ => c
  end.

(** The rotation tween started last on the carousel reaching its end. *)
Definition rotation_complete (c : Controls) : Controls :=
  match Carousel.tweens (carousel c) with
  | tw :: _ => set_carousel (Carousel.tween_complete tw (carousel c)) c
  | [] => c
  end.

(** [update(deltaTime)] *)
Definition update (deltaTime : Q) (c : Controls) : Controls :=
  if isTransitioning c then c
  else
    let c :=
      if autoRotate (settings c) && negb (mouseDown c) && negb (touchDown c)
         && negb (truthy (activeSection c))
      then
        let autoRotateStep := Num (autoRotateSpeed (settings c) * deltaTime) in
        set_carousel (Carousel.rotate autoRotateStep (carousel c)) c
      else c in
    let c :=
      set_rotationVelocity
        (jmul (rotationVelocity c) (Num (dampingFactor (settings c)))) c in
    if negb (mouseDown c) && negb (touchDown c)
       && jgt (jabs (rotationVelocity c)) (Num (1 # 10000))
    then set_carousel (Carousel.rotate (rotationVelocity c) (carousel c)) c
    else c.

End InputControls.

(** ** The application controller (app.js) *)
Module App.

Record Vector3 : Type := { x : Q; y : Q; z : Q }.

Definition vec (a b c : Q) : Vector3 := {| x := a; y := b; z := c |}.

Inductive LogEntry : Type :=
| Log (msg : string).

(** A [gsap.to] animation: of [APP.camera.position], started by
    [selectSection] or [returnToOverview], or of [APP.carousel.rotation],
    started by [rotateCarouselTo]. *)
Inductive Animation : Type :=
| ToSection (sectionName : string) (cameraTarget lookAtPosition : Vector3)
| ToOverview
| Rotation (targetAngle : number).

(** The [APP] object: its state flags, the vertical rotation of
    [APP.carousel] when that reference is set, the camera position, the
    orbit controls and the section shown in the info panel. *)
Record APP : Type := {
  isLoading : bool;
  isTransitioning : bool;
  activeSection : option string;
  carouselRotation : number;
  targetRotation : number;
  carousel : option number;
  camera_position : Vector3;
  controls_enabled : bool;
  controls_target : Vector3;
  controls_minDistance : Q;
  controls_maxDistance : Q;
  infoPanel : option string;
  animations : list Animation;
  console : list LogEntry
}.

Definition init : APP := {|
  isLoading := true;
  isTransitioning := false;
  activeSection := None;
  carouselRotation := Num 0;
  targetRotation := Num 0;
  carousel := None;
  camera_position := vec 0 15 30;
  controls_enabled := true;
  controls_target := vec 0 0 0;
  controls_minDistance := 15;
  controls_maxDistance := 40;
  infoPanel := None;
  animations := [];
  console := [ Log "Initializing 3D Portfolio Carousel" ]
|}.

(** The [switch] of [selectSection]: no case, no assignment. *)
Definition camera_for (sectionName : string) : option (Vector3 * Vector3) :=
  if String.eqb sectionName "project-theater" then
    Some (vec (-12) 5 0, vec (-12) 5 (-5))
  else if String.eqb sectionName "achievement-shelf" then
    Some (vec 0 5 (-12), vec 0 5 (-17))
  else if String.eqb sectionName "skill-planet" then
    Some (vec 12 5 0, vec 12 5 (-5))
  else if String.eqb sectionName "chill-zone" then
    Some (vec 0 5 12, vec 0 5 7)
  else None.

Inductive Outcome : Type :=
| Skipped
| Launched (a : Animation)
| Threw (error : string).

(** [selectSection(sectionName)] *)
Definition selectSection (sectionName : string) (app : APP) : Outcome * APP :=
  if isTransitioning app || bool_decide (activeSection app = Some sectionName)
  then (Skipped, app)
  else
    let started (anims : list Animation) : APP :=
      {| isLoading := isLoading app;
         isTransitioning := true;
         activeSection := Some sectionName;
         carouselRotation := carouselRotation app;
         targetRotation := targetRotation app;
         carousel := carousel app;
         camera_position := camera_position app;
         controls_enabled := false;
         controls_target := controls_target app;
         controls_minDistance := controls_minDistance app;
         controls_maxDistance := controls_maxDistance app;
         infoPanel := infoPanel app;
         animations := anims;
         console := Log ("Selecting section: " ++ sectionName) :: console app
      |} in
    match camera_for sectionName with
    | Some (cameraTarget, lookAtPosition) =>
        let a := ToSection sectionName cameraTarget lookAtPosition in
        (Launched a, started (a :: animations app))
    | None =>
        (Threw "TypeError: Cannot read properties of undefined (reading 'x')",
         started (animations app))
    end.

(** [returnToOverview()] *)
Definition returnToOverview (app : APP) : Outcome * APP :=
  if isTransitioning app then (Skipped, app)
  else
    (Launched ToOverview,
     {| isLoading := isLoading app;
        isTransitioning := true;
        activeSection := activeSection app;
        carouselRotation := carouselRotation app;
        targetRotation := targetRotation app;
        carousel := carousel app;
        camera_position := camera_position app;
        controls_enabled := false;
        controls_target := controls_target app;
        controls_minDistance := controls_minDistance app;
        controls_maxDistance := controls_maxDistance app;
        infoPanel := None;
        animations := ToOverview :: animations app;
        console := Log "Returning to overview" :: console app |}).

(** [rotateCarouselTo(targetAngle)] *)
Definition rotateCarouselTo (targetAngle : number) (app : APP)
    : Outcome * APP :=
  match carousel app with
  | None => (Skipped, app)
  | Some _ =>
      if isTransitioning app then (Skipped, app)
      else
        (Launched (Rotation targetAngle),
         {| isLoading := isLoading app;
            isTransitioning := true;
            activeSection := activeSection app;
            carouselRotation := carouselRotation app;
            targetRotation := targetAngle;
            carousel := carousel app;
            camera_position := camera_position app;
            controls_enabled := controls_enabled app;
            controls_target := controls_target app;
            controls_minDistance := controls_minDistance app;
            controls_maxDistance := controls_maxDistance app;
            infoPanel := infoPanel app;
            animations := Rotation targetAngle :: animations app;
            console := console app |})
  end.

(** An animation reaching its end: the animated property holds its end
    value and the [onComplete] of the call that started it runs. *)
Definition animation_complete (a : Animation) (app : APP) : APP :=
  match a with
  | ToSection sectionName cameraTarget lookAtPosition =>
      {| isLoading := isLoading app;
         isTransitioning := false;
         activeSection := activeSection app;
         carouselRotation := carouselRotation app;
         targetRotation := targetRotation app;
         carousel := carousel app;
         camera_position := cameraTarget;
         controls_enabled := true;
         controls_target := lookAtPosition;
         controls_minDistance := 5;
         controls_maxDistance := 15;
         infoPanel := Some sectionName;
         animations := animations app;
         console := console app |}
  | ToOverview =>
      {| isLoading := isLoading app;
         isTransitioning := false;
         activeSection := None;
         carouselRotation := carouselRotation app;
         targetRotation := targetRotation app;
         carousel := carousel app;
         camera_position := vec 0 15 30;
         controls_enabled := true;
         controls_target := vec 0 0 0;
         controls_minDistance := 15;
         controls_maxDistance := 40;
         infoPanel := infoPanel app;
         animations := animations app;
         console := console app |}
  | Rotation targetAngle =>
      {| isLoading := isLoading app;
         isTransitioning := false;
         activeSection := activeSection app;
         carouselRotation := targetAngle;
         targetRotation := targetRotation app;
         carousel := Some targetAngle;
         camera_position := camera_position app;
         controls_enabled := controls_enabled app;
         controls_target := controls_target app;
         controls_minDistance := controls_minDistance app;
         controls_maxDistance := controls_maxDistance app;
         infoPanel := infoPanel app;
         animations := animations app;
         console := console app |}
  end.

End App.

(** ** The asset manager (loader.js)

    The loaders of the rendering library call back once per asset, each
    call in a task of its own; promise reactions run as microtasks at the
    end of the task that scheduled them.  A loading run is therefore a
    sequence of settlements, one per queued asset, in the order in which
    the loaders answer. *)
Module AssetManager.

Inductive AssetType : Type := texture | model | font | svg | audio.

#[global] Instance AssetType_eq_dec : EqDecision AssetType.
Proof. solve_decision. Defined.

Record QueueItem : Type := {
  type : AssetType;
  name : string;
  url : string
}.

(** The calls made to the callbacks given to [setCallbacks], and the
    console. *)
Inductive Event : Type :=
| Progress (progress : Q) (loadedItems totalItems : nat)
| Complete
| Error (assetType : AssetType) (url : string) (error : string)
| ConsoleError (assetType : AssetType) (url : string) (error : string).

(** The value of [this.onCompleteCallback]: [null], the function given to
    [setCallbacks], or the closure [loadAll] puts in its place, which keeps
    the previous value as [originalCompleteCallback]. *)
Inductive CompleteCallback : Type :=
| NoCallback
| UserCallback
| LoadAllCallback (originalCompleteCallback : CompleteCallback).

(** The promise returned by [loadAll]. *)
Inductive PromiseState : Type :=
| Pending
| Fulfilled
| Rejected (error : string).

Record Manager : Type := {
  textures : gmap string string;
  models : gmap string string;
  fonts : gmap string string;
  svgs : gmap string string;
  audios : gmap string string;
  loadingQueue : list QueueItem;
  totalItems : nat;
  loadedItems : nat;
  onProgressCallback : bool;
  onCompleteCallback : CompleteCallback;
  onErrorCallback : bool;
  promise : option PromiseState;
  events : list Event
}.

(** [new AssetManager()]; [events] lists the newest event first. *)
Definition constructor : Manager := {|
  textures := ∅; models := ∅; fonts := ∅; svgs := ∅; audios := ∅;
  loadingQueue := [];
  totalItems := 0;
  loadedItems := 0;
  onProgressCallback := false;
  onCompleteCallback := NoCallback;
  onErrorCallback := false;
  promise := None;
  events := []
|}.

(** [setCallbacks(callbacks)]: a callback that is not given leaves the
    field as it is. *)
Definition setCallbacks (onProgress onComplete onError : bool) (m : Manager)
    : Manager :=
  {| textures := textures m; models := models m; fonts := fonts m;
     svgs := svgs m; audios := audios m;
     loadingQueue := loadingQueue m;
     totalItems := totalItems m; loadedItems := loadedItems m;
     onProgressCallback := onProgress || onProgressCallback m;
     onCompleteCallback :=
       if onComplete then UserCallback else onCompleteCallback m;
     onErrorCallback := onError || onErrorCallback m;
     promise := promise m; events := events m |}.

Definition emit (e : Event) (m : Manager) : Manager :=
  {| textures := textures m; models := models m; fonts := fonts m;
     svgs := svgs m; audios := audios m;
     loadingQueue := loadingQueue m;
     totalItems := totalItems m; loadedItems := loadedItems m;
     onProgressCallback := onProgressCallback m;
     onCompleteCallback := onCompleteCallback m;
     onErrorCallback := onErrorCallback m;
     promise := promise m; events := e :: events m |}.

Definition set_promise (p : option PromiseState) (m : Manager) : Manager :=
  {| textures := textures m; models := models m; fonts := fonts m;
     svgs := svgs m; audios := audios m;
     loadingQueue := loadingQueue m;
     totalItems := totalItems m; loadedItems := loadedItems m;
     onProgressCallback := onProgressCallback m;
     onCompleteCallback := onCompleteCallback m;
     onErrorCallback := onErrorCallback m;
     promise := p; events := events m |}.

(** [resolve(...)] and [reject(error)] of the promise of [loadAll]: only a
    pending promise is settled. *)
Definition resolve (m : Manager) : Manager :=
  match promise m with
  | Some Pending => set_promise (Some Fulfilled) m
  | _ => m
  end.

Definition reject (error : string) (m : Manager) : Manager :=
  match promise m with
  | Some Pending => set_promise (Some (Rejected error)) m
  | _ => m
  end.

(** Calling the value of [this.onCompleteCallback]. *)
Fixpoint call_complete (cb : CompleteCallback) (m : Manager) : Manager :=
  match cb with
  | NoCallback => m
  | UserCallback => emit Complete m
  | LoadAllCallback originalCompleteCallback =>
      resolve (call_complete originalCompleteCallback m)
  end.

Definition percent (loaded total : nat) : Q :=
  inject_Z (Z.of_nat loaded) / inject_Z (Z.of_nat total) * 100.

(** [updateProgress()] *)
Definition updateProgress (m : Manager) : Manager :=
  let m :=
    {| textures := textures m; models := models m; fonts := fonts m;
       svgs := svgs m; audios := audios m;
       loadingQueue := loadingQueue m;
       totalItems := totalItems m; loadedItems := S (loadedItems m);
       onProgressCallback := onProgressCallback m;
       onCompleteCallback := onCompleteCallback m;
       onErrorCallback := onErrorCallback m;
       promise := promise m; events := events m |} in
  let progress := percent (loadedItems m) (totalItems m) in
  let m :=
    if onProgressCallback m
    then emit (Progress progress (loadedItems m) (totalItems m)) m
    else m in
  if Nat.eqb (loadedItems m) (totalItems m) then
    call_complete (onCompleteCallback m) m
  else m.

(** [handleError(assetType, url, error)] *)
Definition handleError (assetType : AssetType) (url : string)
    (error : string) (m : Manager) : Manager :=
  let m := emit (ConsoleError assetType url error) m in
  let m := if onErrorCallback m then emit (Error assetType url error) m
           else m in
  updateProgress m.

(** [queueTexture], [queueModel], [queueFont], [queueSVG], [queueAudio] *)
Definition queue (ty : AssetType) (name url : string) (m : Manager)
    : Manager :=
  {| textures := textures m; models := models m; fonts := fonts m;
     svgs := svgs m; audios := audios m;
     loadingQueue :=
       loadingQueue m ++ [ {| type := ty; name := name; url := url |} ];
     totalItems := S (totalItems m); loadedItems := loadedItems m;
     onProgressCallback := onProgressCallback m;
     onCompleteCallback := onCompleteCallback m;
     onErrorCallback := onErrorCallback m;
     promise := promise m; events := events m |}.

Definition queueTexture := queue texture.
Definition queueModel := queue model.
Definition queueFont := queue font.
Definition queueSVG := queue svg.
Definition queueAudio := queue audio.

(** [this.textures[name] = texture] and its four siblings; the loaded
    object is represented by the address it came from. *)
Definition store (item : QueueItem) (m : Manager) : Manager :=
  let put (ty : AssetType) (dict : gmap string string) :=
    if bool_decide (type item = ty) then <[name item := url item]> dict
    else dict in
  {| textures := put texture (textures m); models := put model (models m);
     fonts := put font (fonts m); svgs := put svg (svgs m);
     audios := put audio (audios m);
     loadingQueue := loadingQueue m;
     totalItems := totalItems m; loadedItems := loadedItems m;
     onProgressCallback := onProgressCallback m;
     onCompleteCallback := onCompleteCallback m;
     onErrorCallback := onErrorCallback m;
     promise := promise m; events := events m |}.

(** How the loader answers for one asset. *)
Inductive Result : Type :=
| Loaded
| Failed (error : string).

(** One loader callback of [loadTexture] ... [loadAudio] as started by
    [loadAll], with the microtasks it leaves behind.  On success the asset
    is stored and progress updated.  On failure [handleError] runs first,
    then the asset's promise is rejected, and its [catch(reject)] reaction
    rejects the promise of [loadAll]. *)
Definition settle (item : QueueItem) (r : Result) (m : Manager) : Manager :=
  match r with
  | Loaded => updateProgress (store item m)
  | Failed error =>
      let m := handleError (type item) (url item) error m in
      reject error m
  end.

(** [loadAll()]: the state when the call returns. *)
Definition loadAll (m : Manager) : Manager :=
  match loadingQueue m with
  | [] =>
      set_promise (Some Fulfilled) (call_complete (onCompleteCallback m) m)
  | _ :: _ =>
      {| textures := textures m; models := models m; fonts := fonts m;
         svgs := svgs m; audios := audios m;
         loadingQueue := loadingQueue m;
         totalItems := totalItems m; loadedItems := loadedItems m;
         onProgressCallback := onProgressCallback m;
         onCompleteCallback := LoadAllCallback (onCompleteCallback m);
         onErrorCallback := onErrorCallback m;
         promise := Some Pending; events := events m |}
  end.

(** A loading run: the loaders answer one after the other. *)
Definition run (answers : list (QueueItem * Result)) (m : Manager)
    : Manager :=
  fold_left (fun acc a => settle (fst a) (snd a) acc) answers m.

(** A manager from its construction to the return of [loadAll]: the
    callbacks are set (each given or not), the items queued in order, and
    [loadAll] called. *)
Definition queue_item (item : QueueItem) (m : Manager) : Manager :=
  queue (type item) (name item) (url item) m.

Definition queue_all (items : list QueueItem) (m : Manager) : Manager :=
  fold_left (fun acc item => queue_item item acc) items m.

Definition start (onProgress onComplete onError : bool)
    (items : list QueueItem) : Manager :=
  loadAll
    (queue_all items (setCallbacks onProgress onComplete onError constructor)).

(** The assets queued by [loadCarouselAssets()], which then calls
    [loadAll]. *)
Definition noise : QueueItem :=
  {| type := texture; name := "noiseTex";
     url := "assets/textures/noise.jpg" |}.
Definition stars : QueueItem :=
  {| type := texture; name := "starsTex";
     url := "assets/textures/stars.jpg" |}.
Definition glow : QueueItem :=
  {| type := texture; name := "glowTex";
     url := "assets/textures/glow.png" |}.
Definition platform : QueueItem :=
  {| type := model; name := "platform";
     url := "assets/models/platform.glb" |}.

Definition carousel_assets : list QueueItem :=
  [ noise; stars;
    {| type := texture; name := "platformTex";
       url := "assets/textures/platform_normal.jpg" |};
    glow; platform;
    {| type := model; name := "projectDisplay";
       url := "assets/models/project_display.glb" |};
    {| type := model; name := "achievementShelf";
       url := "assets/models/achievement_shelf.glb" |};
    {| type := model; name := "skillPlanet";
       url := "assets/models/skill_planet.glb" |};
    {| type := model; name := "chillZone";
       url := "assets/models/chill_zone.glb" |};
    {| type := font; name := "neonFont";
       url := "assets/fonts/neon_font.json" |};
    {| type := audio; name := "background";
       url := "assets/audio/ambient_loop.mp3" |};
    {| type := audio; name := "click"; url := "assets/audio/click.mp3" |};
    {| type := audio; name := "hover"; url := "assets/audio/hover.mp3" |} ].

Definition loadCarouselAssets (m : Manager) : Manager :=
  loadAll (queue_all carousel_assets m).

(** A callback value that [loadAll] has not wrapped, and the number of
    calls the function given to [setCallbacks] receives when the value is
    called. *)
Definition plain (cb : CompleteCallback) : Prop :=
  cb = NoCallback \/ cb = UserCallback.

Definition fires (cb : CompleteCallback) : nat :=
  match cb with
  | UserCallback => 1
  | _ => 0
  end.

(** Observations on the event list. *)
Definition is_complete (e : Event) : bool :=
  match e with
  | Complete => true
  | _ => false
  end.

Definition completions (m : Manager) : nat :=
  length (filter is_complete (events m)).

(** The progress reports in the order they were made. *)
Definition progress_reports (m : Manager) : list (Q * nat * nat) :=
  rev (omap (fun e => match e with
                      | Progress p l t => Some (p, l, t)
                      | _ => None
                      end) (events m)).

Definition is_failure (a : QueueItem * Result) : bool :=
  match snd a with
  | Failed _ => true
  | Loaded => false
  end.

(** [getProgress()] *)
Definition getProgress (m : Manager) : Q :=
  percent (loadedItems m) (totalItems m).

(** [reset()] *)
Definition reset (m : Manager) : Manager :=
  {| textures := textures m; models := models m; fonts := fonts m;
     svgs := svgs m; audios := audios m;
     loadingQueue := [];
     totalItems := 0; loadedItems := 0;
     onProgressCallback := onProgressCallback m;
     onCompleteCallback := onCompleteCallback m;
     onErrorCallback := onErrorCallback m;
     promise := promise m; events := events m |}.

End AssetManager.

(** ** Sums and differences rounded to doubles

    The modules above compute [+] and [-] exactly.  Two properties of the
    source depend on what rounding and overflow do to a sum: whether
    [rotateTo] takes a turn off when the difference of the wrapped angles
    rounds to [Math.PI], and what [shortestArc] returns when [end - start]
    lies beyond the doubles.  For these the same source lines are written
    once more, with the result of every [+] and [-] passed through the
    rounding [fl], and with [overflows] telling which exact results are
    beyond the range of the doubles and give an infinity.

    [%], unary minus, [Math.abs], the comparisons, [Math.PI * 2] and
    [Math.PI / 2] are exact on doubles and stay as they are.  The sums of
    [rotateTo], and those of [shortestArc] after its remainder, are formed
    from remainders modulo [2 * Math.PI] and stay below three turns, so they
    cannot overflow.

    The properties constrain [fl] by its relative error alone.  Rounding to
    53 significant bits has relative error at most 2^-53 at every rational,
    and it is the IEEE result of every sum or difference of two doubles
    that does not overflow (below the normal range such a sum is itself a
    double). *)
Module Rounded.
Import Carousel.

Section Rounding.

Variable fl : Q -> Q.
Variable overflows : Q -> bool.

Definition jround (a : number) : number :=
  match a with
  | Num x => Num (fl x)
  | NaN => NaN
  end.

(** [rotateTo(targetAngle, duration = settings.rotationDuration)], the sums
    of [normalizedTarget - currentAngle], [normalizedTarget -= Math.PI * 2]
    and [normalizedTarget += Math.PI * 2] rounded. *)
Definition rotateTo (targetAngle : number) (duration : option Q)
    (c : Carousel) : option Tween * Carousel :=
  let duration := default (rotationDuration (settings c)) duration in
  if isLocked c || isAnimating c then (None, c)
  else
    let currentAngle := jrem (rotation c) two_pi in
    let normalizedTarget := jrem targetAngle two_pi in
    let diff := jround (jsub normalizedTarget currentAngle) in
    let normalizedTarget :=
      if jgt (jabs diff) (Num Math_PI) then
        if jgt diff (Num 0) then jround (jsub normalizedTarget two_pi)
        else jround (jadd normalizedTarget two_pi)
      else normalizedTarget in
    let rotationTween :=
      {| tween_rotation := normalizedTarget;
         tween_duration := duration;
         tween_ease := rotationEase (settings c) |} in
    (Some rotationTween, start_tween rotationTween c).

(** The target of the accepted branch, for a finite rotation and a finite
    request, with the same steps written over [Q]. *)
Definition chosen_target (r t : Q) : Q :=
  let currentAngle := rem r (Math_PI * 2) in
  let normalizedTarget := rem t (Math_PI * 2) in
  let diff := fl (normalizedTarget - currentAngle) in
  if Qlt_le_dec Math_PI (Qabs diff) then
    if Qlt_le_dec 0 diff then fl (normalizedTarget - Math_PI * 2)
    else fl (normalizedTarget + Math_PI * 2)
  else normalizedTarget.

(** [rotateToSection(sectionKey, duration = settings.rotationDuration)] *)
Definition rotateToSection (sectionKey : string) (duration : option Q)
    (c : Carousel) : option Tween * Carousel :=
  let duration := default (rotationDuration (settings c)) duration in
  match get SECTION_DEFINITIONS sectionKey with
  | Undefined =>
      (None, warn (not_found sectionKey) c)
  | sectionDef =>
      let targetAngle := jneg (angle_of sectionDef) in
      rotateTo targetAngle (Some duration) c
  end.

(** [shortestArc(start, end)].  When [end - start] overflows it is an
    infinity, [Infinity % (Math.PI * 2)] is [NaN], both comparisons fail
    and [diff] is returned. *)
Definition shortestArc (start finish : number) : number :=
  match jsub finish start with
  | Num x =>
      if overflows x then NaN
      else
        let diff := jrem (Num (fl x)) two_pi in
        if jlt diff (jneg (Num Math_PI)) then jround (jadd diff two_pi)
        else if jgt diff (Num Math_PI) then jround (jsub diff two_pi)
        else diff
  | NaN => NaN
  end.

End Rounding.

(** The relative error of a rounding at one exact result. *)
Definition accurate (u : Q) (fl : Q -> Q) (x : Q) : Prop :=
  Qabs (fl x - x) <= u * Qabs x.

(** 2^-53, the relative error of rounding to nearest on doubles. *)
Definition unit_roundoff : Q := 1 # 9007199254740992.

(** Rounding that is exact except at [x], where it gives [y]. *)
Definition exact_except (x y : Q) : Q -> Q :=
  fun z => if Qeq_bool z x then y else z.

(** The range of the doubles: an exact result of magnitude 2^1024 - 2^970
    or more is rounded to an infinity. *)
Definition beyond_doubles (x : Q) : bool :=
  if Qlt_le_dec (Qabs x) (inject_Z (2 ^ 1024 - 2 ^ 970)) then false else true.

End Rounded.

(** ** Sequences of carousel operations

    What the other components and the animation library do to a carousel:
    calls of its methods and the end of a rotation tween. *)
Module CarouselRun.
Import Carousel.

Inductive Action : Type :=
| Rotate (amount : number)
| RotateTo (targetAngle : number) (duration : option Q)
| RotateToSection (sectionKey : string) (duration : option Q)
| Update
| SetLocked (locked : bool)
| TweenComplete (tw : Tween).

Definition perform (a : Action) (c : Carousel) : Carousel :=
  match a with
  | Rotate amount => rotate amount c
  | RotateTo targetAngle duration => snd (rotateTo targetAngle duration c)
  | RotateToSection sectionKey duration =>
      snd (rotateToSection sectionKey duration c)
  | Update => update c
  | SetLocked locked => setLocked locked c
  | TweenComplete tw => tween_complete tw c
  end.

Definition perform_all (actions : list Action) (c : Carousel) : Carousel :=
  fold_left (fun acc a => perform a acc) actions c.

(** The calls that ask the carousel to move. *)
Definition is_request (a : Action) : bool :=
  match a with
  | Rotate _ | RotateTo _ _ | RotateToSection _ _ | Update => true
  | SetLocked _ | TweenComplete _ => false
  end.

(** The facts every operation keeps: the group shows the rotation of the
    state, and the target is the end value of the newest tween. *)
Definition in_step (c : Carousel) : Prop :=
  group_rotation_y c = rotation c /\
  targetRotation c
  = match tweens c with
    | tw :: _ => tween_rotation tw
    | [] => Num 0
    end /\
  (isAnimating c = true -> tweens c <> []).

(** [update] called on [n] consecutive frames. *)
Definition frames (n : nat) (c : Carousel) : Carousel := Nat.iter n update c.

End CarouselRun.

(** ** More of the math utilities (math.js) *)
Module MathMore.

(** [Math.min] and [Math.max] of two numbers: [NaN] if either is. *)
Definition jmin (a b : number) : number :=
  match a, b with
  | Num x, Num y => Num (if Qlt_le_dec y x then y else x)
  | _, _ => NaN
  end.

Definition jmax (a b : number) : number :=
  match a, b with
  | Num x, Num y => Num (if Qlt_le_dec x y then y else x)
  | _, _ => NaN
  end.

(** [clamp(value, min, max)] *)
Definition clamp (value min max : number) : number :=
  jmax min (jmin max value).

(** [lerp(start, end, t)] *)
Definition lerp (start finish t : number) : number :=
  jadd (jmul start (jsub (Num 1) t)) (jmul finish t).

(** [Math.pow(x, 3)] on a finite number. *)
Definition cube (x : Q) : Q := x * x * x.

(** [easeInOut(t)], [easeOut(t)], [easeIn(t)] on a finite number. *)
Definition easeInOut (t : Q) : Q :=
  if Qlt_le_dec t (5 # 10) then 4 * t * t * t
  else 1 - cube (- (2) * t + 2) / 2.

Definition easeOut (t : Q) : Q := 1 - cube (1 - t).

Definition easeIn (t : Q) : Q := t * t * t.

(** [easeOutBounce(t)]; each branch first moves [t] back by its offset
    ([t -= ...]) and then uses the new value twice. *)
Definition easeOutBounce (t : Q) : Q :=
  let n1 := 75625 # 10000 in
  let d1 := 275 # 100 in
  if Qlt_le_dec t (1 / d1) then n1 * t * t
  else if Qlt_le_dec t (2 / d1) then
    let t := t - (15 # 10) / d1 in n1 * t * t + (75 # 100)
  else if Qlt_le_dec t ((25 # 10) / d1) then
    let t := t - (225 # 100) / d1 in n1 * t * t + (9375 # 10000)
  else
    let t := t - (2625 # 1000) / d1 in n1 * t * t + (984375 # 1000000).

(** [getClosestPointIndex(target, points)].  [distanceTo] is the method of
    the vector class of the rendering library and is a parameter here; the
    initial [minDistance = Infinity] is [None].  The result is [-1] when no
    point was closer than infinity. *)
Section ClosestPoint.

Context {Point : Type} (distanceTo : Point -> Point -> Q).

(** The loop from index [i] on, with the best distance and index so far. *)
Fixpoint closest_from (target : Point) (points : list Point) (i : Z)
    (minDistance : option Q) (closestIndex : Z) : Z :=
  match points with
  | [] => closestIndex
  | p :: rest =>
      let dist := distanceTo target p in
      let closer :=
        match minDistance with
        | None => true
        | Some m => if Qlt_le_dec dist m then true else false
        end in
      if closer then closest_from target rest (i + 1) (Some dist) i
      else closest_from target rest (i + 1) minDistance closestIndex
  end.

Definition getClosestPointIndex (target : Point) (points : list Point) : Z :=
  closest_from target points 0 None (-1).

End ClosestPoint.

(** The index [k] holds a point of [l] that is at least as close to the
    target as every point of [l] and strictly closer than every earlier
    one. *)
Definition first_closest {Point : Type} (distanceTo : Point -> Point -> Q)
    (target : Point) (l : list Point) (k : nat) : Prop :=
  exists p, l !! k = Some p /\
    (forall j q, l !! j = Some q -> distanceTo target p <= distanceTo target q) /\
    (forall j q, (j < k)%nat -> l !! j = Some q ->
       distanceTo target p < distanceTo target q).

End MathMore.

(** ** More of the camera system (camera.js) and the camera shake of
    transition.js *)
Module CameraAnimations.
Import CameraSystem.

(** [cancelTransition()] on a camera system whose active transition, if
    there is one, was made by [transitionToSection]: that object has a
    [timeline] and an [update] but no [cancel], so nothing is called on it
    and its timeline is not killed. *)
Definition cancelTransition (cam : Camera) : Camera :=
  {| camera_position := camera_position cam; camera_fov := camera_fov cam;
     controls := with_enabled (negb (isLocked cam)) (controls cam);
     currentState := currentState cam;
     activeTransition := None;
     currentSection := currentSection cam; isLocked := isLocked cam;
     console := console cam |}.

(** The object made by [shake(intensity = 0.2, duration = 0.5)]: the
    variables its [update] closes over.  Times are the readings of
    [Date.now()], in milliseconds.  The shake is modelled on the camera
    position alone; that the object also becomes the active transition is
    not represented. *)
Record Shake : Type := {
  originalPosition : Vector3;
  startTime : Q;
  endTime : Q;
  shake_intensity : Q
}.

Definition shake (intensity duration : option Q) (now : Q)
    (position : Vector3) : Shake :=
  {| originalPosition := position;
     startTime := now;
     endTime := now + default (5 # 10) duration * 1000;
     shake_intensity := default (2 # 10) intensity |}.

(** [shakeAnimation.update()], given the reading of the clock and the three
    values of [Math.random()]: whether the animation is complete, and the
    camera position.  The quotient is taken only when [now < endTime]; the
    result is [None] when its divisor is zero, where the code computes with
    an infinite value. *)
Definition shake_update (s : Shake) (now : Q) (random : Q * Q * Q)
    : option (bool * Vector3) :=
  if Qle_bool (endTime s) now then Some (true, originalPosition s)
  else if is_zero (endTime s - startTime s) then None
  else
    let progress := (now - startTime s) / (endTime s - startTime s) in
    let currentIntensity := shake_intensity s * (1 - progress) in
    let '(rx, ry, rz) := random in
    Some (false,
          vec (x (originalPosition s) + (rx * 2 - 1) * currentIntensity)
              (y (originalPosition s) + (ry * 2 - 1) * currentIntensity)
              (z (originalPosition s) + (rz * 2 - 1) * currentIntensity)).

(** [createCameraShake(camera, options)] of transition.js: the settings
    and the variables of the closure. *)
Record ShakeSettings : Type := {
  sh_duration : Q;
  sh_strength : Q;
  sh_decay : bool;
  sh_frequency : Q
}.

Definition default_shake_settings : ShakeSettings :=
  {| sh_duration := 5 # 10; sh_strength := 3 # 10; sh_decay := true;
     sh_frequency := 20 |}.

Record CameraShake : Type := {
  cs_settings : ShakeSettings;
  cs_original : Vector3;
  cs_time : Q
}.

Definition createCameraShake (settings : ShakeSettings) (position : Vector3)
    : CameraShake :=
  {| cs_settings := settings; cs_original := position; cs_time := 0 |}.

(** Its [update(delta)]: the new closure state, whether the shake is
    complete, and the camera position.  [None] when [shakeDuration] is
    zero, where [time / shakeDuration] is not a finite number. *)
Definition camera_shake_update (s : CameraShake) (delta : Q)
    (random : Q * Q * Q) : option (CameraShake * bool * Vector3) :=
  let time := cs_time s + delta in
  let shakeDuration := sh_duration (cs_settings s) in
  if is_zero shakeDuration then None
  else
    let ratio := time / shakeDuration in
    let progress := if Qlt_le_dec 1 ratio then 1 else ratio in
    let intensity :=
      if sh_decay (cs_settings s)
      then sh_strength (cs_settings s) * (1 - progress)
      else sh_strength (cs_settings s) in
    let '(rx, ry, rz) := random in
    let offsetX := (rx * 2 - 1) * intensity in
    let offsetY := (ry * 2 - 1) * intensity in
    let offsetZ := (rz * 2 - 1) * intensity * (5 # 10) in
    let s' :=
      {| cs_settings := cs_settings s; cs_original := cs_original s;
         cs_time := time |} in
    if Qle_bool 1 progress then Some (s', true, cs_original s)
    else
      Some (s', false,
            vec (x (cs_original s) + offsetX) (y (cs_original s) + offsetY)
                (z (cs_original s) + offsetZ)).

(** [reset()] of the shake controller. *)
Definition camera_shake_reset (s : CameraShake) : Vector3 := cs_original s.

(** Two positions differ by at most [d] on every axis. *)
Definition within (d : Q) (p q : Vector3) : Prop :=
  Qabs (x p - x q) <= d /\ Qabs (y p - y q) <= d /\ Qabs (z p - z q) <= d.

End CameraAnimations.

(** ** The pointer handlers of the input controls (controls.js)

    The mouse, click and touch handlers, around the state of
    [InputControls].  The ray cast of [handleSectionSelection] and the walk
    up the parents of the object it hits are the rendering library's; their
    outcome, the first truthy [userData.section] found, is an argument
    ([None] when nothing is hit or no ancestor names a section).
    [handleHoverInteraction] acts on the hovered scene objects only. *)
Module Pointer.
Import InputControls.

(** [input] with the fields the pointer handlers add, and the three
    settings they read. *)
Record Input : Type := {
  controls : Controls;
  mouseDragging : bool;
  touchDragging : bool;
  previousMousePosition : Q * Q;
  touchStartPosition : Q * Q;
  lastClickTime : Q;
  lastTap : Q * Q * Q;
  clickDebounceTime : Q;
  touchSensitivity : Q;
  doubleTapTime : Q
}.

Definition createInput (c : Controls) : Input := {|
  controls := c;
  mouseDragging := false;
  touchDragging := false;
  previousMousePosition := (0, 0);
  touchStartPosition := (0, 0);
  lastClickTime := 0;
  lastTap := (0, 0, 0);
  clickDebounceTime := 300;
  touchSensitivity := 15 # 10;
  doubleTapTime := 300
|}.

Definition set_mouseDown (b : bool) (c : Controls) : Controls :=
  {| settings := settings c; keys := keys c;
     mouseDown := b; touchDown := touchDown c;
     rotationVelocity := rotationVelocity c;
     isTransitioning := isTransitioning c;
     activeSection := activeSection c; camera := camera c;
     carousel := carousel c; console := console c |}.

Definition set_touchDown (b : bool) (c : Controls) : Controls :=
  {| settings := settings c; keys := keys c;
     mouseDown := mouseDown c; touchDown := b;
     rotationVelocity := rotationVelocity c;
     isTransitioning := isTransitioning c;
     activeSection := activeSection c; camera := camera c;
     carousel := carousel c; console := console c |}.

Definition with_controls (c : Controls) (i : Input) : Input :=
  {| controls := c; mouseDragging := mouseDragging i;
     touchDragging := touchDragging i;
     previousMousePosition := previousMousePosition i;
     touchStartPosition := touchStartPosition i;
     lastClickTime := lastClickTime i; lastTap := lastTap i;
     clickDebounceTime := clickDebounceTime i;
     touchSensitivity := touchSensitivity i;
     doubleTapTime := doubleTapTime i |}.

(** [onMouseDown(event)] at [clientX], [clientY]. *)
Definition onMouseDown (clientX clientY : Q) (i : Input) : Input :=
  {| controls := set_mouseDown true (controls i);
     mouseDragging := false;
     touchDragging := touchDragging i;
     previousMousePosition := (clientX, clientY);
     touchStartPosition := touchStartPosition i;
     lastClickTime := lastClickTime i; lastTap := lastTap i;
     clickDebounceTime := clickDebounceTime i;
     touchSensitivity := touchSensitivity i;
     doubleTapTime := doubleTapTime i |}.

(** The assignment of [input.rotationVelocity] followed by
    [carousel.rotate(input.rotationVelocity)]. *)
Definition spin (velocity : Q) (c : Controls) : Controls :=
  let c := set_rotationVelocity (Num velocity) c in
  set_carousel (Carousel.rotate (rotationVelocity c) (carousel c)) c.

(** [onMouseMove(event)] *)
Definition onMouseMove (clientX clientY : Q) (i : Input) : Input :=
  let c := controls i in
  if mouseDown c && enableRotation (settings c) && negb (isTransitioning c)
  then
    let deltaX := clientX - fst (previousMousePosition i) in
    {| controls :=
         spin (deltaX * (1 # 100) * rotationSpeed (settings c)) c;
       mouseDragging := true;
       touchDragging := touchDragging i;
       previousMousePosition := (clientX, clientY);
       touchStartPosition := touchStartPosition i;
       lastClickTime := lastClickTime i; lastTap := lastTap i;
       clickDebounceTime := clickDebounceTime i;
       touchSensitivity := touchSensitivity i;
       doubleTapTime := doubleTapTime i |}
  else i.

(** [onMouseUp(event)] *)
Definition onMouseUp (i : Input) : Input :=
  with_controls (set_mouseDown false (controls i)) i.

(** [handleSectionSelection()], for the section the ray cast found.  A
    call of [selectSection] that throws leaves the handler at that
    point. *)
Definition handleSectionSelection (hit : option string) (i : Input) : Input :=
  if isTransitioning (controls i) then i
  else
    match hit with
    | Some sectionName =>
        if truthy hit
        then with_controls (snd (selectSection sectionName (controls i))) i
        else i
    | None => i
    end.

(** [onClick(event)], with the reading of [Date.now()]. *)
Definition onClick (currentTime : Q) (hit : option string) (i : Input)
    : Input :=
  if Qlt_le_dec (currentTime - lastClickTime i) (clickDebounceTime i) then i
  else
    let i :=
      {| controls := controls i; mouseDragging := mouseDragging i;
         touchDragging := touchDragging i;
         previousMousePosition := previousMousePosition i;
         touchStartPosition := touchStartPosition i;
         lastClickTime := currentTime; lastTap := lastTap i;
         clickDebounceTime := clickDebounceTime i;
         touchSensitivity := touchSensitivity i;
         doubleTapTime := doubleTapTime i |} in
    if mouseDragging i then
      {| controls := controls i; mouseDragging := false;
         touchDragging := touchDragging i;
         previousMousePosition := previousMousePosition i;
         touchStartPosition := touchStartPosition i;
         lastClickTime := lastClickTime i; lastTap := lastTap i;
         clickDebounceTime := clickDebounceTime i;
         touchSensitivity := touchSensitivity i;
         doubleTapTime := doubleTapTime i |}
    else handleSectionSelection hit i.

(** [onTouchStart(event)] with one touch. *)
Definition onTouchStart (clientX clientY currentTime : Q) (i : Input)
    : Input :=
  let '(tapX, tapY, tapTime) := lastTap i in
  let c := set_touchDown true (controls i) in
  let c :=
    if Qlt_le_dec (currentTime - tapTime) (doubleTapTime i) then
      if Qlt_le_dec (Qabs (clientX - tapX)) 30 then
        if Qlt_le_dec (Qabs (clientY - tapY)) 30 then resetToOverview c
        else c
      else c
    else c in
  {| controls := c; mouseDragging := mouseDragging i;
     touchDragging := false;
     previousMousePosition := (clientX, clientY);
     touchStartPosition := (clientX, clientY);
     lastClickTime := lastClickTime i;
     lastTap := (clientX, clientY, currentTime);
     clickDebounceTime := clickDebounceTime i;
     touchSensitivity := touchSensitivity i;
     doubleTapTime := doubleTapTime i |}.

(** [onTouchMove(event)] with one touch. *)
Definition onTouchMove (clientX clientY : Q) (i : Input) : Input :=
  let c := controls i in
  if touchDown c && enableRotation (settings c) && negb (isTransitioning c)
  then
    let deltaX := clientX - fst (previousMousePosition i) in
    {| controls :=
         spin (deltaX * (1 # 100) * rotationSpeed (settings c)
               * touchSensitivity i) c;
       mouseDragging := mouseDragging i;
       touchDragging := true;
       previousMousePosition := (clientX, clientY);
       touchStartPosition := touchStartPosition i;
       lastClickTime := lastClickTime i; lastTap := lastTap i;
       clickDebounceTime := clickDebounceTime i;
       touchSensitivity := touchSensitivity i;
       doubleTapTime := doubleTapTime i |}
  else i.

(** [onTouchEnd(event)] *)
Definition onTouchEnd (hit : option string) (i : Input) : Input :=
  let i := with_controls (set_touchDown false (controls i)) i in
  let i := if negb (touchDragging i) then handleSectionSelection hit i
           else i in
  {| controls := controls i; mouseDragging := mouseDragging i;
     touchDragging := false;
     previousMousePosition := previousMousePosition i;
     touchStartPosition := touchStartPosition i;
     lastClickTime := lastClickTime i; lastTap := lastTap i;
     clickDebounceTime := clickDebounceTime i;
     touchSensitivity := touchSensitivity i;
     doubleTapTime := doubleTapTime i |}.

(** A drag of the mouse: the button goes down at the first position and
    the pointer moves through the others. *)
Definition drag (start : Q * Q) (moves : list (Q * Q)) (i : Input) : Input :=
  fold_left (fun acc p => onMouseMove (fst p) (snd p) acc) moves
    (onMouseDown (fst start) (snd start) i).

(** The horizontal position the pointer is at after the moves. *)
Definition last_x (start : Q * Q) (moves : list (Q * Q)) : Q :=
  fst (default start (last moves)).

(** [n] frames of the controls' [update(deltaTime)]. *)
Definition frames (deltaTime : Q) (n : nat) (c : Controls) : Controls :=
  Nat.iter n (update deltaTime) c.

(** The factor by which [n] frames of damping shrink the velocity. *)
Fixpoint power (d : Q) (n : nat) : Q :=
  match n with
  | O => 1
  | S n => d * power d n
  end.

(** The state in which a mouse move drags the carousel. *)
Definition draggable (i : Input) : Prop :=
  mouseDown (controls i) = true /\
  enableRotation (settings (controls i)) = true /\
  isTransitioning (controls i) = false /\
  Carousel.isLocked (carousel (controls i)) = false.

(** The state in which [update] applies nothing but momentum: no
    transition, no button or finger down, no auto-rotation (switched off,
    or a section is active), and a carousel that is not locked. *)
Definition coasting (c : Controls) : Prop :=
  isTransitioning c = false /\
  mouseDown c = false /\ touchDown c = false /\
  (autoRotate (settings c) = false \/ truthy (activeSection c) = true) /\
  Carousel.isLocked (carousel c) = false.

End Pointer.

(** ** The event handlers and the animation loop of the application
    controller (app.js) *)
Module AppRun.
Import App.

(** [APP.settings], as far as [animate] reads it. *)
Record Settings : Type := {
  rotationSpeed : Q;
  autoRotate : bool
}.

Definition settings : Settings :=
  {| rotationSpeed := 1 # 100; autoRotate := true |}.

(** [onKeyDown(event)], by [event.key]. *)
Definition onKeyDown (key : string) (app : APP) : APP :=
  let app :=
    if String.eqb key "Escape" && InputControls.truthy (activeSection app)
    then snd (returnToOverview app)
    else app in
  if String.eqb key "ArrowLeft" then
    snd (rotateCarouselTo
           (jadd (carouselRotation app) (Num (Math_PI / 2))) app)
  else if String.eqb key "ArrowRight" then
    snd (rotateCarouselTo
           (jsub (carouselRotation app) (Num (Math_PI / 2))) app)
  else app.

(** [onCanvasClick(event)]; [hit] is the [userData.section] of the first
    intersected object that has one. *)
Definition onCanvasClick (hit : option string) (app : APP) : APP :=
  if isTransitioning app || isLoading app then app
  else
    match hit with
    | Some sectionName => snd (selectSection sectionName app)
    | None => app
    end.

(** The part of [animate()] that acts on the state: the auto-rotation. *)
Definition animate (s : Settings) (delta : Q) (app : APP) : APP :=
  match carousel app with
  | Some rotation_y =>
      if negb (InputControls.truthy (activeSection app))
         && negb (isTransitioning app) && autoRotate s
      then
        let rotation_y := jadd rotation_y (Num (rotationSpeed s * delta)) in
        {| isLoading := isLoading app;
           isTransitioning := isTransitioning app;
           activeSection := activeSection app;
           carouselRotation := rotation_y;
           targetRotation := targetRotation app;
           carousel := Some rotation_y;
           camera_position := camera_position app;
           controls_enabled := controls_enabled app;
           controls_target := controls_target app;
           controls_minDistance := controls_minDistance app;
           controls_maxDistance := controls_maxDistance app;
           infoPanel := infoPanel app;
           animations := animations app;
           console := console app |}
      else app
  | None => app
  end.

(** What happens to the application: events of the page, frames, calls
    of the exported functions, and the end of an animation that was
    started (the [k]-th newest). *)
Inductive Event : Type :=
| KeyDown (key : string)
| CanvasClick (hit : option string)
| Frame (delta : Q)
| CallSelectSection (sectionName : string)
| CallReturnToOverview
| CallRotateCarouselTo (targetAngle : number)
| AnimationEnds (k : nat).

Definition handle (e : Event) (app : APP) : APP :=
  match e with
  | KeyDown key => onKeyDown key app
  | CanvasClick hit => onCanvasClick hit app
  | Frame delta => animate settings delta app
  | CallSelectSection sectionName => snd (selectSection sectionName app)
  | CallReturnToOverview => snd (returnToOverview app)
  | CallRotateCarouselTo targetAngle => snd (rotateCarouselTo targetAngle app)
  | AnimationEnds k =>
      match animations app !! k with
      | Some a => animation_complete a app
      | None => app
      end
  end.

Definition handle_all (events : list Event) (app : APP) : APP :=
  fold_left (fun acc e => handle e acc) events app.

Definition is_animation_end (e : Event) : bool :=
  match e with
  | AnimationEnds _ => true
  | _ => false
  end.

Definition is_rotation (a : Animation) : bool :=
  match a with
  | Rotation _ => true
  | _ => false
  end.

(** What holds of [APP] from [init] on. *)
Definition never_loaded (app : APP) : Prop :=
  isLoading app = true /\ carousel app = None /\
  carouselRotation app = Num 0 /\ targetRotation app = Num 0 /\
  Forall (fun a => is_rotation a = false) (animations app).

End AppRun.

(** ** The asset dictionaries and the event log of the asset manager
    (loader.js) *)
Module AssetStore.
Import AssetManager.

(** [this.textures], [this.models], [this.fonts], [this.svgs] and
    [this.audio], by asset type. *)
Definition dictionary (ty : AssetType) (m : Manager) : gmap string string :=
  match ty with
  | texture => textures m
  | model => models m
  | font => fonts m
  | svg => svgs m
  | audio => audios m
  end.

(** [getTexture(name)], [getModel(name)], [getFont(name)], [getSVG(name)]
    and [getAudio(name)]: the property of an object literal, looked up
    through the prototype chain. *)
Definition getAsset (ty : AssetType) (name : string) (m : Manager)
    : property string :=
  get (dictionary ty m) name.

Definition getTexture := getAsset texture.
Definition getModel := getAsset model.
Definition getFont := getAsset font.
Definition getSVG := getAsset svg.
Definition getAudio := getAsset audio.

(** The five dictionaries together, and the fields no loader answer
    writes. *)
Definition stores (m : Manager) :=
  (textures m, models m, fonts m, svgs m, audios m).

Definition configuration (m : Manager) :=
  (loadingQueue m, totalItems m, onProgressCallback m, onCompleteCallback m,
   onErrorCallback m).

(** Observations on the event list. *)
Definition is_console_error (e : Event) : bool :=
  match e with
  | ConsoleError _ _ _ => true
  | _ => false
  end.

Definition is_error_report (e : Event) : bool :=
  match e with
  | Error _ _ _ => true
  | _ => false
  end.

Definition console_errors (m : Manager) : nat :=
  length (filter is_console_error (events m)).

Definition error_reports (m : Manager) : nat :=
  length (filter is_error_report (events m)).

Definition failures (answers : list (QueueItem * Result)) : nat :=
  length (filter is_failure answers).

(** The number of calls the function given to [setCallbacks] receives when
    a callback value is called, and whether the value is a closure of
    [loadAll], which resolves a promise. *)
Fixpoint user_calls (cb : CompleteCallback) : nat :=
  match cb with
  | NoCallback => 0
  | UserCallback => 1
  | LoadAllCallback originalCompleteCallback =>
      user_calls originalCompleteCallback
  end.

Definition wraps (cb : CompleteCallback) : bool :=
  match cb with
  | LoadAllCallback _ => true
  | _ => false
  end.

(** A promise after a call of its [resolve]. *)
Definition resolved (p : option PromiseState) : option PromiseState :=
  match p with
  | Some Pending => Some Fulfilled
  | settled => settled
  end.

(** An answer that stores an asset under the given type and name. *)
Definition stores_as (ty : AssetType) (name : string)
    (a : QueueItem * Result) : Prop :=
  snd a = Loaded /\ type (fst a) = ty /\ AssetManager.name (fst a) = name.

(** A promise after a call of its [reject]. *)
Definition rejected (error : string) (p : option PromiseState)
    : option PromiseState :=
  match p with
  | Some Pending => Some (Rejected error)
  | settled => settled
  end.

(** Whether the answers of a run take [loadedItems] onto [totalItems]:
    the count is below the total before and not below it after. *)
Definition reaches_total (m : Manager) (answers : list (QueueItem * Result))
    : bool :=
  Nat.ltb (loadedItems m) (totalItems m)
  && Nat.leb (totalItems m) (loadedItems m + length answers).

End AssetStore.

(** ** The effect settings (postprocessing.js)

    Of each pass the model keeps the values the controller methods below
    read or write: the strength of the bloom pass, the [amount] of the
    chromatic aberration pass, the [darkness] of the vignette pass, the
    [glowIntensity] of the neon glow pass, and the [enabled] flag and the
    three uniforms of the depth of field pass.  A pass that was not
    created is [None]. *)
Module PostProcessing.

Record DepthOfField : Type := {
  dof_enabled : bool;
  focus : Q;
  aperture : Q;
  maxblur : Q
}.

Record Passes : Type := {
  bloom : option Q;
  chromaticAberration : option Q;
  vignette : option Q;
  neonGlow : option Q;
  depthOfField : option DepthOfField
}.

(** The entries of a preset that decide these passes. *)
Record Config : Type := {
  bloom_enabled : bool; bloom_strength : Q;
  chromaticAberration_enabled : bool; chromaticAberration_amount : Q;
  vignette_enabled : bool; vignette_darkness : Q;
  neonGlow_enabled : bool; neonGlow_intensity : Q;
  depthOfField_enabled : bool;
  depthOfField_focus : Q; depthOfField_aperture : Q;
  depthOfField_maxblur : Q
}.

(** [POSTPROCESSING_PRESETS.cosmic] *)
Definition cosmic : Config := {|
  bloom_enabled := true; bloom_strength := 7 # 10;
  chromaticAberration_enabled := true;
  chromaticAberration_amount := 3 # 1000;
  vignette_enabled := true; vignette_darkness := 1;
  neonGlow_enabled := true; neonGlow_intensity := 6 # 10;
  depthOfField_enabled := false;
  depthOfField_focus := 20; depthOfField_aperture := 1 # 10000;
  depthOfField_maxblur := 1 # 100
|}.

(** The passes [createPostProcessing] makes for a configuration; a pass
    is created enabled. *)
Definition createPostProcessing (config : Config) : Passes := {|
  bloom := if bloom_enabled config then Some (bloom_strength config)
           else None;
  chromaticAberration :=
    if chromaticAberration_enabled config
    then Some (chromaticAberration_amount config) else None;
  vignette := if vignette_enabled config then Some (vignette_darkness config)
              else None;
  neonGlow := if neonGlow_enabled config
              then Some (neonGlow_intensity config) else None;
  depthOfField :=
    if depthOfField_enabled config
    then Some {| dof_enabled := true;
                 focus := depthOfField_focus config;
                 aperture := depthOfField_aperture config;
                 maxblur := depthOfField_maxblur config |}
    else None
|}.

(** [setBloomStrength(strength)] *)
Definition setBloomStrength (strength : Q) (p : Passes) : Passes :=
  {| bloom := match bloom p with Some _ => Some strength | None => None end;
     chromaticAberration := chromaticAberration p;
     vignette := vignette p; neonGlow := neonGlow p;
     depthOfField := depthOfField p |}.

(** [setChromaticAberration(amount)] *)
Definition setChromaticAberration (amount : Q) (p : Passes) : Passes :=
  {| bloom := bloom p;
     chromaticAberration :=
       match chromaticAberration p with
       | Some _ => Some amount
       | None => None
       end;
     vignette := vignette p; neonGlow := neonGlow p;
     depthOfField := depthOfField p |}.

(** [setEffectEnabled('depthOfField', enabled)] *)
Definition setDepthOfFieldEnabled (enabled : bool) (p : Passes) : Passes :=
  {| bloom := bloom p; chromaticAberration := chromaticAberration p;
     vignette := vignette p; neonGlow := neonGlow p;
     depthOfField :=
       match depthOfField p with
       | Some d => Some {| dof_enabled := enabled; focus := focus d;
                           aperture := aperture d; maxblur := maxblur d |}
       | None => None
       end |}.

(** [setDepthOfField({ focus, aperture, maxblur })] with all three
    given. *)
Definition setDepthOfField (f a b : Q) (p : Passes) : Passes :=
  {| bloom := bloom p; chromaticAberration := chromaticAberration p;
     vignette := vignette p; neonGlow := neonGlow p;
     depthOfField :=
       match depthOfField p with
       | Some d => Some {| dof_enabled := dof_enabled d; focus := f;
                           aperture := a; maxblur := b |}
       | None => None
       end |}.

(** [optimizeForSection(postProcessingController, sectionName)] *)
Definition optimizeForSection (sectionName : string) (p : Passes) : Passes :=
  if String.eqb sectionName "project-theater" then
    setDepthOfField 15 (2 # 10000) (1 # 100)
      (setDepthOfFieldEnabled true
         (setChromaticAberration (4 # 1000) (setBloomStrength (9 # 10) p)))
  else if String.eqb sectionName "achievement-shelf" then
    setDepthOfField 12 (15 # 100000) (8 # 1000)
      (setDepthOfFieldEnabled true
         (setChromaticAberration (2 # 1000) (setBloomStrength (65 # 100) p)))
  else if String.eqb sectionName "skill-planet" then
    setDepthOfFieldEnabled false
      (setChromaticAberration (3 # 1000) (setBloomStrength 1 p))
  else if String.eqb sectionName "chill-zone" then
    setDepthOfField 18 (1 # 10000) (5 # 1000)
      (setDepthOfFieldEnabled true
         (setChromaticAberration (1 # 1000) (setBloomStrength (5 # 10) p)))
  else
    setDepthOfFieldEnabled false
      (setChromaticAberration (3 # 1000) (setBloomStrength (7 # 10) p)).

(** The effects [transitionEffect] can animate, and its easings (any other
    easing name is linear). *)
Inductive Effect : Type :=
| Bloom | Vignette | ChromaticAberration | NeonGlow.

#[global] Instance Effect_eq_dec : EqDecision Effect.
Proof. solve_decision. Defined.

Definition effect_of (name : string) : option Effect :=
  if String.eqb name "bloom" then Some Bloom
  else if String.eqb name "vignette" then Some Vignette
  else if String.eqb name "chromaticAberration" then Some ChromaticAberration
  else if String.eqb name "neonGlow" then Some NeonGlow
  else None.

Definition value_of (e : Effect) (p : Passes) : option Q :=
  match e with
  | Bloom => bloom p
  | Vignette => vignette p
  | ChromaticAberration => chromaticAberration p
  | NeonGlow => neonGlow p
  end.

(** The assignment to the animated property. *)
Definition set_value (e : Effect) (v : Q) (p : Passes) : Passes :=
  match e with
  | Bloom =>
      {| bloom := Some v; chromaticAberration := chromaticAberration p;
         vignette := vignette p; neonGlow := neonGlow p;
         depthOfField := depthOfField p |}
  | Vignette =>
      {| bloom := bloom p; chromaticAberration := chromaticAberration p;
         vignette := Some v; neonGlow := neonGlow p;
         depthOfField := depthOfField p |}
  | ChromaticAberration =>
      {| bloom := bloom p; chromaticAberration := Some v;
         vignette := vignette p; neonGlow := neonGlow p;
         depthOfField := depthOfField p |}
  | NeonGlow =>
      {| bloom := bloom p; chromaticAberration := chromaticAberration p;
         vignette := vignette p; neonGlow := Some v;
         depthOfField := depthOfField p |}
  end.

(** The object [transitionEffect] returns: what its [update] closes
    over. *)
Record Animation : Type := {
  effect : Effect;
  fromValue : Q;
  toValue : Q;
  startTime : Q;
  endTime : Q;
  easing : string
}.

(** [transitionEffect(name, fromValue, toValue, duration, easing =
    'linear')], called at the time [now]; [None] is [null]. *)
Definition transitionEffect (name : string) (fromValue toValue duration : Q)
    (easing : option string) (now : Q) (p : Passes) : option Animation :=
  match effect_of name with
  | Some e =>
      match value_of e p with
      | Some _ =>
          Some {| effect := e; fromValue := fromValue; toValue := toValue;
                  startTime := now; endTime := now + duration * 1000;
                  easing := default "linear"%string easing |}
      | None => None
      end
  | None => None
  end.

(** The eased progress. *)
Definition eased (easing : string) (progress : Q) : Q :=
  if String.eqb easing "easeIn" then progress * progress
  else if String.eqb easing "easeOut" then
    1 - (1 - progress) * (1 - progress)
  else if String.eqb easing "easeInOut" then
    if Qlt_le_dec progress (5 # 10) then 2 * progress * progress
    else 1 - (- (2) * progress + 2) * (- (2) * progress + 2) / 2
  else progress.

(** [update()] of an effect animation at the time [now]: whether it is
    complete, and the passes.  The quotient is taken only when
    [now < endTime]; the result is [None] when its divisor is zero, where
    the code computes with an infinite value. *)
Definition animation_update (a : Animation) (now : Q) (p : Passes)
    : option (bool * Passes) :=
  if Qle_bool (endTime a) now then Some (true, set_value (effect a) (toValue a) p)
  else if is_zero (endTime a - startTime a) then None
  else
    let progress := (now - startTime a) / (endTime a - startTime a) in
    let easedProgress := eased (easing a) progress in
    let value := fromValue a + (toValue a - fromValue a) * easedProgress in
    Some (false, set_value (effect a) value p).

(** The object [createSectionTransition(controller, fromSection,
    toSection)] returns: its two animations and the target section.  The
    call reads the strength of the bloom pass and the amount of the
    chromatic aberration pass, and throws ([None]) when one of the two
    passes does not exist.  [now1] and [now2] are the readings of the clock
    in the two calls of [transitionEffect]. *)
Record SectionTransition : Type := {
  bloomAnimation : option Animation;
  aberrationAnimation : option Animation;
  toSection : string
}.

Definition createSectionTransition (fromSection toSection : string)
    (now1 now2 : Q) (p : Passes) : option SectionTransition :=
  match bloom p, chromaticAberration p with
  | Some strength, Some amount =>
      Some {| bloomAnimation :=
                transitionEffect "bloom" strength (12 # 10) (6 # 10)
                  (Some "easeOut"%string) now1 p;
              aberrationAnimation :=
                transitionEffect "chromaticAberration" amount (1 # 100)
                  (6 # 10) (Some "easeOut"%string) now2 p;
              toSection := toSection |}
  | _, _ => None
  end.

(** [update()] of a section transition, with the readings of the clock in
    the two animations. *)
Definition section_transition_update (t : SectionTransition) (now1 now2 : Q)
    (p : Passes) : option (bool * Passes) :=
  let step (a : option Animation) (now : Q) (st : option (bool * Passes)) :=
    match st, a with
    | None, _ => None
    | Some (allComplete, p), None => Some (allComplete, p)
    | Some (allComplete, p), Some a =>
        match animation_update a now p with
        | Some (complete, p) => Some (allComplete && complete, p)
        | None => None
        end
    end in
  match step (aberrationAnimation t) now2
          (step (bloomAnimation t) now1 (Some (true, p))) with
  | Some (true, p) => Some (true, optimizeForSection (toSection t) p)
  | Some (false, p) => Some (false, p)
  | None => None
  end.

(** [v] lies between [a] and [b], whichever of the two is larger. *)
Definition between (a b v : Q) : Prop :=
  (a <= v /\ v <= b) \/ (b <= v /\ v <= a).

End PostProcessing.

(** ** The reveal transitions (transition.js) *)
Module Reveal.
Import CameraSystem.

(** [THREE.Euler]: the three angles and the order. *)
Record Euler : Type := {
  euler_x : Q;
  euler_y : Q;
  euler_z : Q;
  order : string
}.

(** [new THREE.Euler(x, y, z)]: the order is the default one. *)
Definition new_Euler (a b c : Q) : Euler :=
  {| euler_x := a; euler_y := b; euler_z := c; order := "XYZ" |}.

Record Material : Type := {
  transparent : bool;
  opacity : Q
}.

(** The properties of a [THREE.Object3D] the reveal reads and writes. *)
Record Object3D : Type := {
  obj_position : Vector3;
  obj_rotation : Euler;
  obj_scale : Vector3;
  visible : bool;
  material : option Material
}.

Record Settings : Type := {
  duration : Q;
  delay : Q;
  from : string;
  distance : Q;
  ease : string;
  rotation : bool;
  rotationAmount : Q;
  scale : bool;
  initialScale : Q
}.

(** The defaults of [createRevealTransition]. *)
Definition default_settings : Settings := {|
  duration := 12 # 10; delay := 0; from := "bottom"; distance := 5;
  ease := "power3.out"; rotation := true; rotationAmount := Math_PI / 4;
  scale := true; initialScale := 5 # 10
|}.

Definition add (a b : Vector3) : Vector3 :=
  vec (x a + x b) (y a + y b) (z a + z b).

Definition set_opacity (o : Q) (m : option Material) : option Material :=
  match m with
  | Some m =>
      if transparent m then Some {| transparent := true; opacity := o |}
      else Some m
  | None => None
  end.

Definition is_transparent (m : option Material) : bool :=
  match m with
  | Some m => transparent m
  | None => false
  end.

(** The object [createRevealTransition] returns: the original properties
    its [cancel] closes over, and which tweens its timeline holds (the
    position tween is always there). *)
Record Transition : Type := {
  originalPosition : Vector3;
  originalRotation : Euler;
  originalScale : Vector3;
  originalVisibility : bool;
  tl_delay : Q;
  rotationTween : bool;
  scaleTween : bool;
  fadeTween : bool
}.

(** [createRevealTransition(object, options)] for the merged settings:
    the returned object, and [object] in its start pose. *)
Definition createRevealTransition (object : Object3D) (settings : Settings)
    : Transition * Object3D :=
  let originalPosition := obj_position object in
  let originalRotation := obj_rotation object in
  let originalScale := obj_scale object in
  let turned (dx dz : Q) : Euler :=
    if rotation settings
    then new_Euler (euler_x originalRotation + dx) (euler_y originalRotation)
                   (euler_z originalRotation + dz)
    else originalRotation in
  let '(startPosition, startRotation, startMaterial) :=
    if String.eqb (from settings) "bottom" then
      (add originalPosition (vec 0 (- distance settings) 0),
       turned (- rotationAmount settings) 0, material object)
    else if String.eqb (from settings) "top" then
      (add originalPosition (vec 0 (distance settings) 0),
       turned (rotationAmount settings) 0, material object)
    else if String.eqb (from settings) "left" then
      (add originalPosition (vec (- distance settings) 0 0),
       turned 0 (- rotationAmount settings), material object)
    else if String.eqb (from settings) "right" then
      (add originalPosition (vec (distance settings) 0 0),
       turned 0 (rotationAmount settings), material object)
    else
      (originalPosition, originalRotation, set_opacity 0 (material object)) in
  ({| originalPosition := originalPosition;
      originalRotation := originalRotation;
      originalScale := originalScale;
      originalVisibility := visible object;
      tl_delay := delay settings;
      rotationTween := rotation settings;
      scaleTween := scale settings;
      fadeTween :=
        String.eqb (from settings) "fade" && is_transparent (material object)
   |},
   {| obj_position := startPosition;
      obj_rotation := startRotation;
      obj_scale :=
        if scale settings
        then vec (x originalScale * initialScale settings)
                 (y originalScale * initialScale settings)
                 (z originalScale * initialScale settings)
        else originalScale;
      visible := true;
      material := startMaterial |}).

(** The timeline of a reveal at its end: every animated property holds its
    end value.  The rotation tween animates the three angles only. *)
Definition reveal_complete (t : Transition) (object : Object3D) : Object3D :=
  {| obj_position := originalPosition t;
     obj_rotation :=
       if rotationTween t
       then {| euler_x := euler_x (originalRotation t);
               euler_y := euler_y (originalRotation t);
               euler_z := euler_z (originalRotation t);
               order := order (obj_rotation object) |}
       else obj_rotation object;
     obj_scale := if scaleTween t then originalScale t else obj_scale object;
     visible := visible object;
     material :=
       if fadeTween t then set_opacity 1 (material object)
       else material object |}.

(** The [cancel] of a reveal. *)
Definition reveal_cancel (t : Transition) (object : Object3D) : Object3D :=
  {| obj_position := originalPosition t;
     obj_rotation := originalRotation t;
     obj_scale := originalScale t;
     visible := originalVisibility t;
     material := set_opacity 1 (material object) |}.

(** [createSequentialReveal(objects, options)]: the settings handed to
    [createRevealTransition] are the merged settings with the delay of the
    object's place in the array. *)
Definition with_delay (d : Q) (s : Settings) : Settings :=
  {| duration := duration s; delay := d; from := from s;
     distance := distance s; ease := ease s; rotation := rotation s;
     rotationAmount := rotationAmount s; scale := scale s;
     initialScale := initialScale s |}.

(** The settings of a sequential reveal called without options, as they
    reach [createRevealTransition]. *)
Definition default_sequential_settings : Settings := {|
  duration := 8 # 10; delay := 0; from := "bottom"; distance := 3;
  ease := "back.out(1.2)"; rotation := true; rotationAmount := Math_PI / 4;
  scale := true; initialScale := 5 # 10
|}.

(** The position, rotation, scale and visibility of an object: the
    properties that belong to the object alone (a material may be shared
    between objects). *)
Definition pose (object : Object3D) : Vector3 * Euler * Vector3 * bool :=
  (obj_position object, obj_rotation object, obj_scale object,
   visible object).

(** The [forEach] of [createSequentialReveal] from the given index on.
    An array handed to [createSequentialReveal] holds references: the same
    object may occur in it more than once, and every reveal of it reads and
    writes that one object.  So the objects are kept in a scene, a map from
    their identities, and the array is a list of identities; each reveal is
    created on the object as the reveals before it have left it.  A
    reference to no object makes [createRevealTransition] throw at
    [object.position], which is [None]. *)
Fixpoint reveal_each (index : Q) (staggerDelay : Q) (settings : Settings)
    (objects : list nat) (scene : gmap nat Object3D)
    : option (list (nat * Transition) * gmap nat Object3D) :=
  match objects with
  | [] => Some ([], scene)
  | obj :: rest =>
      match scene !! obj with
      | None => None
      | Some object =>
          let '(reveal, started) :=
            createRevealTransition object
              (with_delay (index * staggerDelay) settings) in
          match reveal_each (index + 1) staggerDelay settings rest
                  (<[obj := started]> scene) with
          | Some (reveals, scene') => Some ((obj, reveal) :: reveals, scene')
          | None => None
          end
      end
  end.

(** [createSequentialReveal(objects, options)]: the reveals in the order of
    the array, each with the object it was created on, and the scene with
    the objects in their start poses. *)
Definition createSequentialReveal (objects : list nat)
    (staggerDelay : Q) (settings : Settings) (scene : gmap nat Object3D)
    : option (list (nat * Transition) * gmap nat Object3D) :=
  reveal_each 0 staggerDelay settings objects scene.

(** One reveal of the master timeline at its end. *)
Definition complete_in (scene : gmap nat Object3D) (r : nat * Transition)
    : gmap nat Object3D :=
  alter (reveal_complete (snd r)) (fst r) scene.

(** The master timeline at its end: every reveal has run to its end.  The
    reveals have the same duration and, for a [staggerDelay] that is not
    negative, start in the order of the array; where two of them animate
    the same object, the later one writes its end values last. *)
Definition sequential_complete (reveals : list (nat * Transition))
    (scene : gmap nat Object3D) : gmap nat Object3D :=
  fold_left complete_in reveals scene.

(** The [cancel] of a sequential reveal kills the master timeline and
    resets nothing. *)
Definition sequential_cancel (reveals : list (nat * Transition))
    (scene : gmap nat Object3D) : gmap nat Object3D :=
  scene.

(** The names of the four directions. *)
Definition is_direction (from : string) : bool :=
  String.eqb from "bottom" || String.eqb from "top"
  || String.eqb from "left" || String.eqb from "right".

End Reveal.

(** * Properties

    ** Numbers *)
Module NumberFacts.

Lemma Math_PI_pos : 0 < Math_PI.
Proof. reflexivity. Qed.

Lemma trunc_nonneg (q : Q) :
  0 <= q -> inject_Z (trunc q) <= q /\ q < inject_Z (trunc q) + 1.
Proof.
  destruct q as [n d]. unfold trunc, Qle, Qlt, inject_Z. simpl.
  intros Hn.
  pose proof (Z.quot_rem' n (Z.pos d)) as E.
  pose proof (Z.rem_bound_pos n (Z.pos d)) as B.
  split; nia.
Qed.

Lemma trunc_nonpos (q : Q) :
  q <= 0 -> q <= inject_Z (trunc q) /\ inject_Z (trunc q) - 1 < q.
Proof.
  destruct q as [n d]. unfold trunc, Qle, Qlt, inject_Z. simpl.
  intros Hn.
  pose proof (Z.quot_rem' n (Z.pos d)) as E.
  assert (B : (- Z.pos d < Z.rem n (Z.pos d) <= 0)%Z).
  { pose proof (Z.rem_bound_pos (- n) (Z.pos d)) as B.
    rewrite Z.rem_opp_l in B by lia. lia. }
  split; nia.
Qed.

Lemma trunc_small (q : Q) : -1 < q -> q < 1 -> trunc q = 0%Z.
Proof.
  destruct q as [n d]. unfold trunc, Qlt. simpl. intros Hl Hu.
  apply Z.quot_small_iff; lia.
Qed.

(** [a % b] differs from [a] by a whole multiple of [b]. *)
Lemma rem_congruent (a b : Q) : exists k : Z, rem a b == a + b * inject_Z k.
Proof.
  exists (- trunc (a / b))%Z. unfold rem. rewrite inject_Z_opp. ring.
Qed.

Lemma div_mul_cancel (a b : Q) : 0 < b -> a / b * b == a.
Proof. intros Hb. field. lra. Qed.

(** [a % b] for a positive divisor: the sign of the dividend, and less than
    the divisor in absolute value. *)
Lemma rem_nonneg (a b : Q) : 0 < b -> 0 <= a -> 0 <= rem a b /\ rem a b < b.
Proof.
  intros Hb Ha. unfold rem.
  pose proof (div_mul_cancel a b Hb) as E.
  assert (Hq : 0 <= a / b).
  { apply Qle_shift_div_l; lra. }
  destruct (trunc_nonneg _ Hq) as [H1 H2].
  set (t := a / b) in *. set (k := inject_Z (trunc t)) in *.
  split; nra.
Qed.

Lemma rem_nonpos (a b : Q) : 0 < b -> a <= 0 -> - b < rem a b /\ rem a b <= 0.
Proof.
  intros Hb Ha. unfold rem.
  pose proof (div_mul_cancel a b Hb) as E.
  assert (Hq : a / b <= 0).
  { apply Qle_shift_div_r; lra. }
  destruct (trunc_nonpos _ Hq) as [H1 H2].
  set (t := a / b) in *. set (k := inject_Z (trunc t)) in *.
  split; nra.
Qed.

Lemma rem_abs_lt (a b : Q) : 0 < b -> - b < rem a b /\ rem a b < b.
Proof.
  intros Hb. destruct (Qlt_le_dec a 0).
  - destruct (rem_nonpos a b); lra.
  - destruct (rem_nonneg a b); lra.
Qed.

Lemma rem_small (a b : Q) : 0 < b -> - b < a -> a < b -> rem a b == a.
Proof.
  intros Hb Hl Hu. unfold rem.
  rewrite trunc_small.
  - change (inject_Z 0) with 0. ring.
  - apply Qlt_shift_div_l; lra.
  - apply Qlt_shift_div_r; lra.
Qed.

Lemma trunc_one (q : Q) : 1 <= q -> q < 2 -> trunc q = 1%Z.
Proof.
  intros Hl Hu.
  destruct (trunc_nonneg q) as [H1 H2]; [lra |].
  assert (A : inject_Z (trunc q) < 2) by lra.
  assert (B : 0 < inject_Z (trunc q)) by lra.
  unfold Qlt, inject_Z in A, B. simpl in A, B. lia.
Qed.

(** One subtraction of the divisor when the dividend lies between one and
    two times the divisor. *)
Lemma rem_once (a b : Q) : 0 < b -> b <= a -> a < b * 2 -> rem a b == a - b.
Proof.
  intros Hb Hl Hu. unfold rem. rewrite trunc_one.
  - change (inject_Z 1) with 1. ring.
  - apply Qle_shift_div_l; lra.
  - apply Qlt_shift_div_r; lra.
Qed.

Lemma two_pi_pos : 0 < Math_PI * 2.
Proof. reflexivity. Qed.

Lemma eqn_Num (a b : Q) : Num a =n= Num b <-> a == b.
Proof. reflexivity. Qed.

End NumberFacts.

(** ** The carousel *)
Module CarouselSpec.
Import NumberFacts Carousel.

Lemma rotateTo_accepted (c : Carousel) (r t : Q) (duration : option Q) :
  isLocked c = false -> isAnimating c = false -> rotation c = Num r ->
  let tw := {| tween_rotation := Num (chosen_target r t);
               tween_duration := default (rotationDuration (settings c)) duration;
               tween_ease := rotationEase (settings c) |} in
  rotateTo (Num t) duration c = (Some tw, start_tween tw c).
Proof.
  intros HL HA HR. unfold rotateTo. rewrite HL, HA, HR. simpl.
  unfold chosen_target.
  destruct (Qlt_le_dec Math_PI _); [destruct (Qlt_le_dec 0 _) |]; reflexivity.
Qed.

Lemma rotateTo_rejected (c : Carousel) (targetAngle : number)
    (duration : option Q) :
  isLocked c = true \/ isAnimating c = true ->
  rotateTo targetAngle duration c = (None, c).
Proof.
  intros [H | H]; unfold rotateTo; rewrite H; [reflexivity |].
  rewrite orb_true_r. reflexivity.
Qed.

(** The chosen target is the requested angle up to whole turns. *)
Lemma chosen_target_congruent (r t : Q) :
  exists k : Z, chosen_target r t == t + Math_PI * 2 * inject_Z k.
Proof.
  unfold chosen_target.
  destruct (rem_congruent t (Math_PI * 2)) as [k Hk].
  destruct (Qlt_le_dec Math_PI _); [destruct (Qlt_le_dec 0 _) |].
  - exists (k - 1)%Z. rewrite Hk. unfold Z.sub.
    rewrite inject_Z_plus, inject_Z_opp. change (inject_Z 1) with 1. ring.
  - exists (k + 1)%Z. rewrite Hk. rewrite inject_Z_plus.
    change (inject_Z 1) with 1. ring.
  - exists k. exact Hk.
Qed.

(** While rotation and request both lie within one turn of zero and the
    request is at most half a turn away, the request itself is chosen. *)
Lemma chosen_target_near (r t : Q) :
  - (Math_PI * 2) < r -> r < Math_PI * 2 ->
  - (Math_PI * 2) < t -> t < Math_PI * 2 ->
  Qabs (t - r) <= Math_PI ->
  chosen_target r t == t.
Proof.
  intros Hr1 Hr2 Ht1 Ht2 Hd. unfold chosen_target.
  pose proof two_pi_pos as Hp.
  pose proof (rem_small r _ Hp Hr1 Hr2) as Er.
  pose proof (rem_small t _ Hp Ht1 Ht2) as Et.
  destruct (Qlt_le_dec Math_PI _) as [Hgt | Hle].
  - exfalso. rewrite Er, Et in Hgt. lra.
  - exact Et.
Qed.

(** A request for a quarter turn more than a rotation that lies within one
    turn of zero is chosen as it is. *)
Lemma chosen_target_quarter (r : Q) :
  - (Math_PI * 2) < r -> r < Math_PI * 2 ->
  chosen_target r (r + Math_PI / 2) == r + Math_PI / 2.
Proof.
  intros H1 H2. pose proof Math_PI_pos as Hp. pose proof two_pi_pos as Hp2.
  change (Math_PI / 2) with (Math_PI * (1 # 2)).
  destruct (Qlt_le_dec (r + Math_PI * (1 # 2)) (Math_PI * 2)) as [Hlt | Hge].
  - apply chosen_target_near; try lra.
    apply Qabs_Qle_condition. lra.
  - unfold chosen_target.
    pose proof (rem_small r _ Hp2 H1 H2) as Er.
    assert (Et : rem (r + Math_PI * (1 # 2)) (Math_PI * 2)
                 == r + Math_PI * (1 # 2) - Math_PI * 2).
    { apply rem_once; lra. }
    destruct (Qlt_le_dec Math_PI _) as [Hfar | Hnear].
    + destruct (Qlt_le_dec 0 _) as [Hpos | Hneg].
      * exfalso. rewrite Er, Et in Hpos. lra.
      * rewrite Et. ring.
    + exfalso. rewrite Er, Et in Hnear.
      apply Qabs_Qle_condition in Hnear. lra.
Qed.

(** The sibling helper [shortestArc] of math.js does stay within half a
    turn, for every pair of finite angles. *)
Lemma shortestArc_within_half_turn (s e : Q) :
  exists d : Q,
    MathUtils.shortestArc (Num s) (Num e) = Num d /\ Qabs d <= Math_PI.
Proof.
  unfold MathUtils.shortestArc, jlt. simpl.
  pose proof (rem_abs_lt (e - s) _ two_pi_pos) as [Hl Hu].
  pose proof Math_PI_pos as Hp.
  set (d := rem (e - s) (Math_PI * 2)) in *.
  destruct (Qlt_le_dec d (- Math_PI)) as [H1 | H1].
  - eexists. split; [reflexivity |]. apply Qabs_Qle_condition. lra.
  - destruct (Qlt_le_dec Math_PI d) as [H2 | H2].
    + eexists. split; [reflexivity |]. apply Qabs_Qle_condition. lra.
    + eexists. split; [reflexivity |]. apply Qabs_Qle_condition. lra.
Qed.

(** C1 (code defect).  The shortest-arc rule asks that the target an
    accepted [rotateTo] animates toward be within pi of the current
    rotation.  After two full turns of accumulated rotation (as drag or
    auto-rotation produce through [rotate]) a request for angle 0 is
    accepted and animates toward 0: the distance to the current rotation
    is 4 pi, not at most pi.  And within a single turn, from rotation
    -19/10 pi a request for 19/10 pi is answered with a target 18/10 pi
    away, because only one whole turn is ever subtracted. *)
Theorem rotateTo_misses_shortest_arc :
  (let c := rotate (Num (4 * Math_PI)) createCarousel in
   isLocked c = false /\ isAnimating c = false /\
   exists (r t : Q) (tw : Tween) (c' : Carousel),
     rotation c = Num r /\ r == 4 * Math_PI /\
     rotateTo (Num 0) None c = (Some tw, c') /\
     tween_rotation tw = Num t /\ targetRotation c' = Num t /\
     t == 0 /\ ~ Qabs (t - r) <= Math_PI) /\
  (let c := rotate (Num (- (19 # 10) * Math_PI)) createCarousel in
   isLocked c = false /\ isAnimating c = false /\
   exists (r t : Q) (tw : Tween) (c' : Carousel),
     rotation c = Num r /\ r == - (19 # 10) * Math_PI /\
     rem r (Math_PI * 2) == r /\
     rotateTo (Num ((19 # 10) * Math_PI)) None c = (Some tw, c') /\
     tween_rotation tw = Num t /\ targetRotation c' = Num t /\
     t == - (1 # 10) * Math_PI /\ ~ Qabs (t - r) <= Math_PI).
Proof.
  split.
  - cbn zeta. split; [reflexivity |]. split; [reflexivity |].
    eexists _, _, _, _.
    split; [reflexivity |]. split; [reflexivity |].
    split; [vm_compute; reflexivity |].
    split; [reflexivity |]. split; [reflexivity |].
    split; [reflexivity |].
    apply Qlt_not_le. reflexivity.
  - cbn zeta. split; [reflexivity |]. split; [reflexivity |].
    eexists _, _, _, _.
    split; [reflexivity |]. split; [reflexivity |].
    split; [reflexivity |].
    split; [vm_compute; reflexivity |].
    split; [reflexivity |]. split; [reflexivity |].
    split; [reflexivity |].
    apply Qlt_not_le. reflexivity.
Qed.

(** C2.  While the carousel is locked or animating, [rotateTo] returns
    null and leaves the whole carousel state as it was; [rotateToSection]
    returns null, creates no tween, and leaves every field of the state
    as it was, the console apart (an unknown key is still warned about). *)
Theorem rotation_requests_ignored_while_busy (c : Carousel)
    (targetAngle : number) (sectionKey : string) (duration : option Q) :
  isLocked c = true \/ isAnimating c = true ->
  rotateTo targetAngle duration c = (None, c) /\
  fst (rotateToSection sectionKey duration c) = None /\
  let c' := snd (rotateToSection sectionKey duration c) in
  rotation c' = rotation c /\ targetRotation c' = targetRotation c /\
  isAnimating c' = isAnimating c /\ isLocked c' = isLocked c /\
  rotationVelocity c' = rotationVelocity c /\
  group_rotation_y c' = group_rotation_y c /\
  activeSection c' = activeSection c /\ tweens c' = tweens c.
Proof.
  intros H. split; [apply rotateTo_rejected; exact H |].
  unfold rotateToSection.
  destruct (get SECTION_DEFINITIONS sectionKey);
    try rewrite (rotateTo_rejected _ _ _ H); simpl; repeat split; reflexivity.
Qed.

Lemma rotation_requests_ignored_while_busy_witness :
  let c := set_isAnimating true createCarousel in
  rotateTo (Num 1) None c = (None, c) /\
  fst (rotateToSection "skill-planet" None c) = None.
Proof.
  intros c.
  destruct (rotation_requests_ignored_while_busy c (Num 1) "skill-planet" None)
    as (H1 & H2 & _).
  - right. reflexivity.
  - split; [exact H1 | exact H2].
Defined.

(** C7.  For a key of the section table, [rotateToSection] is [rotateTo]
    applied to the negated angle of the section; from the initial state
    (rotation 0, nothing active) selecting skill-planet, whose angle is pi,
    is accepted with target angle minus pi. *)
Theorem rotateToSection_negates_section_angle :
  (forall (sectionName : string) (def : SectionDef) (duration : option Q)
          (c : Carousel),
      SECTION_DEFINITIONS !! sectionName = Some def ->
      rotateToSection sectionName duration c
      = rotateTo (jneg (angle def))
          (Some (default (rotationDuration (settings c)) duration)) c) /\
  (SECTION_DEFINITIONS !! "skill-planet"%string
   = Some {| name := "Skill Planet"; color := 0x99ffee;
             position := (10, 0, 0); angle := Num Math_PI;
             interactive := true |}) /\
  (exists (tw : Tween) (c' : Carousel),
      rotateToSection "skill-planet" None createCarousel = (Some tw, c') /\
      tween_rotation tw =n= Num (- Math_PI) /\
      targetRotation c' =n= Num (- Math_PI) /\
      isAnimating c' = true).
Proof.
  split; [| split].
  - intros sectionName def duration c H. unfold rotateToSection, get. rewrite H.
    reflexivity.
  - vm_compute. reflexivity.
  - eexists _, _. split; [vm_compute; reflexivity |].
    repeat split; reflexivity.
Qed.

Lemma rotateToSection_negates_section_angle_witness :
  rotateToSection "chill-zone" None createCarousel
  = rotateTo (jneg (Num (- Math_PI / 2)))
      (Some (rotationDuration DEFAULT_SETTINGS)) createCarousel.
Proof.
  apply (proj1 rotateToSection_negates_section_angle "chill-zone"%string
           {| name := "Chill Zone"; color := 0x66ccff;
              position := (0, 0, 10); angle := Num (- Math_PI / 2);
              interactive := true |} None createCarousel).
  vm_compute. reflexivity.
Defined.

End CarouselSpec.

(** ** The input controls *)
Module ControlsSpec.
Import NumberFacts Carousel InputControls.

Lemma onKeyDown_ArrowLeft (c : Controls) :
  isTransitioning c = false ->
  carousel (onKeyDown "ArrowLeft" c)
  = snd (rotateTo (jadd (getRotation (carousel c)) (Num (Math_PI / 2)))
           None (carousel c)).
Proof.
  intros H. unfold onKeyDown. simpl. rewrite H. reflexivity.
Qed.

Lemma onKeyDown_transitioning (code : string) (c : Controls) :
  isTransitioning c = true -> carousel (onKeyDown code c) = carousel c.
Proof.
  intros H. unfold onKeyDown. simpl. rewrite H. reflexivity.
Qed.

(** What an arrow-left press does in general.  With no transition in
    progress and the carousel free, arrow-left hands [rotateTo] the current
    rotation plus pi/2.  The target equals that sum only up to whole turns;
    it equals it exactly while the rotation lies strictly within one turn
    of zero.  When the tween has run to its end the rotation is the target.
    From the initial state (rotation 0, no section active) the first press
    targets pi/2 and, once that rotation has completed, the second press
    targets pi.  A press during a transition or a running rotation leaves
    the carousel as it is. *)
Lemma arrow_left_step_up_to_whole_turns :
  (forall (c : Controls) (r : Q),
      isTransitioning c = false ->
      isLocked (carousel c) = false -> isAnimating (carousel c) = false ->
      rotation (carousel c) = Num r ->
      let c' := onKeyDown "ArrowLeft" c in
      carousel c'
      = snd (rotateTo (Num (r + Math_PI / 2)) None (carousel c)) /\
      exists t : Q,
        targetRotation (carousel c') = Num t /\
        isAnimating (carousel c') = true /\
        rotation (carousel c') = Num r /\
        (exists k : Z, t == r + Math_PI / 2 + Math_PI * 2 * inject_Z k) /\
        (- (Math_PI * 2) < r -> r < Math_PI * 2 ->
         t == r + Math_PI / 2) /\
        rotation (carousel (rotation_complete c')) = Num t /\
        isAnimating (carousel (rotation_complete c')) = false) /\
  (forall c : Controls,
      isTransitioning c = true \/ isAnimating (carousel c) = true ->
      carousel (onKeyDown "ArrowLeft" c) = carousel c) /\
  (let c0 := createControls CameraSystem.createCameraSystem createCarousel in
   let c1 := onKeyDown "ArrowLeft" c0 in
   let c2 := rotation_complete c1 in
   let c3 := onKeyDown "ArrowLeft" c2 in
   let c4 := rotation_complete c3 in
   rotation (carousel c0) = Num 0 /\ activeSection c0 = None /\
   targetRotation (carousel c1) =n= Num (Math_PI / 2) /\
   rotation (carousel c2) =n= Num (Math_PI / 2) /\
   isAnimating (carousel c2) = false /\
   targetRotation (carousel c3) =n= Num Math_PI /\
   rotation (carousel c4) =n= Num Math_PI /\
   InputControls.isTransitioning c4 = false /\
   Qabs (Math_PI / 2 - 0) <= Math_PI /\
   Qabs (Math_PI - Math_PI / 2) <= Math_PI).
Proof.
  split; [| split].
  - intros c r HT HL HA HR c'. subst c'.
    pose proof (CarouselSpec.rotateTo_accepted (carousel c) r
                  (r + Math_PI / 2) None HL HA HR) as E.
    cbn zeta in E.
    assert (EC : carousel (onKeyDown "ArrowLeft" c)
                 = start_tween
                     {| tween_rotation :=
                          Num (chosen_target r (r + Math_PI / 2));
                        tween_duration :=
                          default (rotationDuration (Carousel.settings (carousel c)))
                            None;
                        tween_ease := rotationEase (Carousel.settings (carousel c)) |}
                     (carousel c)).
    { rewrite onKeyDown_ArrowLeft by exact HT.
      unfold getRotation. rewrite HR. simpl jadd. rewrite E. reflexivity. }
    split.
    { rewrite onKeyDown_ArrowLeft by exact HT.
      unfold getRotation. rewrite HR. reflexivity. }
    exists (chosen_target r (r + Math_PI / 2)).
    unfold rotation_complete. rewrite EC.
    split; [reflexivity |]. split; [reflexivity |].
    split; [exact HR |]. split; [| split; [| split; reflexivity]].
    + destruct (CarouselSpec.chosen_target_congruent r (r + Math_PI / 2))
        as [k Hk].
      exists k. exact Hk.
    + intros H1 H2. apply CarouselSpec.chosen_target_quarter; assumption.
  - intros c [H | H].
    + apply onKeyDown_transitioning. exact H.
    + unfold onKeyDown. simpl.
      destruct (isTransitioning c); simpl; [reflexivity |].
      unfold handleArrowNavigation. simpl.
      rewrite CarouselSpec.rotateTo_rejected by (right; exact H).
      reflexivity.
  - vm_compute. repeat split; try reflexivity; discriminate.
Qed.

Lemma arrow_left_step_from_rest :
  let c := createControls CameraSystem.createCameraSystem createCarousel in
  exists t : Q,
    targetRotation (carousel (onKeyDown "ArrowLeft" c)) = Num t /\
    t == 0 + Math_PI / 2.
Proof.
  intros c.
  destruct (proj1 arrow_left_step_up_to_whole_turns c 0)
    as (_ & t & H1 & _ & _ & _ & H5 & _); try reflexivity.
  exists t. split; [exact H1 |]. apply H5; reflexivity.
Defined.

(** C8.  The quarter-turn step fails on a rotation the presses themselves
    reach.  From the initial state (rotation 0, no section active) four
    arrow-left presses, each run to its end, step the carousel by pi/2 each
    and leave it free at one full turn, 2*pi.  The fifth press hands
    [rotateTo] the rotation plus pi/2, that is 5*pi/2; [rotateTo] compares
    the remainders pi/2 and 0, finds them pi/2 apart, corrects nothing and
    targets pi/2.  The tween starts from the rotation 2*pi, so the carousel
    is sent three quarter-turns backwards: the target is not the rotation
    plus pi/2, and it is farther than pi from the rotation.  Hence the step
    by +pi/2 does not hold of every press made with no transition in
    progress. *)
Theorem arrow_left_fifth_press_turns_back :
  let press := fun c : Controls => rotation_complete (onKeyDown "ArrowLeft" c) in
  let c0 := createControls CameraSystem.createCameraSystem createCarousel in
  let c1 := press c0 in
  let c2 := press c1 in
  let c3 := press c2 in
  let c4 := press c3 in
  let c5 := onKeyDown "ArrowLeft" c4 in
  (rotation (carousel c0) = Num 0 /\ activeSection c0 = None /\
   rotation (carousel c1) =n= Num (Math_PI / 2) /\
   rotation (carousel c2) =n= Num Math_PI /\
   rotation (carousel c3) =n= Num (Math_PI / 2 * 3) /\
   rotation (carousel c4) =n= Num (Math_PI * 2)) /\
  (isTransitioning c4 = false /\ activeSection c4 = None /\
   isLocked (carousel c4) = false /\ isAnimating (carousel c4) = false) /\
  (exists r t : Q,
      rotation (carousel c4) = Num r /\
      carousel c5
      = snd (rotateTo (Num (r + Math_PI / 2)) None (carousel c4)) /\
      targetRotation (carousel c5) = Num t /\
      isAnimating (carousel c5) = true /\
      rotation (carousel c5) = Num r /\
      rotation (carousel (rotation_complete c5)) = Num t /\
      t == Math_PI / 2 /\
      ~ t == r + Math_PI / 2 /\
      t - r == - (Math_PI / 2 * 3) /\
      Math_PI < Qabs (t - r)) /\
  ~ (forall (c : Controls) (r t : Q),
        isTransitioning c = false ->
        isLocked (carousel c) = false -> isAnimating (carousel c) = false ->
        rotation (carousel c) = Num r ->
        targetRotation (carousel (onKeyDown "ArrowLeft" c)) = Num t ->
        t == r + Math_PI / 2).
Proof.
  intros press c0 c1 c2 c3 c4 c5.
  assert (R4 : exists r : Q, rotation (carousel c4) = Num r /\ r == Math_PI * 2).
  { eexists. split; [vm_compute; reflexivity | vm_compute; reflexivity]. }
  assert (T5 : exists t : Q,
             targetRotation (carousel c5) = Num t /\ t == Math_PI / 2).
  { eexists. split; [vm_compute; reflexivity | vm_compute; reflexivity]. }
  destruct R4 as (r & HR & Er). destruct T5 as (t & HT & Et).
  assert (F4 : isTransitioning c4 = false /\ activeSection c4 = None /\
               isLocked (carousel c4) = false /\
               isAnimating (carousel c4) = false)
    by (vm_compute; repeat split; reflexivity).
  assert (P : 0 < Math_PI) by reflexivity.
  assert (Ne : ~ t == r + Math_PI / 2).
  { rewrite Et, Er. intros E.
    change (Math_PI / 2) with (Math_PI * (1 # 2)) in E. lra. }
  split; [| split; [exact F4 | split]].
  - vm_compute. repeat split; reflexivity.
  - exists r, t.
    split; [exact HR |].
    split.
    { unfold c5. rewrite onKeyDown_ArrowLeft by apply F4.
      unfold getRotation. rewrite HR. reflexivity. }
    split; [exact HT |].
    split; [vm_compute; reflexivity |].
    split.
    { rewrite <- HR. vm_compute. reflexivity. }
    split.
    { rewrite <- HT. vm_compute. reflexivity. }
    split; [exact Et |]. split; [exact Ne |].
    assert (D : t - r == - (Math_PI / 2 * 3)).
    { rewrite Et, Er. change (Math_PI / 2) with (Math_PI * (1 # 2)). ring. }
    split; [exact D |].
    rewrite (Qabs_wd _ _ D), Qabs_opp, Qabs_pos.
    + change (Math_PI / 2) with (Math_PI * (1 # 2)). lra.
    + change (Math_PI / 2) with (Math_PI * (1 # 2)). lra.
  - intros H.
    apply Ne.
    destruct F4 as (F1 & _ & F2 & F3).
    exact (H c4 r t F1 F2 F3 HR HT).
Qed.

End ControlsSpec.

(** ** The camera system *)
Module CameraSpec.
Import CameraSystem.

Lemma overview_defined :
  get SECTION_CAMERA_SETTINGS "overview" = Own overview_settings.
Proof. vm_compute. reflexivity. Qed.

(** Every preset of the table carries orbit settings that define both
    distance bounds. *)
Lemma preset_has_bounds (sectionName : string) (preset : SectionSettings) :
  SECTION_CAMERA_SETTINGS !! sectionName = Some preset ->
  exists (orbit : OrbitSettings) (lo hi : Q),
    orbitControls preset = Some orbit /\
    s_minDistance orbit = Some lo /\ s_maxDistance orbit = Some hi.
Proof.
  intros H. apply elem_of_list_to_map_2 in H.
  repeat (apply elem_of_cons in H as [H | H]);
    try (injection H as _ ->; eexists _, _, _; repeat split; reflexivity).
  apply elem_of_nil in H. destruct H.
Qed.

Lemma transitionToSection_own (sectionName : string) (preset : SectionSettings)
    (duration : option Q) (easing : option string) (cam : Camera) :
  SECTION_CAMERA_SETTINGS !! sectionName = Some preset ->
  transitionToSection sectionName duration easing cam
  = run_transition sectionName (inl preset) (default 2 duration)
      (default "power2.inOut"%string easing) cam.
Proof.
  intros H. unfold transitionToSection, get. rewrite H. reflexivity.
Qed.

(** C5.  For a section with a camera preset, [transitionToSection]
    returns a timeline; once that timeline has run to its end the camera
    position and the look-at target of the controls are the preset's
    position and lookAt, and the minimum and maximum distance of the orbit
    controls are the bounds of the preset. *)
Theorem completed_transition_reaches_preset (sectionName : string)
    (preset : SectionSettings) (duration : option Q)
    (easing : option string) (cam : Camera) :
  SECTION_CAMERA_SETTINGS !! sectionName = Some preset ->
  exists (tl : Timeline) (cam1 : Camera) (orbit : OrbitSettings),
    transitionToSection sectionName duration easing cam = (Returned tl, cam1) /\
    orbitControls preset = Some orbit /\
    let cam2 := timeline_complete tl cam1 in
    currentSection cam2 = sectionName /\
    camera_position cam2 = position preset /\
    target (controls cam2) = lookAt preset /\
    Some (minDistance (controls cam2)) = s_minDistance orbit /\
    Some (maxDistance (controls cam2)) = s_maxDistance orbit /\
    enabled (controls cam2) = negb (isLocked cam).
Proof.
  intros H.
  destruct (preset_has_bounds sectionName preset H) as (orbit & lo & hi & Ho & Hlo & Hhi).
  rewrite (transitionToSection_own sectionName preset duration easing cam H).
  unfold run_transition. eexists _, _, orbit.
  split; [reflexivity |]. split; [exact Ho |].
  unfold timeline_complete, on_transition_complete. simpl.
  rewrite Ho. simpl. rewrite Hlo, Hhi. repeat split; reflexivity.
Qed.

Lemma completed_transition_reaches_preset_witness :
  exists (tl : Timeline) (cam1 : Camera),
    transitionToSection "skill-planet" None None createCameraSystem
    = (Returned tl, cam1) /\
    camera_position (timeline_complete tl cam1) = vec 12 5 0 /\
    target (controls (timeline_complete tl cam1)) = vec 12 5 (-5) /\
    minDistance (controls (timeline_complete tl cam1)) = 5 /\
    maxDistance (controls (timeline_complete tl cam1)) = 15.
Proof.
  destruct (completed_transition_reaches_preset "skill-planet"
              {| position := vec 12 5 0; lookAt := vec 12 5 (-5); fov := 60;
                 orbitControls := Some section_orbit |}
              None None createCameraSystem)
    as (tl & cam1 & orbit & E & Ho & _ & Hp & Ht & Hlo & Hhi & _).
  - vm_compute. reflexivity.
  - exists tl, cam1. injection Ho as <-.
    split; [exact E |]. split; [exact Hp |]. split; [exact Ht |].
    split; [injection Hlo as ->; reflexivity
           | injection Hhi as ->; reflexivity].
Defined.

End CameraSpec.

(** ** Unknown section identifiers *)
Module UnknownSectionSpec.

(** C6 (as stated, refuted).  The carousel does not fall back to any
    preset for an unknown identifier: it warns, returns null and starts no
    rotation.  And an identifier that names a property every object
    inherits passes the guard of the camera system, whose call then
    throws. *)
Lemma unknown_section_without_fallback :
  Carousel.SECTION_DEFINITIONS !! "bogus"%string = None /\
  CameraSystem.SECTION_CAMERA_SETTINGS !! "bogus"%string = None /\
  fst (Carousel.rotateToSection "bogus" None Carousel.createCarousel) = None /\
  Carousel.tweens
    (snd (Carousel.rotateToSection "bogus" None Carousel.createCarousel)) = [] /\
  Carousel.isAnimating
    (snd (Carousel.rotateToSection "bogus" None Carousel.createCarousel))
  = false /\
  CameraSystem.SECTION_CAMERA_SETTINGS !! "constructor"%string = None /\
  fst (CameraSystem.transitionToSection "constructor" None None
         CameraSystem.createCameraSystem)
  = CameraSystem.Threw
      "TypeError: Cannot read properties of undefined (reading 'x')".
Proof. vm_compute. repeat split; reflexivity. Qed.

(** C6 (amended).  For an identifier that is a property of neither table,
    own or inherited: the camera system logs a warning and performs the
    transition to the overview preset, returning its timeline; the
    carousel logs a warning, returns null and changes nothing else.
    Neither call throws. *)
Theorem unknown_section_handling (s : string) (duration : option Q)
    (easing : option string) (cam : CameraSystem.Camera)
    (c : Carousel.Carousel) :
  s ∉ Object_prototype_keys ->
  CameraSystem.SECTION_CAMERA_SETTINGS !! s = None ->
  Carousel.SECTION_DEFINITIONS !! s = None ->
  let cam_warned :=
    CameraSystem.warn (CameraSystem.not_found s) cam in
  CameraSystem.transitionToSection s duration easing cam
  = CameraSystem.transitionToSection "overview" duration easing cam_warned /\
  (exists (tl : CameraSystem.Timeline) (cam' : CameraSystem.Camera),
      CameraSystem.transitionToSection s duration easing cam
      = (CameraSystem.Returned tl, cam') /\
      CameraSystem.currentSection cam' = "overview"%string /\
      CameraSystem.to_position tl
      = CameraSystem.position CameraSystem.overview_settings /\
      CameraSystem.to_target tl
      = CameraSystem.lookAt CameraSystem.overview_settings /\
      CameraSystem.console cam'
      = CameraSystem.console cam_warned) /\
  Carousel.rotateToSection s duration c
  = (None, Carousel.warn (Carousel.not_found s) c).
Proof.
  intros Hk Hcam Hcar cam_warned.
  assert (Hb : bool_decide (s ∈ Object_prototype_keys) = false)
    by (apply bool_decide_eq_false; exact Hk).
  assert (E : CameraSystem.transitionToSection s duration easing cam
              = CameraSystem.run_transition "overview"
                  (inl CameraSystem.overview_settings) (default 2 duration)
                  (default "power2.inOut"%string easing) cam_warned).
  { unfold CameraSystem.transitionToSection, get. rewrite Hcam, Hb.
    reflexivity. }
  split; [| split].
  - rewrite E. unfold CameraSystem.transitionToSection.
    rewrite CameraSpec.overview_defined. reflexivity.
  - rewrite E. unfold CameraSystem.run_transition.
    eexists _, _. split; [reflexivity |]. repeat split; reflexivity.
  - unfold Carousel.rotateToSection, get. rewrite Hcar, Hb. reflexivity.
Qed.

Lemma unknown_section_handling_witness :
  Carousel.rotateToSection "bogus" None Carousel.createCarousel
  = (None, Carousel.warn (Carousel.not_found "bogus") Carousel.createCarousel).
Proof.
  apply (unknown_section_handling "bogus" None None
           CameraSystem.createCameraSystem Carousel.createCarousel).
  - apply (bool_decide_unpack _). vm_compute. exact I.
  - vm_compute. reflexivity.
  - vm_compute. reflexivity.
Defined.

End UnknownSectionSpec.

(** ** Section selection *)
Module SelectionSpec.

Lemma controls_selectSection_active (c : InputControls.Controls)
    (sectionName : string) :
  InputControls.activeSection c = Some sectionName ->
  InputControls.selectSection sectionName c = (InputControls.Skipped, c).
Proof.
  intros H. unfold InputControls.selectSection.
  rewrite bool_decide_eq_true_2 by exact H. reflexivity.
Qed.

Lemma app_selectSection_active (app : App.APP) (sectionName : string) :
  App.activeSection app = Some sectionName ->
  App.selectSection sectionName app = (App.Skipped, app).
Proof.
  intros H. unfold App.selectSection.
  rewrite (bool_decide_eq_true_2 _ H), orb_true_r. reflexivity.
Qed.

(** A selection launched by the input controls installs the callback
    that makes the section the active one. *)
Lemma controls_launch_callback (c c1 : InputControls.Controls) (sectionName : string)
    (tl : CameraSystem.Timeline) :
  InputControls.selectSection sectionName c = (InputControls.Launched tl, c1) ->
  CameraSystem.onComplete tl = CameraSystem.SelectionComplete sectionName.
Proof.
  unfold InputControls.selectSection.
  destruct (bool_decide _); [discriminate |].
  destruct (CameraSystem.transitionToSection _ _ _ _) as [[tl' | e] cam];
    [| discriminate].
  intros E. injection E as <- _. reflexivity.
Qed.

Lemma app_launch_state (app app1 : App.APP) (sectionName : string) (a : App.Animation) :
  App.selectSection sectionName app = (App.Launched a, app1) ->
  App.activeSection app1 = Some sectionName /\
  exists p l, a = App.ToSection sectionName p l.
Proof.
  unfold App.selectSection.
  destruct (_ || _); [discriminate |].
  destruct (App.camera_for sectionName) as [[p l] |]; [| discriminate].
  intros E. injection E as <- <-. split; [reflexivity |].
  exists p, l. reflexivity.
Qed.

(** C9.  Selecting the section that is already the active one returns at
    the guard, in the input controls and in the application controller
    alike: nothing is launched and the state is the one before the call.
    Hence a selection that was launched and has completed makes a second
    selection of the same section a no-op. *)
Theorem reselecting_active_section_is_noop :
  (forall (c : InputControls.Controls) (sectionName : string),
      InputControls.activeSection c = Some sectionName ->
      InputControls.selectSection sectionName c = (InputControls.Skipped, c)) /\
  (forall (app : App.APP) (sectionName : string),
      App.activeSection app = Some sectionName ->
      App.selectSection sectionName app = (App.Skipped, app)) /\
  (forall (c c1 : InputControls.Controls) (sectionName : string)
          (tl : CameraSystem.Timeline),
      InputControls.selectSection sectionName c = (InputControls.Launched tl, c1) ->
      let c2 := InputControls.timeline_complete tl c1 in
      InputControls.activeSection c2 = Some sectionName /\
      InputControls.isTransitioning c2 = false /\
      InputControls.selectSection sectionName c2 = (InputControls.Skipped, c2)) /\
  (forall (app app1 : App.APP) (sectionName : string) (a : App.Animation),
      App.selectSection sectionName app = (App.Launched a, app1) ->
      let app2 := App.animation_complete a app1 in
      App.activeSection app2 = Some sectionName /\
      App.isTransitioning app2 = false /\
      App.selectSection sectionName app2 = (App.Skipped, app2)).
Proof.
  split; [exact controls_selectSection_active |].
  split; [exact app_selectSection_active |].
  split.
  - intros c c1 sectionName tl E c2.
    assert (A : InputControls.activeSection c2 = Some sectionName
                /\ InputControls.isTransitioning c2 = false).
    { subst c2. unfold InputControls.timeline_complete.
      rewrite (controls_launch_callback _ _ _ _ E). split; reflexivity. }
    destruct A as [A1 A2]. split; [exact A1 |]. split; [exact A2 |].
    apply controls_selectSection_active. exact A1.
  - intros app app1 sectionName a E app2.
    destruct (app_launch_state _ _ _ _ E) as (HA & p & l & ->).
    assert (A : App.activeSection app2 = Some sectionName) by exact HA.
    split; [exact A |]. split; [reflexivity |].
    apply app_selectSection_active. exact A.
Qed.

Lemma reselecting_active_section_is_noop_witness :
  let c :=
    InputControls.set_selection false (Some "skill-planet"%string)
      (InputControls.createControls CameraSystem.createCameraSystem
         Carousel.createCarousel) in
  InputControls.selectSection "skill-planet" c = (InputControls.Skipped, c).
Proof.
  intros c.
  apply (proj1 reselecting_active_section_is_noop c "skill-planet"%string).
  reflexivity.
Defined.

End SelectionSpec.

(** ** The transition controller *)
Module TransitionSpec.
Import TransitionController.
Local Open Scope nat_scope.










End TransitionSpec.

(** ** The asset manager *)
Module LoaderSpec.
Import AssetManager.
Local Open Scope nat_scope.

Lemma queue_all_fields (items : list QueueItem) (m : Manager) :
  let m' := queue_all items m in
  loadingQueue m' = loadingQueue m ++ items /\
  totalItems m' = totalItems m + length items /\
  loadedItems m' = loadedItems m /\
  onProgressCallback m' = onProgressCallback m /\
  onCompleteCallback m' = onCompleteCallback m /\
  promise m' = promise m /\ events m' = events m.
Proof.
  revert m. induction items as [| i l IH]; intros m; simpl.
  - rewrite app_nil_r, Nat.add_0_r. repeat split; reflexivity.
  - destruct (IH (queue_item i m)) as (H1 & H2 & H3 & H4 & H5 & H6 & H7).
    rewrite H1, H2, H3, H4, H5, H6, H7. destruct i as [ty nm u]. simpl.
    rewrite <- app_assoc. simpl.
    repeat split; try reflexivity. lia.
Qed.

(** The state a loading run starts from. *)
Lemma start_state (onProgress onComplete onError : bool)
    (items : list QueueItem) :
  items <> [] ->
  let m := start onProgress onComplete onError items in
  loadedItems m = 0 /\ totalItems m = length items /\
  onProgressCallback m = onProgress /\
  onCompleteCallback m
  = LoadAllCallback (if onComplete then UserCallback else NoCallback) /\
  promise m = Some Pending /\ events m = [].
Proof.
  intros Hne. unfold start.
  pose proof (queue_all_fields items
                (setCallbacks onProgress onComplete onError constructor))
    as H.
  cbn zeta in H.
  set (m0 := queue_all items _) in *.
  destruct H as (H1 & H2 & H3 & H4 & H5 & H6 & H7).
  change (loadingQueue m0 = items) in H1.
  unfold loadAll. rewrite H1.
  destruct items as [| i l]; [contradiction |].
  cbn [loadedItems totalItems onProgressCallback onCompleteCallback promise
       events].
  rewrite H2, H3, H4, H5, H7. simpl.
  rewrite orb_false_r. repeat split; reflexivity.
Qed.

(** Facts about a manager on which [loadAll] has wrapped the completion
    callback [cb]. *)
Section LoadingRun.

Variable cb : CompleteCallback.
Hypothesis cb_plain : plain cb.

(** What [updateProgress] does to the manager. *)
Lemma updateProgress_step (m : Manager) :
  onCompleteCallback m = LoadAllCallback cb ->
  let m' := updateProgress m in
  let last := Nat.eqb (S (loadedItems m)) (totalItems m) in
  onCompleteCallback m' = onCompleteCallback m /\
  onProgressCallback m' = onProgressCallback m /\
  totalItems m' = totalItems m /\
  loadedItems m' = S (loadedItems m) /\
  completions m' = completions m + (if last then fires cb else 0) /\
  progress_reports m'
  = progress_reports m
    ++ (if onProgressCallback m
        then [ (percent (S (loadedItems m)) (totalItems m),
                S (loadedItems m), totalItems m) ]
        else []) /\
  promise m'
  = match promise m with
    | Some Pending => if last then Some Fulfilled else Some Pending
    | settled => settled
    end.
Proof using cb_plain.
  intros Hcb.
  destruct m as [tx mo fo sv au q total loaded onP onC onE pr ev].
  cbn [onCompleteCallback] in Hcb. subst onC.
  unfold updateProgress, completions, progress_reports, emit.
  cbn -[Nat.eqb percent].
  destruct onP; cbn -[Nat.eqb percent];
    destruct (Nat.eqb (S loaded) total);
    destruct cb_plain as [E | E]; rewrite E;
    destruct pr as [[| | e] |];
    cbn -[Nat.eqb percent];
    rewrite ?app_nil_r, ?Nat.add_0_r, ?Nat.add_1_r;
    repeat split; reflexivity.
Qed.

(** What one answer of a loader does to the manager. *)
Lemma settle_step (item : QueueItem) (r : Result) (m : Manager) :
  onCompleteCallback m = LoadAllCallback cb ->
  let m' := settle item r m in
  let last := Nat.eqb (S (loadedItems m)) (totalItems m) in
  onCompleteCallback m' = onCompleteCallback m /\
  onProgressCallback m' = onProgressCallback m /\
  totalItems m' = totalItems m /\
  loadedItems m' = S (loadedItems m) /\
  completions m' = completions m + (if last then fires cb else 0) /\
  progress_reports m'
  = progress_reports m
    ++ (if onProgressCallback m
        then [ (percent (S (loadedItems m)) (totalItems m),
                S (loadedItems m), totalItems m) ]
        else []) /\
  promise m'
  = match promise m with
    | Some Pending =>
        if last then Some Fulfilled
        else match r with
             | Failed error => Some (Rejected error)
             | Loaded => Some Pending
             end
    | settled => settled
    end.
Proof using cb_plain.
  intros Hcb. destruct r as [| error].
  - exact (updateProgress_step (store item m) Hcb).
  - unfold settle, handleError.
    set (logged := emit (ConsoleError (type item) (url item) error) m).
    set (told := if onErrorCallback logged
                 then emit (Error (type item) (url item) error) logged
                 else logged).
    assert (Same : onCompleteCallback told = onCompleteCallback m
                   /\ onProgressCallback told = onProgressCallback m
                   /\ totalItems told = totalItems m
                   /\ loadedItems told = loadedItems m
                   /\ completions told = completions m
                   /\ progress_reports told = progress_reports m
                   /\ promise told = promise m).
    { subst told logged. destruct (onErrorCallback _); repeat split;
        reflexivity. }
    destruct Same as (E1 & E2 & E3 & E4 & E5 & E6 & E7).
    destruct (updateProgress_step told) as (U1 & U2 & U3 & U4 & U5 & U6 & U7);
      [rewrite E1; exact Hcb |].
    rewrite E1, E2, E3, E4, E5, E6, E7 in *.
    cbn zeta.
    assert (Frame : forall m0 : Manager,
               onCompleteCallback (reject error m0) = onCompleteCallback m0
               /\ onProgressCallback (reject error m0) = onProgressCallback m0
               /\ totalItems (reject error m0) = totalItems m0
               /\ loadedItems (reject error m0) = loadedItems m0
               /\ completions (reject error m0) = completions m0
               /\ progress_reports (reject error m0) = progress_reports m0
               /\ promise (reject error m0)
                  = match promise m0 with
                    | Some Pending => Some (Rejected error)
                    | settled => settled
                    end).
    { intros m0. unfold reject.
      destruct (promise m0) as [[| | e] |] eqn:P; rewrite ?P;
        repeat split; reflexivity. }
    destruct (Frame (updateProgress told))
      as (R1 & R2 & R3 & R4 & R5 & R6 & R7).
    rewrite R1, R2, R3, R4, R5, R6, R7, U1, U2, U3, U4, U5, U6, U7.
    repeat split; try reflexivity.
    destruct (promise m) as [[| | e] |]; try reflexivity.
    destruct (Nat.eqb _ _); reflexivity.
Qed.

(** A whole run, from any state of a loading manager. *)
Lemma run_fields (answers : list (QueueItem * Result)) (m : Manager) :
  onCompleteCallback m = LoadAllCallback cb ->
  let m' := run answers m in
  onCompleteCallback m' = onCompleteCallback m /\
  onProgressCallback m' = onProgressCallback m /\
  totalItems m' = totalItems m /\
  loadedItems m' = loadedItems m + length answers.
Proof using cb_plain.
  intros Hcb. revert m Hcb.
  induction answers as [| [i r] l IH]; intros m Hcb; simpl.
  - rewrite Nat.add_0_r. repeat split; reflexivity.
  - destruct (settle_step i r m Hcb) as (S1 & S2 & S3 & S4 & _).
    destruct (IH (settle i r m)) as (H1 & H2 & H3 & H4);
      [rewrite S1; exact Hcb |].
    unfold run in *. rewrite H1, H2, H3, H4, S1, S2, S3, S4.
    repeat split; try reflexivity. lia.
Qed.

Lemma run_before_last (answers : list (QueueItem * Result)) (m : Manager) :
  onCompleteCallback m = LoadAllCallback cb ->
  loadedItems m + length answers < totalItems m ->
  completions (run answers m) = completions m.
Proof using cb_plain.
  intros Hcb. revert m Hcb.
  induction answers as [| [i r] l IH]; intros m Hcb Hlt; simpl;
    [reflexivity |].
  destruct (settle_step i r m Hcb)
    as (S1 & S2 & S3 & S4 & S5 & _).
  simpl in Hlt. unfold run in IH. rewrite IH.
  - rewrite S5.
    destruct (Nat.eqb_spec (S (loadedItems m)) (totalItems m)); lia.
  - rewrite S1. exact Hcb.
  - rewrite S3, S4. lia.
Qed.

Lemma run_to_last (answers : list (QueueItem * Result)) (m : Manager) :
  onCompleteCallback m = LoadAllCallback cb ->
  answers <> [] ->
  loadedItems m + length answers = totalItems m ->
  completions (run answers m) = completions m + fires cb.
Proof using cb_plain.
  intros Hcb. revert m Hcb.
  induction answers as [| [i r] l IH]; intros m Hcb Hne Hlen;
    [contradiction |].
  destruct (settle_step i r m Hcb)
    as (S1 & S2 & S3 & S4 & S5 & _).
  simpl in Hlen. change (run ((i, r) :: l) m) with (run l (settle i r m)).
  destruct l as [| a l'].
  - simpl. rewrite S5. simpl in Hlen.
    destruct (Nat.eqb_spec (S (loadedItems m)) (totalItems m)); lia.
  - rewrite IH.
    + rewrite S5.
      destruct (Nat.eqb_spec (S (loadedItems m)) (totalItems m));
        simpl in *; lia.
    + rewrite S1. exact Hcb.
    + discriminate.
    + rewrite S3, S4. simpl in *. lia.
Qed.

Lemma run_reports (answers : list (QueueItem * Result)) (m : Manager) :
  onCompleteCallback m = LoadAllCallback cb ->
  onProgressCallback m = true ->
  progress_reports (run answers m)
  = progress_reports m
    ++ map (fun k => (percent k (totalItems m), k, totalItems m))
         (seq (S (loadedItems m)) (length answers)).
Proof using cb_plain.
  intros Hcb. revert m Hcb.
  induction answers as [| [i r] l IH]; intros m Hcb Hp; simpl.
  - rewrite app_nil_r. reflexivity.
  - destruct (settle_step i r m Hcb)
      as (S1 & S2 & S3 & S4 & _ & S6 & _).
    unfold run in IH. rewrite IH.
    + rewrite S6, S3, S4, Hp. rewrite <- app_assoc. reflexivity.
    + rewrite S1. exact Hcb.
    + rewrite S2. exact Hp.
Qed.

Lemma percent_full (n : nat) : n <> 0 -> (percent n n == 100)%Q.
Proof.
  intros H. unfold percent. field.
  intros E. apply H.
  assert (Z.of_nat n = 0%Z) as E'.
  { unfold Qeq in E. simpl in E. lia. }
  lia.
Qed.

Lemma run_app (l1 l2 : list (QueueItem * Result)) (m : Manager) :
  run (l1 ++ l2) m = run l2 (run l1 m).
Proof. unfold run. apply fold_left_app. Qed.

Lemma answers_length (items : list QueueItem)
    (answers : list (QueueItem * Result)) :
  Permutation (map fst answers) items -> length answers = length items.
Proof.
  intros H. apply Permutation_length in H. rewrite length_map in H. exact H.
Qed.

(** The promise while assets load without failure and some are still
    outstanding. *)
Lemma run_still_pending (answers : list (QueueItem * Result)) (m : Manager) :
  onCompleteCallback m = LoadAllCallback cb ->
  Forall (fun a => snd a = Loaded) answers ->
  loadedItems m + length answers < totalItems m ->
  promise m = Some Pending ->
  promise (run answers m) = Some Pending.
Proof using cb_plain.
  intros Hcb. revert m Hcb.
  induction answers as [| [i r] l IH]; intros m Hcb Hall Hlt Hp; simpl;
    [exact Hp |].
  destruct (settle_step i r m Hcb)
    as (S1 & S2 & S3 & S4 & _ & _ & S7).
  inversion Hall as [| ? ? Hr Hall']; subst. simpl in Hr. subst r.
  simpl in Hlt. unfold run in IH. apply IH.
  - rewrite S1. exact Hcb.
  - exact Hall'.
  - rewrite S3, S4. lia.
  - rewrite S7, Hp.
    destruct (Nat.eqb_spec (S (loadedItems m)) (totalItems m));
      [lia | reflexivity].
Qed.

(** A settled promise stays as it is. *)
Lemma run_settled (answers : list (QueueItem * Result)) (m : Manager)
    (p : PromiseState) :
  onCompleteCallback m = LoadAllCallback cb ->
  p <> Pending -> promise m = Some p ->
  promise (run answers m) = Some p.
Proof using cb_plain.
  intros Hcb Hp. revert m Hcb.
  induction answers as [| [i r] l IH]; intros m Hcb Hm; simpl; [exact Hm |].
  destruct (settle_step i r m Hcb) as (S1 & _ & _ & _ & _ & _ & S7).
  unfold run in IH. apply IH.
  - rewrite S1. exact Hcb.
  - rewrite S7, Hm. destruct p; [contradiction | reflexivity | reflexivity].
Qed.

End LoadingRun.

(** C4.  In a loading run of N queued assets, whatever number of them
    fail, the completion callback is called exactly once, and not before
    all N attempts have been answered; every answer, failed or not, counts
    as a step, so the loaded count ends at N of N, the progress callback is
    called N times with k of N for k from 1 to N, and the last report is
    100 percent. *)
Theorem completion_fires_once_after_all_attempts
    (items : list QueueItem) (answers : list (QueueItem * Result))
    (onProgress onError : bool) :
  items <> [] -> Permutation (map fst answers) items ->
  let N := length items in
  let m := start onProgress true onError items in
  completions (run answers m) = 1 /\
  (forall finished rest : list (QueueItem * Result),
      answers = finished ++ rest -> rest <> [] ->
      completions (run finished m) = 0) /\
  loadedItems (run answers m) = N /\ totalItems (run answers m) = N /\
  (getProgress (run answers m) == 100)%Q /\
  (onProgress = true ->
   progress_reports (run answers m)
   = map (fun k => (percent k N, k, N)) (seq 1 N)) /\
  (percent N N == 100)%Q.
Proof.
  intros Hne Hperm N m.
  pose proof (answers_length _ _ Hperm) as Hlen.
  destruct (start_state onProgress true onError items Hne)
    as (L0 & T0 & P0 & C0 & Pr0 & E0).
  fold m in L0, T0, P0, C0, Pr0, E0.
  assert (Hplain : plain UserCallback) by (right; reflexivity).
  assert (HN : N <> 0).
  { subst N. destruct items; [contradiction | discriminate]. }
  assert (Hc0 : completions m = 0) by (unfold completions; rewrite E0; reflexivity).
  assert (Hr0 : progress_reports m = [])
    by (unfold progress_reports; rewrite E0; reflexivity).
  destruct (run_fields _ Hplain answers m C0) as (F1 & F2 & F3 & F4).
  split; [| split; [| split; [| split; [| split; [| split]]]]].
  - rewrite (run_to_last _ Hplain answers m C0).
    + rewrite Hc0. reflexivity.
    + intros ->. simpl in Hlen. subst N. lia.
    + rewrite L0, T0. simpl. exact Hlen.
  - intros finished rest -> Hrest.
    rewrite (run_before_last _ Hplain finished m C0); [exact Hc0 |].
    rewrite L0, T0, <- Hlen, length_app. simpl.
    destruct rest; [contradiction | simpl; lia].
  - rewrite F4, L0. simpl. exact Hlen.
  - rewrite F3. exact T0.
  - unfold getProgress. rewrite F3, F4, L0, T0. simpl. rewrite Hlen.
    apply percent_full. exact HN.
  - intros ->. rewrite (run_reports _ Hplain answers m C0 P0).
    rewrite Hr0, L0, T0, Hlen. reflexivity.
  - apply percent_full. exact HN.
Qed.

(** Three textures and one model, the model failing. *)
Lemma completion_fires_once_after_all_attempts_witness :
  let answers :=
    [ (stars, Loaded); (platform, Failed "404"); (noise, Loaded);
      (glow, Loaded) ] in
  let m := start true true true [stars; noise; glow; platform] in
  completions (run answers m) = 1 /\
  loadedItems (run answers m) = 4 /\ totalItems (run answers m) = 4.
Proof.
  intros answers m.
  destruct (completion_fires_once_after_all_attempts
              [stars; noise; glow; platform] answers true true)
    as (H1 & _ & H3 & H4 & _).
  - discriminate.
  - simpl. apply perm_skip.
    apply (Permutation_cons_app [noise; glow] [] platform).
    apply Permutation_refl.
  - split; [exact H1 |]. split; [exact H3 | exact H4].
Defined.

(** C10.  The rejection is missed when the only failure is the last
    attempt to be answered.  Three textures load and then the model fails:
    [handleError] runs [updateProgress] first, the count reaches the total,
    the completion wrapper installed by [loadAll] resolves the promise, and
    only afterwards is the asset's promise rejected and passed on to
    [reject], which finds the promise already settled.  The promise of
    [loadAll] is fulfilled, not rejected with the failure's error, although
    an asset failed; the completion callback has fired once. *)
Theorem loadAll_fulfilled_despite_failure :
  let answers :=
    [ (stars, Loaded); (noise, Loaded); (glow, Loaded);
      (platform, Failed "404") ] in
  let final := run answers (start true true true [stars; noise; glow; platform]) in
  existsb is_failure answers = true /\
  promise final = Some Fulfilled /\
  promise final <> Some (Rejected "404") /\
  completions final = 1.
Proof. vm_compute. repeat split; try reflexivity. discriminate. Qed.

(** How the promise of [loadAll] settles in a run with a failure, for every
    queue and every order of answers.  A first failure answered before the
    last attempt rejects the promise with that failure's error, as every
    load's catch(reject) intends.  A first failure answered last reaches
    [reject] too late: the completion wrapper has resolved the promise from
    inside [handleError]; that case is the defect shown above on a concrete
    run.  In both cases the completion callback, if one was given, is called
    once. *)
Lemma loadAll_settles_after_failure
    (items : list QueueItem) (before after : list (QueueItem * Result))
    (item : QueueItem) (error : string) (onProgress onComplete onError : bool) :
  Forall (fun a => snd a = Loaded) before ->
  Permutation (map fst (before ++ (item, Failed error) :: after)) items ->
  let final :=
    run (before ++ (item, Failed error) :: after)
      (start onProgress onComplete onError items) in
  (after <> [] -> promise final = Some (Rejected error)) /\
  (after = [] -> promise final = Some Fulfilled) /\
  completions final = (if onComplete then 1 else 0).
Proof.
  intros Hall Hperm final.
  pose proof (answers_length _ _ Hperm) as Hlen.
  rewrite length_app in Hlen. simpl in Hlen.
  assert (Hne : items <> []).
  { intros ->. simpl in Hlen. lia. }
  set (m := start onProgress onComplete onError items) in *.
  destruct (start_state onProgress onComplete onError items Hne)
    as (L0 & T0 & P0 & C0 & Pr0 & E0).
  fold m in L0, T0, P0, C0, Pr0, E0.
  set (cb := if onComplete then UserCallback else NoCallback) in *.
  assert (Hplain : plain cb).
  { subst cb. destruct onComplete; [right | left]; reflexivity. }
  assert (Hc0 : completions m = 0)
    by (unfold completions; rewrite E0; reflexivity).
  destruct (run_fields _ Hplain before m C0) as (F1 & F2 & F3 & F4).
  assert (C1 : onCompleteCallback (run before m) = LoadAllCallback cb)
    by (rewrite F1; exact C0).
  assert (Pb : promise (run before m) = Some Pending).
  { apply (run_still_pending cb Hplain before m C0 Hall); [| exact Pr0].
    rewrite L0, T0. lia. }
  destruct (settle_step cb Hplain item (Failed error) (run before m) C1)
    as (S1 & _ & S3 & S4 & _ & _ & S7).
  rewrite Pb, F3, F4, L0, T0 in S7. cbv beta iota zeta in S7.
  rewrite Nat.add_0_l in S7.
  assert (C2 : onCompleteCallback
                 (settle item (Failed error) (run before m))
               = LoadAllCallback cb) by (rewrite S1; exact C1).
  assert (Efinal : final
                   = run after (settle item (Failed error) (run before m))).
  { subst final. rewrite run_app. reflexivity. }
  split; [| split].
  - intros Hafter. rewrite Efinal.
    apply (run_settled cb Hplain after _ _ C2); [discriminate |].
    rewrite S7.
    destruct (Nat.eqb_spec (S (length before)) (length items)) as [E | E];
      [| reflexivity].
    destruct after; [contradiction | simpl in Hlen; lia].
  - intros ->. rewrite Efinal. change (run [] ?x) with x. rewrite S7.
    destruct (Nat.eqb_spec (S (length before)) (length items)) as [E | E];
      [reflexivity | simpl in Hlen; lia].
  - subst final.
    rewrite (run_to_last cb Hplain _ m C0).
    + rewrite Hc0. subst cb. destruct onComplete; reflexivity.
    + destruct before; discriminate.
    + rewrite L0, T0, length_app. simpl. exact Hlen.
Qed.

Lemma loadAll_rejected_by_early_failure :
  promise
    (run ([(stars, Loaded)] ++ (platform, Failed "404") :: [(noise, Loaded)])
       (start true true true [stars; noise; platform]))
  = Some (Rejected "404").
Proof.
  apply (loadAll_settles_after_failure [stars; noise; platform]
           [(stars, Loaded)] [(noise, Loaded)] platform "404" true true true).
  - repeat constructor.
  - simpl. apply perm_skip. apply perm_swap.
  - discriminate.
Defined.

End LoaderSpec.

(** ** Further properties of the carousel *)
Module CarouselMore.
Import NumberFacts Carousel CarouselRun.

Lemma abs_gt_cases (x p : Q) : p < Qabs x -> p < x \/ x < - p.
Proof.
  intros H. destruct (Qlt_le_dec x 0) as [Hn | Hp].
  - right. rewrite Qabs_neg in H by lra. lra.
  - left. rewrite Qabs_pos in H by lra. lra.
Qed.

(** The chosen target never reaches a turn and a half. *)
Lemma chosen_target_bounded (r t : Q) :
  Qabs (chosen_target r t) < 3 * Math_PI.
Proof.
  pose proof Math_PI_pos as Hp. pose proof two_pi_pos as Hp2.
  pose proof (rem_abs_lt r _ Hp2) as [Hl Hu].
  pose proof (rem_abs_lt t _ Hp2) as [Hl' Hu'].
  unfold chosen_target.
  set (cur := rem r (Math_PI * 2)) in *.
  set (nt := rem t (Math_PI * 2)) in *.
  destruct (Qlt_le_dec Math_PI _) as [Hfar | Hnear].
  - apply abs_gt_cases in Hfar.
    destruct (Qlt_le_dec 0 _) as [Hpos | Hneg].
    + apply Qabs_Qlt_condition. lra.
    + apply Qabs_Qlt_condition. lra.
  - apply Qabs_Qlt_condition. lra.
Qed.

Lemma section_angle_small (sectionKey : string) (def : SectionDef) :
  SECTION_DEFINITIONS !! sectionKey = Some def ->
  exists a : Q, angle def = Num a /\ Qabs (- a) <= Math_PI.
Proof.
  intros H. apply elem_of_list_to_map_2 in H.
  repeat (apply elem_of_cons in H as [H | H]);
    try (injection H as _ ->; eexists; split; [reflexivity |];
         apply Qabs_Qle_condition; split; vm_compute; discriminate).
  apply elem_of_nil in H. destruct H.
Qed.

Lemma rounded_rotateTo_accepted (fl : Q -> Q) (c : Carousel) (r t : Q)
    (duration : option Q) :
  isLocked c = false -> isAnimating c = false -> rotation c = Num r ->
  let tw := {| tween_rotation := Num (Rounded.chosen_target fl r t);
               tween_duration := default (rotationDuration (settings c)) duration;
               tween_ease := rotationEase (settings c) |} in
  Rounded.rotateTo fl (Num t) duration c = (Some tw, start_tween tw c).
Proof.
  intros HL HA HR. unfold Rounded.rotateTo. rewrite HL, HA, HR. simpl.
  unfold Rounded.chosen_target.
  destruct (Qlt_le_dec Math_PI _); [destruct (Qlt_le_dec 0 _) |]; reflexivity.
Qed.

(** With exact sums the rounded definitions are the ones of the carousel. *)
Lemma rounded_rotateTo_exact (targetAngle : number) (duration : option Q)
    (c : Carousel) :
  Rounded.rotateTo (fun x => x) targetAngle duration c
  = rotateTo targetAngle duration c.
Proof.
  unfold Rounded.rotateTo, rotateTo.
  destruct (isLocked c || isAnimating c); [reflexivity |].
  assert (E : forall a, Rounded.jround (fun x => x) a = a)
    by (intros []; reflexivity).
  rewrite !E. reflexivity.
Qed.

Lemma scale_le (u a b : Q) : 0 <= u -> a <= b -> u * a <= u * b.
Proof.
  intros Hu Hab. rewrite (Qmult_comm u a), (Qmult_comm u b).
  apply Qmult_le_compat_r; assumption.
Qed.

(** An accurate rounding moves a result of at most three half-turns by at
    most [3 * Math.PI * u]. *)
Lemma rounded_near (fl : Q -> Q) (u x : Q) :
  0 <= u -> Rounded.accurate u fl x -> Qabs x <= 3 * Math_PI ->
  - (3 * Math_PI * u) <= fl x - x /\ fl x - x <= 3 * Math_PI * u.
Proof.
  intros Hu Hx Hb. unfold Rounded.accurate in Hx.
  pose proof (scale_le u _ _ Hu Hb) as S.
  apply Qabs_Qle_condition.
  assert (E : 3 * Math_PI * u == u * (3 * Math_PI)) by ring.
  rewrite E. lra.
Qed.

(** For a request of at most half a turn, the target chosen with rounded
    sums is within [Math.PI * (1 + 6 u)] of the wrapped rotation, and within
    [3 * Math.PI * u] of the request moved by no turn or by one. *)
Lemma rounded_target_wrapped (fl : Q -> Q) (u r q : Q) :
  0 <= u -> u <= 1 # 4 ->
  (forall x : Q, Rounded.accurate u fl x) ->
  Qabs q <= Math_PI ->
  Qabs (Rounded.chosen_target fl r q - rem r (Math_PI * 2))
  <= Math_PI * (1 + 6 * u) /\
  exists k : Z,
    (-1 <= k <= 1)%Z /\
    Qabs (Rounded.chosen_target fl r q - (q + Math_PI * 2 * inject_Z k))
    <= 3 * Math_PI * u.
Proof.
  intros Hu Hu4 Hfl Hq. apply Qabs_Qle_condition in Hq.
  pose proof Math_PI_pos as Hp. pose proof two_pi_pos as Hp2.
  pose proof (rem_abs_lt r _ Hp2) as [Hl Hh].
  assert (Eq : rem q (Math_PI * 2) == q) by (apply rem_small; lra).
  assert (W0 : 0 <= Math_PI * u) by (apply Qmult_le_0_compat; lra).
  assert (W1 : Math_PI * u <= Math_PI * (1 # 4)) by (apply scale_le; lra).
  unfold Rounded.chosen_target.
  set (cur := rem r (Math_PI * 2)) in *.
  set (nt := rem q (Math_PI * 2)) in *.
  assert (Bd : Qabs (nt - cur) <= 3 * Math_PI)
    by (apply Qabs_Qle_condition; lra).
  destruct (rounded_near fl u (nt - cur) Hu (Hfl _) Bd) as [D1 D2].
  destruct (Qlt_le_dec Math_PI _) as [Hfar | Hnear].
  - apply abs_gt_cases in Hfar.
    destruct (Qlt_le_dec 0 _) as [Hpos | Hneg].
    + assert (Be : Qabs (nt - Math_PI * 2) <= 3 * Math_PI)
        by (apply Qabs_Qle_condition; lra).
      destruct (rounded_near fl u (nt - Math_PI * 2) Hu (Hfl _) Be)
        as [E1 E2].
      split.
      * apply Qabs_Qle_condition. lra.
      * exists (-1)%Z. split; [lia |].
        change (inject_Z (-1)) with (-1). apply Qabs_Qle_condition. lra.
    + assert (Be : Qabs (nt + Math_PI * 2) <= 3 * Math_PI)
        by (apply Qabs_Qle_condition; lra).
      destruct (rounded_near fl u (nt + Math_PI * 2) Hu (Hfl _) Be)
        as [E1 E2].
      split.
      * apply Qabs_Qle_condition. lra.
      * exists 1%Z. split; [lia |].
        change (inject_Z 1) with 1. apply Qabs_Qle_condition. lra.
  - apply Qabs_Qle_condition in Hnear.
    split.
    + apply Qabs_Qle_condition. lra.
    + exists 0%Z. split; [lia |].
      change (inject_Z 0) with 0. apply Qabs_Qle_condition. lra.
Qed.

(** X1.  [rotateToSection] with the sums of [rotateTo] rounded to doubles.
    For every rounding of relative error at most [u] (at most 1/4; 2^-53
    for doubles), every section of the table and every free carousel with a
    finite rotation [r], the call is accepted: it returns a tween, sets
    [isAnimating] and leaves the rotation as it is.  The target of the
    tween lies within [Math.PI * (1 + 6 u)] of the wrapped rotation
    [r % (2 * Math.PI)], hence of [r] itself while [r] is within one turn
    of zero, and within [3 * Math.PI * u] of the negated section angle
    moved by no turn or by one turn.  A difference that rounds to exactly
    [Math.PI] is not corrected, so the bound [Math.PI] itself can be
    exceeded by the rounding error. *)
Theorem rotateToSection_shortest_arc_within_one_turn
    (fl : Q -> Q) (u : Q) (sectionKey : string) (def : SectionDef)
    (duration : option Q) (c : Carousel) (r : Q) :
  0 <= u -> u <= 1 # 4 ->
  (forall x : Q, Rounded.accurate u fl x) ->
  SECTION_DEFINITIONS !! sectionKey = Some def ->
  isLocked c = false -> isAnimating c = false -> rotation c = Num r ->
  exists (a t : Q) (tw : Tween) (c' : Carousel),
    angle def = Num a /\
    Rounded.rotateToSection fl sectionKey duration c = (Some tw, c') /\
    tween_rotation tw = Num t /\ targetRotation c' = Num t /\
    isAnimating c' = true /\ rotation c' = Num r /\
    Qabs (t - rem r (Math_PI * 2)) <= Math_PI * (1 + 6 * u) /\
    (- (Math_PI * 2) < r -> r < Math_PI * 2 ->
     Qabs (t - r) <= Math_PI * (1 + 6 * u)) /\
    (exists k : Z,
        (-1 <= k <= 1)%Z /\
        Qabs (t - (- a + Math_PI * 2 * inject_Z k)) <= 3 * Math_PI * u).
Proof.
  intros Hu Hu4 Hfl H HL HA HR.
  destruct (section_angle_small _ _ H) as (a & Ea & Hsmall).
  destruct (rounded_target_wrapped fl u r (- a) Hu Hu4 Hfl Hsmall)
    as [W K].
  exists a, (Rounded.chosen_target fl r (- a)). eexists _, _.
  split; [exact Ea |].
  split.
  { unfold Rounded.rotateToSection, get. rewrite H. cbv beta iota zeta.
    unfold angle_of. rewrite Ea. simpl jneg.
    apply (rounded_rotateTo_accepted fl c r (- a) _ HL HA HR). }
  split; [reflexivity |]. split; [reflexivity |].
  split; [reflexivity |]. split; [exact HR |].
  split; [exact W |].
  split; [| exact K].
  intros H1 H2.
  pose proof (rem_small r _ two_pi_pos H1 H2) as E.
  rewrite (Qabs_wd _ (Rounded.chosen_target fl r (- a) - rem r (Math_PI * 2)));
    [exact W |].
  rewrite E. reflexivity.
Qed.

(** The rotation one double beyond -pi/2 and the section at -pi/2: the
    difference of the wrapped angles is [Math.PI + 2^-52], which rounds to
    [Math.PI]; no turn is taken off and the target pi/2 is
    [Math.PI + 2^-52] away from the rotation. *)
Lemma rotateToSection_shortest_arc_within_one_turn_witness :
  let r := - (7074237752028441 # 4503599627370496) in
  let fl :=
    Rounded.exact_except (Math_PI + (1 # 4503599627370496)) Math_PI in
  exists (t : Q) (tw : Tween) (c' : Carousel),
    Rounded.rotateToSection fl "chill-zone" None
      (rotate (Num r) createCarousel)
    = (Some tw, c') /\
    targetRotation c' = Num t /\
    Qabs (t - (0 + r)) <= Math_PI * (1 + 6 * Rounded.unit_roundoff) /\
    t == Math_PI / 2 /\ Math_PI < Qabs (t - (0 + r)).
Proof.
  intros r fl.
  destruct (rotateToSection_shortest_arc_within_one_turn
              fl Rounded.unit_roundoff "chill-zone"
              {| name := "Chill Zone"; color := 0x66ccff;
                 position := (0, 0, 10); angle := Num (- Math_PI / 2);
                 interactive := true |}
              None (rotate (Num r) createCarousel) (0 + r))
    as (a & t & tw & c' & _ & E & _ & Ht & _ & _ & _ & Hnear & _);
    try reflexivity; try (vm_compute; discriminate).
  - intros x. unfold Rounded.accurate, fl, Rounded.exact_except.
    destruct (Qeq_bool x _) eqn:Ex.
    + apply Qeq_bool_iff in Ex.
      rewrite (Qabs_wd _ (- (1 # 4503599627370496)))
        by (rewrite Ex; ring).
      rewrite (Qabs_wd x _ Ex). vm_compute. discriminate.
    + rewrite (Qabs_wd _ 0) by ring.
      apply Qmult_le_0_compat; [vm_compute; discriminate | apply Qabs_nonneg].
  - exists t, tw, c'. split; [exact E |]. split; [exact Ht |].
    split; [apply Hnear; reflexivity |].
    vm_compute in E. injection E as _ <-.
    cbn [targetRotation] in Ht. injection Ht as <-.
    split; vm_compute; reflexivity.
Defined.

Lemma update_at_rest (c : Carousel) (x y : Q) :
  rotation c = Num x -> targetRotation c = Num y ->
  Qabs (x - y) <= 1 # 1000 -> update c = c.
Proof.
  intros Hr Ht Hgap. unfold update. rewrite Hr, Ht.
  destruct (isLocked c); [reflexivity |].
  destruct (isAnimating c); [reflexivity |].
  unfold jsub, jabs, jgt. cbn [negb andb].
  destruct (Qlt_le_dec (1 # 1000) (Qabs (x - y))) as [Hgt | Hle];
    [| reflexivity].
  exfalso. lra.
Qed.

Lemma below_numerator (q : Q) : 0 <= q -> q <= inject_Z (Qnum q).
Proof.
  destruct q as [n d]. unfold Qle. simpl. nia.
Qed.

Lemma update_moving (c : Carousel) (x y : Q) :
  isLocked c = false -> isAnimating c = false ->
  rotation c = Num x -> targetRotation c = Num y ->
  1 # 1000 < Qabs (x - y) ->
  update c = set_rotation (Num (x + (y - x) * (1 # 10))) c.
Proof.
  intros HL HA Hr Ht Hgap. unfold update. rewrite HL, HA, Hr, Ht.
  unfold jsub, jabs, jgt, jadd, jmul. cbn [negb andb].
  destruct (Qlt_le_dec (1 # 1000) (Qabs (x - y))) as [Hgt | Hle];
    [reflexivity |].
  exfalso. lra.
Qed.

Lemma gap_after_update (x y : Q) :
  Qabs (x + (y - x) * (1 # 10) - y) == Qabs (x - y) * (9 # 10).
Proof.
  assert (E : x + (y - x) * (1 # 10) - y == (x - y) * (9 # 10)) by ring.
  rewrite E, Qabs_Qmult. reflexivity.
Qed.

Lemma settles_within (k : nat) :
  forall (c : Carousel) (x y : Q),
    isLocked c = false -> isAnimating c = false ->
    rotation c = Num x -> targetRotation c = Num y ->
    Qabs (x - y) <= (1 # 1000) + inject_Z (Z.of_nat k) * (1 # 10000) ->
    exists (n : nat) (x' : Q),
      (n <= k)%nat /\
      rotation (frames n c) = Num x' /\
      targetRotation (frames n c) = Num y /\
      Qabs (x' - y) <= 1 # 1000 /\ Qabs (x' - y) <= Qabs (x - y) /\
      update (frames n c) = frames n c.
Proof.
  induction k as [| k IH]; intros c x y HL HA Hr Ht Hgap.
  - exists 0%nat, x. change (inject_Z (Z.of_nat 0)) with 0 in Hgap.
    assert (G : Qabs (x - y) <= 1 # 1000) by lra.
    repeat split; try assumption; try lra; try lia.
    apply (update_at_rest c x y Hr Ht G).
  - destruct (Qlt_le_dec (1 # 1000) (Qabs (x - y))) as [Hfar | Hnear].
    + pose proof (update_moving c x y HL HA Hr Ht Hfar) as E.
      pose proof (gap_after_update x y) as G.
      rewrite Nat2Z.inj_succ in Hgap. unfold Z.succ in Hgap.
      rewrite inject_Z_plus in Hgap. change (inject_Z 1) with 1 in Hgap.
      destruct (IH (update c) (x + (y - x) * (1 # 10)) y)
        as (n & x' & Hn & R & T & G1 & G2 & U).
      * rewrite E. exact HL.
      * rewrite E. exact HA.
      * rewrite E. reflexivity.
      * rewrite E. exact Ht.
      * rewrite G. lra.
      * exists (S n), x'. unfold frames in *.
        rewrite Nat.iter_succ_r.
        repeat split; try assumption; try lia. rewrite G in G2. lra.
    + exists 0%nat, x. repeat split; try assumption; try lra; try lia.
      apply (update_at_rest c x y Hr Ht Hnear).
Qed.

(** X2.  Left alone (not locked, not animating), the carousel is pulled
    to its target by [update]: a frame that starts more than 0.001 from the
    target closes one tenth of the gap, and after finitely many frames the
    rotation is within 0.001 of the target, where [update] leaves it. *)
Theorem update_settles_on_target (c : Carousel) (x y : Q) :
  isLocked c = false -> isAnimating c = false ->
  rotation c = Num x -> targetRotation c = Num y ->
  (1 # 1000 < Qabs (x - y) ->
   exists x1 : Q,
     rotation (update c) = Num x1 /\ group_rotation_y (update c) = Num x1 /\
     x1 - y == (x - y) * (9 # 10)) /\
  exists (n : nat) (x' : Q),
    rotation (frames n c) = Num x' /\
    targetRotation (frames n c) = Num y /\
    Qabs (x' - y) <= 1 # 1000 /\ Qabs (x' - y) <= Qabs (x - y) /\
    update (frames n c) = frames n c.
Proof.
  intros HL HA Hr Ht. split.
  - intros Hfar. rewrite (update_moving c x y HL HA Hr Ht Hfar).
    eexists. split; [reflexivity |]. split; [reflexivity |]. ring.
  - set (g := Qabs (x - y) * 10000).
    set (k := Z.to_nat (Qnum g)).
    destruct (settles_within k c x y HL HA Hr Ht)
      as (n & x' & _ & R & T & G1 & G2 & U).
    + assert (G0 : 0 <= g).
      { subst g. pose proof (Qabs_nonneg (x - y)). lra. }
      pose proof (below_numerator g G0) as C.
      assert (K : inject_Z (Qnum g) <= inject_Z (Z.of_nat k)).
      { rewrite <- Zle_Qle. subst k. lia. }
      subst g. lra.
    + exists n, x'. repeat split; assumption.
Qed.

Lemma update_settles_on_target_witness :
  exists (n : nat) (x' : Q),
    rotation (frames n (rotate (Num 1) createCarousel)) = Num x' /\
    Qabs (x' - 0) <= 1 # 1000.
Proof.
  destruct (update_settles_on_target (rotate (Num 1) createCarousel)
              (0 + 1) 0)
    as (_ & n & x' & R & _ & G & _); try reflexivity.
  exists n, x'. split; [exact R | exact G].
Defined.

(** X3.  Whatever the finite rotation and the finite request, the target of
    an accepted [rotateTo] is less than three half-turns from zero; when
    the tween has run to its end the rotation and the rotation of the group
    are that target, the carousel is no longer animating and the next
    [update] changes nothing. *)
Theorem rotateTo_target_below_three_pi (c : Carousel) (r t : Q)
    (duration : option Q) :
  isLocked c = false -> isAnimating c = false -> rotation c = Num r ->
  exists (x : Q) (tw : Tween) (c' : Carousel),
    rotateTo (Num t) duration c = (Some tw, c') /\
    targetRotation c' = Num x /\ tween_rotation tw = Num x /\
    Qabs x < 3 * Math_PI /\
    let finished := tween_complete tw c' in
    rotation finished = Num x /\ group_rotation_y finished = Num x /\
    isAnimating finished = false /\ update finished = finished.
Proof.
  intros HL HA HR.
  pose proof (CarouselSpec.rotateTo_accepted c r t duration HL HA HR) as E.
  cbn zeta in E.
  exists (chosen_target r t). eexists _, _.
  split; [exact E |].
  split; [reflexivity |]. split; [reflexivity |].
  split; [apply chosen_target_bounded |].
  cbn zeta. split; [reflexivity |]. split; [reflexivity |].
  split; [reflexivity |].
  apply (update_at_rest _ (chosen_target r t) (chosen_target r t));
    try reflexivity.
  apply Qabs_Qle_condition. lra.
Qed.

Lemma rotateTo_target_below_three_pi_witness :
  exists (x : Q) (tw : Tween) (c' : Carousel),
    rotateTo (Num 100) None (rotate (Num 50) createCarousel) = (Some tw, c') /\
    targetRotation c' = Num x /\ Qabs x < 3 * Math_PI.
Proof.
  destruct (rotateTo_target_below_three_pi (rotate (Num 50) createCarousel)
              (0 + 50) 100 None)
    as (x & tw & c' & E & Ht & _ & Hb & _); try reflexivity.
  exists x, tw, c'. split; [exact E |]. split; [exact Ht | exact Hb].
Defined.

(** [rotateTo] either leaves the carousel as it is or starts a tween. *)
Lemma rotateTo_cases (targetAngle : number) (duration : option Q)
    (c : Carousel) :
  rotateTo targetAngle duration c = (None, c) \/
  (isLocked c = false /\ isAnimating c = false /\
   exists tw : Tween,
     rotateTo targetAngle duration c = (Some tw, start_tween tw c)).
Proof.
  unfold rotateTo.
  destruct (isLocked c); [left; reflexivity |].
  destruct (isAnimating c); [left; reflexivity |].
  right. split; [reflexivity |]. split; [reflexivity |].
  eexists. reflexivity.
Qed.

Lemma rotateToSection_cases (sectionKey : string) (duration : option Q)
    (c : Carousel) :
  (exists msg : string,
      rotateToSection sectionKey duration c = (None, warn msg c)) \/
  rotateToSection sectionKey duration c = (None, c) \/
  (isLocked c = false /\ isAnimating c = false /\
   exists tw : Tween,
     rotateToSection sectionKey duration c = (Some tw, start_tween tw c)).
Proof.
  unfold rotateToSection.
  destruct (get SECTION_DEFINITIONS sectionKey) as [def | |].
  - right. apply rotateTo_cases.
  - right. apply rotateTo_cases.
  - left. eexists. reflexivity.
Qed.

Lemma perform_in_step (a : Action) (c : Carousel) :
  in_step c -> in_step (perform a c).
Proof.
  intros (I1 & I2 & I3). destruct a as [amount | ta d | key d | | b | tw];
    simpl.
  - unfold rotate. destruct (isLocked c); [repeat split; assumption |].
    repeat split; assumption.
  - destruct (rotateTo_cases ta d c) as [E | (HL & HA & tw & E)];
      rewrite E; simpl.
    + repeat split; assumption.
    + repeat split; try assumption; try reflexivity. discriminate.
  - destruct (rotateToSection_cases key d c)
      as [[msg E] | [E | (HL & HA & tw & E)]]; rewrite E; simpl.
    + repeat split; assumption.
    + repeat split; assumption.
    + repeat split; try assumption; try reflexivity. discriminate.
  - unfold update. destruct (isLocked c); [repeat split; assumption |].
    destruct (_ && _); repeat split; assumption.
  - repeat split; assumption.
  - split; [reflexivity |]. split; [exact I2 |]. simpl. discriminate.
Qed.

(** X4.  After any sequence of calls and tween completions on a new
    carousel, the rotation of the platform group equals [state.rotation],
    [state.targetRotation] is the end value of the tween created last (0
    when none was), and an animating carousel has a tween. *)
Theorem carousel_stays_in_step (actions : list Action) :
  let c := perform_all actions createCarousel in
  group_rotation_y c = rotation c /\
  targetRotation c
  = match tweens c with
    | tw :: _ => tween_rotation tw
    | [] => Num 0
    end /\
  (isAnimating c = true -> tweens c <> []).
Proof.
  cbn zeta. unfold perform_all.
  assert (G : forall c, in_step c ->
                 in_step (fold_left (fun acc a => perform a acc) actions c)).
  { induction actions as [| a l IH]; intros c Hc; simpl; [exact Hc |].
    apply IH. apply perform_in_step. exact Hc. }
  apply (G createCarousel).
  split; [reflexivity |]. split; [reflexivity |]. discriminate.
Qed.

(** X5.  A locked carousel is frozen: no sequence of [rotate], [rotateTo],
    [rotateToSection] and [update] calls changes its rotation, target,
    flags or tweens. *)
Theorem locked_carousel_is_frozen (actions : list Action) (c : Carousel) :
  isLocked c = true -> forallb is_request actions = true ->
  let c' := perform_all actions c in
  rotation c' = rotation c /\ targetRotation c' = targetRotation c /\
  group_rotation_y c' = group_rotation_y c /\
  isAnimating c' = isAnimating c /\ isLocked c' = true /\
  rotationVelocity c' = rotationVelocity c /\ tweens c' = tweens c.
Proof.
  cbn zeta. revert c.
  induction actions as [| a l IH]; intros c HL Hreq; simpl.
  - repeat split; try reflexivity. exact HL.
  - simpl in Hreq. apply andb_true_iff in Hreq as [Ha Hl].
    assert (S : rotation (perform a c) = rotation c
                /\ targetRotation (perform a c) = targetRotation c
                /\ group_rotation_y (perform a c) = group_rotation_y c
                /\ isAnimating (perform a c) = isAnimating c
                /\ isLocked (perform a c) = true
                /\ rotationVelocity (perform a c) = rotationVelocity c
                /\ tweens (perform a c) = tweens c).
    { destruct a as [amount | ta d | key d | | b | tw]; simpl;
        try discriminate Ha.
      - unfold rotate. rewrite HL. repeat split; try reflexivity. exact HL.
      - rewrite (CarouselSpec.rotateTo_rejected c ta d (or_introl HL)).
        repeat split; try reflexivity. exact HL.
      - unfold rotateToSection.
        destruct (get SECTION_DEFINITIONS key);
          try rewrite (CarouselSpec.rotateTo_rejected c _ _ (or_introl HL));
          simpl; repeat split; try reflexivity; exact HL.
      - unfold update. rewrite HL. repeat split; try reflexivity. exact HL. }
    destruct S as (S1 & S2 & S3 & S4 & S5 & S6 & S7).
    destruct (IH (perform a c) S5 Hl) as (H1 & H2 & H3 & H4 & H5 & H6 & H7).
    unfold perform_all in *.
    rewrite H1, H2, H3, H4, H5, H6, H7, S1, S2, S3, S4, S6, S7.
    repeat split; reflexivity.
Qed.

Lemma locked_carousel_is_frozen_witness :
  rotation
    (perform_all [Rotate (Num 1); RotateToSection "skill-planet" None; Update]
       (setLocked true createCarousel))
  = Num 0.
Proof.
  apply (locked_carousel_is_frozen
           [Rotate (Num 1); RotateToSection "skill-planet" None; Update]
           (setLocked true createCarousel)); reflexivity.
Defined.

End CarouselMore.

(** ** The math utilities *)
Module MathSpec.
Import NumberFacts MathMore.

(** With exact sums and no overflow the rounded definition is
    [shortestArc] of the math utilities. *)
Lemma rounded_shortestArc_exact (start finish : number) :
  Rounded.shortestArc (fun x => x) (fun _ => false) start finish
  = MathUtils.shortestArc start finish.
Proof.
  unfold Rounded.shortestArc, MathUtils.shortestArc.
  destruct start as [s |], finish as [e |]; reflexivity.
Qed.

Lemma scaled_le (u a b : Q) : 0 <= u -> a <= b -> u * a <= u * b.
Proof.
  intros Hu Hab. rewrite (Qmult_comm u a), (Qmult_comm u b).
  apply Qmult_le_compat_r; assumption.
Qed.

(** The arc computed when [end - start] is within the doubles. *)
Lemma rounded_shortestArc_finite (fl : Q -> Q) (overflows : Q -> bool)
    (s e : Q) :
  overflows (e - s) = false ->
  Rounded.shortestArc fl overflows (Num s) (Num e)
  = Num (let diff := rem (fl (e - s)) (Math_PI * 2) in
         if Qlt_le_dec diff (- Math_PI) then fl (diff + Math_PI * 2)
         else if Qlt_le_dec Math_PI diff then fl (diff - Math_PI * 2)
         else diff).
Proof.
  intros Ho. unfold Rounded.shortestArc, jlt. cbn [jsub]. rewrite Ho.
  simpl.
  destruct (Qlt_le_dec _ (- Math_PI)); [reflexivity |].
  destruct (Qlt_le_dec Math_PI _); reflexivity.
Qed.

(** X6.  [shortestArc] with its sums rounded to doubles, on finite start
    and end angles.  When [end - start] overflows the result is [NaN].
    Otherwise, for every rounding of relative error at most [u], the result
    is a number of absolute value at most [Math.PI * (1 + u)], and it
    differs from [end - start] moved by whole turns by at most
    [u * (|end - start| + Math.PI)]: the error of the first subtraction
    and that of the correcting sum. *)
Theorem shortestArc_short_and_congruent
    (fl : Q -> Q) (overflows : Q -> bool) (u s e : Q) :
  0 <= u ->
  (forall x : Q, overflows x = false -> Rounded.accurate u fl x) ->
  (forall x : Q, Qabs x <= Math_PI -> overflows x = false) ->
  (overflows (e - s) = true ->
   Rounded.shortestArc fl overflows (Num s) (Num e) = NaN) /\
  (overflows (e - s) = false ->
   exists d : Q,
     Rounded.shortestArc fl overflows (Num s) (Num e) = Num d /\
     Qabs d <= Math_PI * (1 + u) /\
     exists k : Z,
       Qabs (d - (e - s + Math_PI * 2 * inject_Z k))
       <= u * (Qabs (e - s) + Math_PI)).
Proof.
  intros Hu Hfl Hsmall.
  split; intros Ho.
  { unfold Rounded.shortestArc. cbn [jsub]. rewrite Ho. reflexivity. }
  rewrite (rounded_shortestArc_finite fl overflows s e Ho). cbv zeta.
  pose proof (Hfl _ Ho) as Hx. unfold Rounded.accurate in Hx.
  apply Qabs_Qle_condition in Hx.
  pose proof (rem_abs_lt (fl (e - s)) _ two_pi_pos) as [Hl Hh].
  destruct (rem_congruent (fl (e - s)) (Math_PI * 2)) as [k Hk].
  pose proof Math_PI_pos as Hp.
  assert (W0 : 0 <= u * Math_PI) by (apply Qmult_le_0_compat; lra).
  assert (A0 : 0 <= u * Qabs (e - s))
    by (apply Qmult_le_0_compat; [lra | apply Qabs_nonneg]).
  set (d := rem (fl (e - s)) (Math_PI * 2)) in *.
  destruct (Qlt_le_dec d (- Math_PI)) as [H1 | H1];
    [| destruct (Qlt_le_dec Math_PI d) as [H2 | H2]].
  - assert (By : Qabs (d + Math_PI * 2) <= Math_PI)
      by (apply Qabs_Qle_condition; lra).
    pose proof (Hfl _ (Hsmall _ By)) as Hy. unfold Rounded.accurate in Hy.
    pose proof (scaled_le u _ _ Hu By) as Sy.
    apply Qabs_Qle_condition in Hy. apply Qabs_Qle_condition in By.
    eexists. split; [reflexivity |].
    split; [apply Qabs_Qle_condition; lra |].
    exists (k + 1)%Z. rewrite inject_Z_plus. change (inject_Z 1) with 1.
    apply Qabs_Qle_condition. lra.
  - assert (By : Qabs (d - Math_PI * 2) <= Math_PI)
      by (apply Qabs_Qle_condition; lra).
    pose proof (Hfl _ (Hsmall _ By)) as Hy. unfold Rounded.accurate in Hy.
    pose proof (scaled_le u _ _ Hu By) as Sy.
    apply Qabs_Qle_condition in Hy. apply Qabs_Qle_condition in By.
    eexists. split; [reflexivity |].
    split; [apply Qabs_Qle_condition; lra |].
    exists (k + - (1))%Z. rewrite inject_Z_plus, inject_Z_opp.
    change (inject_Z 1) with 1.
    apply Qabs_Qle_condition. lra.
  - eexists. split; [reflexivity |].
    split; [apply Qabs_Qle_condition; lra |].
    exists k. apply Qabs_Qle_condition. lra.
Qed.

(** The doubles -1e308 and 1e308 (5010420900022432 * 2^971): their
    difference is beyond the doubles and the arc is [NaN]. *)
Lemma shortestArc_short_and_congruent_witness :
  let big := inject_Z (5010420900022432 * 2 ^ 971) in
  Rounded.shortestArc (fun x => x) Rounded.beyond_doubles
    (Num (- big)) (Num big)
  = NaN.
Proof.
  intros big.
  apply (shortestArc_short_and_congruent (fun x => x) Rounded.beyond_doubles
           Rounded.unit_roundoff).
  - vm_compute. discriminate.
  - intros x _. unfold Rounded.accurate.
    rewrite (Qabs_wd _ 0) by ring.
    apply Qmult_le_0_compat; [vm_compute; discriminate | apply Qabs_nonneg].
  - intros x Hx. unfold Rounded.beyond_doubles.
    destruct (Qlt_le_dec _ _) as [_ | Hbig]; [reflexivity |].
    exfalso.
    assert (B : Math_PI < inject_Z (2 ^ 1024 - 2 ^ 970))
      by (vm_compute; reflexivity).
    apply (Qlt_irrefl Math_PI).
    eapply Qlt_le_trans; [exact B |].
    eapply Qle_trans; [exact Hbig | exact Hx].
  - vm_compute. reflexivity.
Defined.

(** X7.  [clamp] on finite numbers: the result is never below [min]; with
    [min <= max] it is not above [max], a value inside the range is
    returned as it is and one outside is moved to the nearer bound; with
    [min > max] the result is [min] whatever the value.  A [NaN] value gives
    [NaN]. *)
Theorem clamp_bounds (v lo hi : Q) :
  clamp NaN (Num lo) (Num hi) = NaN /\
  exists x : Q,
    clamp (Num v) (Num lo) (Num hi) = Num x /\
    lo <= x /\
    (lo <= hi -> x <= hi) /\
    (lo <= v -> v <= hi -> x == v) /\
    (v <= lo -> x == lo) /\
    (lo <= hi -> hi <= v -> x == hi) /\
    (hi < lo -> x == lo) /\
    clamp (Num x) (Num lo) (Num hi) =n= Num x.
Proof.
  split; [reflexivity |].
  unfold clamp, jmin.
  destruct (Qlt_le_dec v hi) as [A | A]; unfold jmax;
    match goal with
    | |- context [Qlt_le_dec lo ?m] => destruct (Qlt_le_dec lo m) as [B | B]
    end;
    (eexists; split; [reflexivity |]);
    unfold jmin, jmax, eqn;
    repeat match goal with
      | |- context [Qlt_le_dec ?a ?b] => destruct (Qlt_le_dec a b)
      | H : context [Qlt_le_dec ?a ?b] |- _ => destruct (Qlt_le_dec a b)
      end;
    repeat split; intros; lra.
Qed.

Lemma clamp_bounds_witness :
  exists x : Q, clamp (Num 7) (Num 0) (Num 1) = Num x /\ x == 1.
Proof.
  destruct (proj2 (clamp_bounds 7 0 1)) as (x & E & _ & _ & _ & _ & H & _).
  exists x. split; [exact E |]. apply H; discriminate.
Defined.

Lemma closest_from_spec {Point : Type} (distanceTo : Point -> Point -> Q)
    (target : Point) (rest : list Point) :
  forall (pre : list Point) (k : nat) (p : Point),
    pre !! k = Some p ->
    first_closest distanceTo target pre k ->
    exists r : nat,
      closest_from distanceTo target rest (Z.of_nat (length pre))
        (Some (distanceTo target p)) (Z.of_nat k) = Z.of_nat r /\
      first_closest distanceTo target (pre ++ rest) r.
Proof.
  induction rest as [| x rest IH]; intros pre k p Hp Hk.
  - exists k. split; [reflexivity |]. now rewrite app_nil_r.
  - cbn [closest_from]. cbv zeta.
    replace (Z.of_nat (length pre) + 1)%Z
      with (Z.of_nat (length (pre ++ [x])))
      by (rewrite length_app; cbn [length]; lia).
    replace (pre ++ x :: rest) with ((pre ++ [x]) ++ rest)
      by (now rewrite <- app_assoc).
    destruct Hk as (p' & Hp' & Hmin & Hfirst).
    assert (p' = p) as -> by congruence.
    pose proof (lookup_lt_Some _ _ _ Hp) as Hlt.
    destruct (Qlt_le_dec (distanceTo target x) (distanceTo target p)) as [C | C].
    + apply IH.
      * rewrite lookup_app_r by lia. now rewrite Nat.sub_diag.
      * exists x. split; [| split].
        -- rewrite lookup_app_r by lia. now rewrite Nat.sub_diag.
        -- intros j q Hq. apply lookup_app_Some in Hq as [Hq | [Hj Hq]].
           ++ specialize (Hmin j q Hq). lra.
           ++ apply list_lookup_singleton_Some in Hq as [_ <-]. lra.
        -- intros j q Hj Hq. rewrite lookup_app_l in Hq by lia.
           specialize (Hmin j q Hq). lra.
    + apply IH.
      * now rewrite lookup_app_l by lia.
      * exists p. split; [| split].
        -- now rewrite lookup_app_l by lia.
        -- intros j q Hq. apply lookup_app_Some in Hq as [Hq | [Hj Hq]].
           ++ exact (Hmin j q Hq).
           ++ apply list_lookup_singleton_Some in Hq as [_ <-]. exact C.
        -- intros j q Hj Hq. rewrite lookup_app_l in Hq by lia.
           exact (Hfirst j q Hj Hq).
Qed.

(** X8.  [getClosestPointIndex] returns [-1] for an empty array; for any
    other array it returns the index of a point that is at least as close
    to the target as every point of the array, and strictly closer than
    every point before it (of equally close points the first wins). *)
Theorem getClosestPointIndex_first_minimum {Point : Type}
    (distanceTo : Point -> Point -> Q) (target : Point) (points : list Point) :
  getClosestPointIndex distanceTo target [] = (-1)%Z /\
  (points <> [] ->
   exists r : nat,
     getClosestPointIndex distanceTo target points = Z.of_nat r /\
     first_closest distanceTo target points r).
Proof.
  split; [reflexivity |].
  destruct points as [| x rest]; [congruence | intros _].
  unfold getClosestPointIndex. cbn [closest_from]. cbv zeta.
  apply (closest_from_spec distanceTo target rest [x] 0%nat x).
  - reflexivity.
  - exists x. split; [reflexivity | split].
    + intros [| j] q Hq; [injection Hq as <-; lra | discriminate].
    + intros j q Hj; lia.
Qed.

Lemma getClosestPointIndex_first_minimum_witness :
  exists r : nat,
    getClosestPointIndex (fun a b : Q => Qabs (a - b)) 5 [1; 4; 9; 6; 4]
      = Z.of_nat r /\
    first_closest (fun a b : Q => Qabs (a - b)) 5 [1; 4; 9; 6; 4] r.
Proof.
  apply (getClosestPointIndex_first_minimum (fun a b : Q => Qabs (a - b)) 5
           [1; 4; 9; 6; 4]).
  discriminate.
Defined.

Lemma easeOutBounce_unit (t : Q) :
  0 <= t -> t <= 1 -> 0 <= easeOutBounce t <= 1.
Proof.
  intros H0 H1. unfold easeOutBounce. cbv zeta.
  change (1 / (275 # 100)) with (100 # 275).
  change (2 / (275 # 100)) with (200 # 275).
  change ((25 # 10) / (275 # 100)) with (2500 # 2750).
  change ((15 # 10) / (275 # 100)) with (1500 # 2750).
  change ((225 # 100) / (275 # 100)) with (22500 # 27500).
  change ((2625 # 1000) / (275 # 100)) with (262500 # 275000).
  assert (sq : forall u, 0 <= (75625 # 10000) * u * u).
  { intros u. nra. }
  assert (le_sq : forall u b, - b <= u -> u <= b ->
            (75625 # 10000) * u * u <= (75625 # 10000) * b * b).
  { intros u b A B. nra. }
  destruct (Qlt_le_dec t (100 # 275));
    [| destruct (Qlt_le_dec t (200 # 275));
       [| destruct (Qlt_le_dec t (2500 # 2750))]].
  - pose proof (sq t). pose proof (le_sq t (100 # 275)).
    split; [lra |]. 
    assert ((75625 # 10000) * (100 # 275) * (100 # 275) == 1) by reflexivity.
    lra.
  - pose proof (sq (t - (1500 # 2750))).
    pose proof (le_sq (t - (1500 # 2750)) (2 # 11)).
    assert ((75625 # 10000) * (2 # 11) * (2 # 11) == 1 # 4) by reflexivity.
    lra.
  - pose proof (sq (t - (22500 # 27500))).
    pose proof (le_sq (t - (22500 # 27500)) (1 # 11)).
    assert ((75625 # 10000) * (1 # 11) * (1 # 11) == 1 # 16) by reflexivity.
    lra.
  - pose proof (sq (t - (262500 # 275000))).
    pose proof (le_sq (t - (262500 # 275000)) (1 # 22)).
    assert ((75625 # 10000) * (1 # 22) * (1 # 22) == 1 # 64) by reflexivity.
    lra.
Qed.

(** X9.  The cubic easing functions and the bounce easing map the unit
    interval into itself and keep its end points; [easeOut] is [easeIn]
    mirrored, and [easeInOut] is symmetric about the centre ([+], [-], [*]
    and [/] taken exactly). *)
Theorem easing_on_unit_interval (t : Q) :
  0 <= t -> t <= 1 ->
  (0 <= easeIn t <= 1) /\ (0 <= easeOut t <= 1) /\
  (0 <= easeInOut t <= 1) /\ (0 <= easeOutBounce t <= 1) /\
  easeIn 0 == 0 /\ easeIn 1 == 1 /\ easeOut 0 == 0 /\ easeOut 1 == 1 /\
  easeInOut 0 == 0 /\ easeInOut 1 == 1 /\
  easeOutBounce 0 == 0 /\ easeOutBounce 1 == 1 /\
  easeOut t == 1 - easeIn (1 - t) /\
  easeInOut (1 - t) == 1 - easeInOut t.
Proof.
  intros H0 H1.
  assert (cube_unit : forall u, 0 <= u -> u <= 1 -> 0 <= u * u * u <= 1).
  { intros u A B. split; nra. }
  repeat match goal with |- _ /\ _ => split end;
    try (vm_compute; reflexivity).
  - apply cube_unit; assumption.
  - apply cube_unit; assumption.
  - unfold easeOut, cube. destruct (cube_unit (1 - t)); lra.
  - unfold easeOut, cube. destruct (cube_unit (1 - t)); lra.
  - unfold easeInOut, cube. destruct (Qlt_le_dec t (5 # 10)).
    + destruct (cube_unit (2 * t)); lra.
    + change (?x / 2) with (x * (1 # 2)).
      destruct (cube_unit (- (2) * t + 2)); lra.
  - unfold easeInOut, cube. destruct (Qlt_le_dec t (5 # 10)).
    + destruct (cube_unit (2 * t)); lra.
    + change (?x / 2) with (x * (1 # 2)).
      destruct (cube_unit (- (2) * t + 2)); lra.
  - apply easeOutBounce_unit; assumption.
  - apply easeOutBounce_unit; assumption.
  - unfold easeInOut, cube.
    destruct (Qlt_le_dec (1 - t) (5 # 10)), (Qlt_le_dec t (5 # 10));
      change (?x / 2) with (x * (1 # 2)); try lra; try ring.
    assert (t == 1 # 2) as -> by lra. reflexivity.
Qed.

Lemma easing_on_unit_interval_witness :
  0 <= easeOutBounce (1 # 2) <= 1 /\ easeOut (1 # 2) == 1 - easeIn (1 - (1 # 2)).
Proof.
  pose proof (easing_on_unit_interval (1 # 2)) as H.
  destruct H as (_ & _ & _ & Hb & _ & _ & _ & _ & _ & _ & _ & _ & Ho & _);
    [discriminate | discriminate |].
  split; [exact Hb | exact Ho].
Defined.

End MathSpec.

(** ** More of the camera system *)
Module CameraMore.
Import CameraSystem.

Lemma table_presets (sectionName : string) (preset : SectionSettings) :
  SECTION_CAMERA_SETTINGS !! sectionName = Some preset ->
  (fov preset = 75 \/ fov preset = 60) /\
  exists orbit, orbitControls preset = Some orbit /\
    s_enableDamping orbit = None /\ s_dampingFactor orbit = None /\
    s_rotateSpeed orbit = None /\ s_autoRotate orbit = None /\
    s_autoRotateSpeed orbit = None /\ s_enablePan orbit = Some false.
Proof.
  intros H. apply elem_of_list_to_map_2 in H.
  repeat (apply elem_of_cons in H as [H | H]);
    try (injection H as _ ->; split; [auto |];
         eexists; repeat split; reflexivity).
  apply elem_of_nil in H. destruct H.
Qed.

Lemma lookup_own (sectionName : string) (preset : SectionSettings) :
  SECTION_CAMERA_SETTINGS !! sectionName = Some preset ->
  get SECTION_CAMERA_SETTINGS sectionName = Own preset.
Proof. intros H. unfold get. now rewrite H. Qed.

(** X10.  For a section of the preset table and any camera state, once the
    timeline of [transitionToSection] has run to its end the field of view
    is the preset's, the stored current state is the state the camera ended
    in, panning is off, and the damping, rotate-speed and auto-rotate
    settings of the orbit controls, which no preset defines, are what they
    were before the call. *)
Theorem completed_transition_fov_and_kept_settings (sectionName : string)
    (preset : SectionSettings) (duration : option Q)
    (easing : option string) (cam : Camera) :
  SECTION_CAMERA_SETTINGS !! sectionName = Some preset ->
  exists (tl : Timeline) (cam1 : Camera),
    transitionToSection sectionName duration easing cam = (Returned tl, cam1) /\
    enabled (controls cam1) = false /\
    activeTransition cam1 = Some tl /\
    let cam2 := timeline_complete tl cam1 in
    camera_fov cam2 == fov preset /\
    cs_position (currentState cam2) = position preset /\
    cs_target (currentState cam2) = lookAt preset /\
    cs_fov (currentState cam2) = camera_fov cam2 /\
    enablePan (controls cam2) = false /\
    enableDamping (controls cam2) = enableDamping (controls cam) /\
    dampingFactor (controls cam2) = dampingFactor (controls cam) /\
    rotateSpeed (controls cam2) = rotateSpeed (controls cam) /\
    autoRotate (controls cam2) = autoRotate (controls cam) /\
    autoRotateSpeed (controls cam2) = autoRotateSpeed (controls cam) /\
    isLocked cam2 = isLocked cam /\
    console cam2 = console cam.
Proof.
  intros H.
  destruct (table_presets _ _ H)
    as (Hf & orbit & Ho & E1 & E2 & E3 & E4 & E5 & E6).
  unfold transitionToSection. rewrite (lookup_own _ _ H).
  unfold run_transition. eexists _, _.
  split; [reflexivity |]. split; [reflexivity |]. split; [reflexivity |].
  unfold timeline_complete, on_transition_complete.
  cbn -[Qeq_bool is_zero]. rewrite Ho.
  cbn -[Qeq_bool is_zero]. rewrite E1, E2, E3, E4, E5, E6.
  cbn -[Qeq_bool is_zero].
  split; [| repeat split; reflexivity].
  destruct (Qeq_bool (fov preset) (camera_fov cam)) eqn:Q.
  - rewrite andb_false_r. cbn. apply Qeq_bool_iff in Q. now symmetry.
  - destruct Hf as [-> | ->]; reflexivity.
Qed.

Lemma completed_transition_fov_and_kept_settings_witness :
  exists (tl : Timeline) (cam1 : Camera),
    transitionToSection "chill-zone" None None createCameraSystem
    = (Returned tl, cam1) /\
    camera_fov (timeline_complete tl cam1) == 60 /\
    rotateSpeed (controls (timeline_complete tl cam1)) = 5 # 10.
Proof.
  destruct (completed_transition_fov_and_kept_settings "chill-zone"
              {| position := vec 0 5 12; lookAt := vec 0 5 7; fov := 60;
                 orbitControls := Some section_orbit |}
              None None createCameraSystem)
    as (tl & cam1 & E & _ & _ & Hf & _ & _ & _ & _ & _ & _ & Hr & _).
  - vm_compute. reflexivity.
  - exists tl, cam1. split; [exact E |]. split; [exact Hf | exact Hr].
Defined.

(** X11.  A visit and the way back: from the state [createCameraSystem]
    builds, a completed transition to any section of the table followed by
    a completed [resetToOverview], each dropped by the next [update],
    leaves the camera system exactly as it was built. *)
Theorem visit_and_reset_restores_initial_camera (sectionName : string)
    (preset : SectionSettings) (duration back : option Q)
    (easing : option string) :
  SECTION_CAMERA_SETTINGS !! sectionName = Some preset ->
  exists (tl1 tl2 : Timeline) (cam1 cam3 : Camera),
    transitionToSection sectionName duration easing createCameraSystem
    = (Returned tl1, cam1) /\
    let cam2 := update true (timeline_complete tl1 cam1) in
    currentSection cam2 = sectionName /\
    resetToOverview back cam2 = (Returned tl2, cam3) /\
    update true (timeline_complete tl2 cam3) = createCameraSystem.
Proof.
  intros H. unfold transitionToSection. rewrite (lookup_own _ _ H).
  apply elem_of_list_to_map_2 in H.
  repeat (apply elem_of_cons in H as [H | H]);
    try (injection H as -> ->; eexists _, _, _, _;
         split; [reflexivity |]; split; [reflexivity |];
         split; reflexivity).
  apply elem_of_nil in H. destruct H.
Qed.

Lemma visit_and_reset_restores_initial_camera_witness :
  exists (tl1 tl2 : Timeline) (cam1 cam3 : Camera),
    transitionToSection "project-theater" None None createCameraSystem
    = (Returned tl1, cam1) /\
    resetToOverview None (update true (timeline_complete tl1 cam1))
    = (Returned tl2, cam3) /\
    update true (timeline_complete tl2 cam3) = createCameraSystem.
Proof.
  destruct (visit_and_reset_restores_initial_camera "project-theater"
              {| position := vec (-12) 5 0; lookAt := vec (-12) 5 (-5);
                 fov := 60; orbitControls := Some section_orbit |}
              None None None)
    as (tl1 & tl2 & cam1 & cam3 & E1 & _ & E2 & E3).
  - vm_compute. reflexivity.
  - exists tl1, tl2, cam1, cam3. split; [exact E1 |]. split; assumption.
Defined.

End CameraMore.

(** ** Cancelling and shaking the camera *)
Module CameraAnimationsSpec.
Import CameraSystem CameraAnimations.

Lemma ratio_unit (n d : Q) : 0 <= n -> n < d -> 0 <= n / d /\ n / d < 1.
Proof.
  intros Hn Hd. assert (0 < d) by lra. split.
  - apply Qle_shift_div_l; [assumption | lra].
  - apply Qlt_shift_div_r; [assumption | lra].
Qed.

Lemma offset_bound (o r i b : Q) :
  0 <= r -> r < 1 -> 0 <= i -> 0 <= b -> b <= 1 ->
  Qabs (o + (r * 2 - 1) * (i * b) - o) <= i.
Proof.
  intros. apply Qabs_Qle_condition.
  assert (0 <= i * b) by nra. assert (i * b <= i) by nra.
  split; nra.
Qed.

Lemma within_refl (d : Q) (p : Vector3) : 0 <= d -> within d p p.
Proof.
  intros H. unfold within.
  repeat split; apply Qabs_Qle_condition; lra.
Qed.

(** One update of the shake of camera.js. *)
Lemma shake_step (intensity duration : option Q)
    (t0 now rx ry rz : Q) (position : Vector3) :
  0 <= default (2 # 10) intensity ->
  t0 <= now ->
  0 <= rx < 1 -> 0 <= ry < 1 -> 0 <= rz < 1 ->
  let s := shake intensity duration t0 position in
  exists (done : bool) (p : Vector3),
    shake_update s now (rx, ry, rz) = Some (done, p) /\
    within (default (2 # 10) intensity) p position /\
    (done = true <-> endTime s <= now) /\
    (done = true -> p = position).
Proof.
  intros Hi Ht [Hx0 Hx1] [Hy0 Hy1] [Hz0 Hz1] s.
  unfold shake_update.
  destruct (Qle_bool (endTime s) now) eqn:E.
  - exists true, position. split; [reflexivity |].
    split; [apply within_refl; exact Hi |].
    split; [| reflexivity].
    split; [intros _; apply Qle_bool_iff; exact E | reflexivity].
  - assert (Hlt : now < endTime s).
    { apply Qnot_le_lt. intros C. apply Qle_bool_iff in C. congruence. }
    assert (Hpos : 0 < endTime s - startTime s).
    { change (startTime s) with t0. lra. }
    assert (Z : is_zero (endTime s - startTime s) = false).
    { unfold is_zero. destruct (Qeq_bool _ 0) eqn:Q; [| reflexivity].
      apply Qeq_bool_iff in Q. lra. }
    rewrite Z.
    destruct (ratio_unit (now - startTime s) (endTime s - startTime s))
      as [P0 P1]; [change (startTime s) with t0; lra | lra |].
    eexists false, _. split; [reflexivity |].
    split; [| split].
    + unfold within, vec; cbn [x y z].
      change (shake_intensity s) with (default (2 # 10) intensity).
      change (originalPosition s) with position.
      repeat split; apply offset_bound; lra.
    + split; [discriminate |].
      intros C. apply Qle_bool_iff in C. congruence.
    + discriminate.
Qed.

(** One update of the shake of transition.js. *)
Lemma camera_shake_step (s : CameraShake)
    (delta rx ry rz : Q) :
  0 < sh_duration (cs_settings s) ->
  0 <= sh_strength (cs_settings s) ->
  0 <= cs_time s + delta ->
  0 <= rx < 1 -> 0 <= ry < 1 -> 0 <= rz < 1 ->
  exists (s' : CameraShake) (done : bool) (p : Vector3),
    camera_shake_update s delta (rx, ry, rz) = Some (s', done, p) /\
    cs_time s' = cs_time s + delta /\
    cs_original s' = cs_original s /\
    cs_settings s' = cs_settings s /\
    within (sh_strength (cs_settings s)) p (cs_original s) /\
    (done = true <-> sh_duration (cs_settings s) <= cs_time s + delta) /\
    (done = true -> p = camera_shake_reset s).
Proof.
  intros Hd Hs Ht [Hx0 Hx1] [Hy0 Hy1] [Hz0 Hz1].
  unfold camera_shake_update.
  assert (Z : is_zero (sh_duration (cs_settings s)) = false).
  { unfold is_zero. destruct (Qeq_bool _ 0) eqn:Q; [| reflexivity].
    apply Qeq_bool_iff in Q. lra. }
  rewrite Z. cbv zeta.
  set (d := sh_duration (cs_settings s)) in *.
  set (t := cs_time s + delta) in *.
  assert (R0 : 0 <= t / d) by (apply Qle_shift_div_l; lra).
  destruct (Qlt_le_dec 1 (t / d)) as [A | A].
  - (* past the end *)
    change (Qle_bool 1 1) with true. cbv iota.
    eexists _, true, _. split; [reflexivity |].
    repeat split; try reflexivity.
    + apply Qabs_Qle_condition; lra.
    + apply Qabs_Qle_condition; lra.
    + apply Qabs_Qle_condition; lra.
    + intros _. apply Qlt_le_weak.
      apply (Qmult_lt_r _ _ d Hd) in A.
      assert (t / d * d == t) by (field; lra). lra.
  - destruct (Qle_bool 1 (t / d)) eqn:E.
    + apply Qle_bool_iff in E.
      eexists _, true, _. split; [reflexivity |].
      repeat split; try reflexivity.
      * apply Qabs_Qle_condition; lra.
      * apply Qabs_Qle_condition; lra.
      * apply Qabs_Qle_condition; lra.
      * intros _. assert (t / d == 1) as H1 by lra.
        assert (t / d * d == t) by (field; lra).
        rewrite H1 in H. lra.
    + assert (B : t / d < 1).
      { apply Qnot_le_lt. intros C. apply Qle_bool_iff in C. congruence. }
      eexists _, false, _. split; [reflexivity |].
      split; [reflexivity |]. split; [reflexivity |].
      split; [reflexivity |].
      split; [| split; [| discriminate]].
      * unfold within, vec; cbn [x y z].
        assert (I0 : 0 <= (if sh_decay (cs_settings s)
                           then sh_strength (cs_settings s) * (1 - t / d)
                           else sh_strength (cs_settings s))
                     <= sh_strength (cs_settings s)).
        { destruct (sh_decay _); split; nra. }
        set (i := if sh_decay (cs_settings s) then _ else _) in *.
        repeat split; apply Qabs_Qle_condition; split; nra.
      * split; [discriminate |].
        intros C. exfalso.
        assert (t / d * d == t) by (field; lra).
        assert (t / d * d < 1 * d) by (apply Qmult_lt_r; assumption).
        lra.
Qed.

(** X12.  The two camera shakes stay near the original position and end
    on it.  For the shake of camera.js, asked for with a non-negative
    intensity and updated at a time not before its start, and for the
    shake of transition.js, with a positive duration, a non-negative
    strength and an accumulated time that is not negative, each updated
    with random values in [0, 1): the update leaves the camera within the
    intensity (the strength) of the original position on every axis; it
    reports completion exactly when the end time (the duration) has been
    reached, and the camera is then back on the original position. *)
Theorem camera_shakes_bounded_then_restored (rx ry rz : Q) :
  0 <= rx < 1 -> 0 <= ry < 1 -> 0 <= rz < 1 ->
  (forall (intensity duration : option Q) (t0 now : Q) (position : Vector3),
      0 <= default (2 # 10) intensity ->
      t0 <= now ->
      let s := shake intensity duration t0 position in
      exists (done : bool) (p : Vector3),
        shake_update s now (rx, ry, rz) = Some (done, p) /\
        within (default (2 # 10) intensity) p position /\
        (done = true <-> endTime s <= now) /\
        (done = true -> p = position)) /\
  (forall (s : CameraShake) (delta : Q),
      0 < sh_duration (cs_settings s) ->
      0 <= sh_strength (cs_settings s) ->
      0 <= cs_time s + delta ->
      exists (s' : CameraShake) (done : bool) (p : Vector3),
        camera_shake_update s delta (rx, ry, rz) = Some (s', done, p) /\
        cs_time s' = cs_time s + delta /\
        cs_original s' = cs_original s /\
        cs_settings s' = cs_settings s /\
        within (sh_strength (cs_settings s)) p (cs_original s) /\
        (done = true <-> sh_duration (cs_settings s) <= cs_time s + delta) /\
        (done = true -> p = camera_shake_reset s)).
Proof.
  intros Hx Hy Hz. split.
  - intros intensity duration t0 now position Hi Ht.
    apply shake_step; assumption.
  - intros s delta Hd Hs Ht. apply camera_shake_step; assumption.
Qed.

Lemma camera_shakes_bounded_then_restored_witness :
  (exists (done : bool) (p : Vector3),
      shake_update (shake None None 1000 (vec 0 15 30)) 1250
        (1 # 2, 0, 3 # 4) = Some (done, p) /\
      within (2 # 10) p (vec 0 15 30)) /\
  (exists (s' : CameraShake) (done : bool) (p : Vector3),
      camera_shake_update
        (createCameraShake default_shake_settings (vec 0 15 30)) (1 # 10)
        (1 # 2, 0, 3 # 4) = Some (s', done, p) /\
      within (3 # 10) p (vec 0 15 30)).
Proof.
  destruct (camera_shakes_bounded_then_restored (1 # 2) 0 (3 # 4))
    as [H1 H2];
    try (split; [discriminate | reflexivity]).
  split.
  - destruct (H1 None None 1000 1250 (vec 0 15 30))
      as (done & p & E & W & _); try discriminate.
    exists done, p. split; [exact E | exact W].
  - destruct (H2 (createCameraShake default_shake_settings (vec 0 15 30))
                (1 # 10))
      as (s' & done & p & E & _ & _ & _ & W & _);
      try reflexivity; try discriminate.
    exists s', done, p. split; [exact E | exact W].
Defined.

(** [cancelTransition] does not undo or stop a transition to a
    section: the transition object has no [cancel], so the call only drops
    it and sets the controls by the lock.  The section stays the new one,
    the camera is not moved back to the state stored at the start, and the
    timeline, which was not killed, still takes the camera to the preset
    when it runs to its end. *)
Lemma cancelTransition_keeps_section_transition_running
    (sectionName : string) (preset : SectionSettings)
    (duration : option Q) (easing : option string) (cam : Camera) :
  SECTION_CAMERA_SETTINGS !! sectionName = Some preset ->
  exists (tl : Timeline) (cam1 : Camera),
    transitionToSection sectionName duration easing cam = (Returned tl, cam1) /\
    let cam2 := cancelTransition cam1 in
    activeTransition cam2 = None /\
    enabled (controls cam2) = negb (isLocked cam) /\
    currentSection cam2 = sectionName /\
    cs_position (currentState cam2) = camera_position cam /\
    cs_target (currentState cam2) = target (controls cam) /\
    update true cam2 = cam2 /\
    let cam3 := timeline_complete tl cam2 in
    camera_position cam3 = position preset /\
    target (controls cam3) = lookAt preset /\
    currentSection cam3 = sectionName /\
    activeTransition cam3 = None.
Proof.
  intros H. unfold transitionToSection, get. rewrite H.
  unfold run_transition. eexists _, _. split; [reflexivity |].
  cbv zeta. unfold timeline_complete, on_transition_complete.
  cbn -[Qeq_bool is_zero].
  destruct (orbitControls preset); repeat split; reflexivity.
Qed.

End CameraAnimationsSpec.

(** ** More of the transition controller *)
Module TransitionMore.
Import TransitionController.

Lemma kill_fold_eq (l : list Timeline) (t : Controller) :
  fold_left (fun acc tl => kill tl acc) l t
  = {| settings := settings t; currentState := currentState t;
       activeTransitions := activeTransitions t;
       activeTimelines := activeTimelines t;
       previousSection := previousSection t;
       targetSection := targetSection t;
       camera := camera t; carousel := carousel t;
       postprocessing := postprocessing t; audio := audio t;
       killed := rev (map timeline_id l) ++ killed t;
       next_id := next_id t; console := console t |}.
Proof.
  revert t. induction l as [| a l IH]; intros t.
  - destruct t; reflexivity.
  - cbn [fold_left]. rewrite IH. unfold kill. cbn.
    rewrite <- app_assoc. reflexivity.
Qed.

Lemma clear_eq (t : Controller) :
  clearActiveTransitions t
  = {| settings := settings t; currentState := currentState t;
       activeTransitions := [];
       activeTimelines := [];
       previousSection := previousSection t;
       targetSection := targetSection t;
       camera := camera t; carousel := carousel t;
       postprocessing := postprocessing t; audio := audio t;
       killed := rev (map timeline_id (activeTimelines t)) ++ killed t;
       next_id := next_id t; console := console t |}.
Proof. unfold clearActiveTransitions. rewrite kill_fold_eq. reflexivity. Qed.

(** Every section of the carousel has a camera preset, and none of them is
    the overview. *)
Lemma carousel_sections_have_presets (sectionName : string)
    (def : Carousel.SectionDef) :
  Carousel.SECTION_DEFINITIONS !! sectionName = Some def ->
  sectionName <> "overview"%string /\
  exists preset,
    CameraSystem.SECTION_CAMERA_SETTINGS !! sectionName = Some preset.
Proof.
  intros H. apply elem_of_list_to_map_2 in H.
  repeat (apply elem_of_cons in H as [H | H]);
    try (injection H as -> _; split; [discriminate |];
         eexists; vm_compute; reflexivity).
  apply elem_of_nil in H. destruct H.
Qed.

(** An idle controller accepts a transition to a section of the carousel;
    what it returns and the state it is in afterwards. *)
Lemma transitionToSection_started (t : Controller) (sectionName : string)
    (def : Carousel.SectionDef) (customOptions : CustomOptions) :
  currentState t = IDLE ->
  Carousel.SECTION_DEFINITIONS !! sectionName = Some def ->
  exists (preset : CameraSystem.SectionSettings)
         (cameraTl : CameraSystem.Timeline) (cam : CameraSystem.Camera),
    CameraSystem.SECTION_CAMERA_SETTINGS !! sectionName = Some preset /\
    CameraSystem.transitionToSection sectionName
      (Some (duration (merge (settings t) customOptions)))
      (Some (cameraEase (merge (settings t) customOptions))) (camera t)
    = (CameraSystem.Returned cameraTl, cam) /\
    let master :=
      {| timeline_id := next_id t; kind := MasterTimeline sectionName |} in
    let rotated :=
      Carousel.rotateToSection sectionName
        (Some (duration (merge (settings t) customOptions))) (carousel t) in
    transitionToSection sectionName customOptions t
    = (Started
         {| timeline := master; section := sectionName;
            children :=
              {| cameraTimeline := Some cameraTl;
                 carouselTimeline := fst rotated;
                 postTimeline :=
                   postprocessing t
                   && bloomTransition (merge (settings t) customOptions);
                 audioTimeline :=
                   audio t
                   && audioTransition (merge (settings t) customOptions) |} |},
       {| settings := settings t; currentState := ACTIVE;
          activeTransitions := [];
          activeTimelines := [master];
          previousSection := targetSection t;
          targetSection := Some sectionName;
          camera := cam; carousel := snd rotated;
          postprocessing := postprocessing t; audio := audio t;
          killed := rev (map timeline_id (activeTimelines t)) ++ killed t;
          next_id := S (next_id t); console := console t |}).
Proof.
  intros Hidle Hdef.
  destruct (carousel_sections_have_presets _ _ Hdef) as (Hne & preset & Hp).
  exists preset.
  rewrite (CameraSpec.transitionToSection_own _ _ _ _ _ Hp).
  unfold CameraSystem.run_transition.
  eexists _, _. split; [exact Hp |]. split; [reflexivity |].
  cbv zeta. unfold transitionToSection. rewrite Hidle.
  cbn [state_eqb negb]. cbv iota.
  unfold begin_transition. cbv beta iota zeta.
  rewrite clear_eq. cbn [settings camera carousel].
  rewrite (CameraSpec.transitionToSection_own _ _ _ _ _ Hp).
  unfold CameraSystem.run_transition. cbv beta iota zeta.
  unfold createCarouselTransition.
  apply String.eqb_neq in Hne. rewrite Hne.
  destruct (Carousel.rotateToSection _ _ _) as [tw car].
  reflexivity.
Qed.

Lemma rotateToSection_free (sectionName : string) (def : Carousel.SectionDef)
    (duration : option Q) (c : Carousel.Carousel) :
  Carousel.SECTION_DEFINITIONS !! sectionName = Some def ->
  Carousel.isLocked c = false -> Carousel.isAnimating c = false ->
  exists tw : Carousel.Tween,
    Carousel.rotateToSection sectionName duration c
    = (Some tw, Carousel.start_tween tw c) /\
    Carousel.tween_duration tw
    = default (Carousel.rotationDuration (Carousel.settings c)) duration /\
    Carousel.tween_ease tw = Carousel.rotationEase (Carousel.settings c).
Proof.
  intros H HL HA. unfold Carousel.rotateToSection, get. rewrite H.
  cbv beta iota zeta. unfold Carousel.rotateTo. rewrite HL, HA.
  cbn [orb]. cbv beta iota zeta.
  eexists. split; [reflexivity |]. split; reflexivity.
Qed.

Lemma rotateToSection_busy (sectionName : string) (def : Carousel.SectionDef)
    (duration : option Q) (c : Carousel.Carousel) :
  Carousel.SECTION_DEFINITIONS !! sectionName = Some def ->
  Carousel.isAnimating c = true ->
  Carousel.rotateToSection sectionName duration c = (None, c).
Proof.
  intros H HA. unfold Carousel.rotateToSection, get. rewrite H.
  cbv beta iota zeta. apply CarouselSpec.rotateTo_rejected. now right.
Qed.

(** X13.  The [cancel] of a section transition kills the master timeline
    and declares the controller idle, but undoes nothing: the carousel,
    whose rotation tween was part of the killed timeline, is still flagged
    as animating, and the orbit controls of the camera are still disabled.
    The next transition to a section is accepted, yet the carousel refuses
    the rotation: the new transition has no carousel timeline and the
    carousel is not touched. *)
Theorem cancelled_transition_leaves_carousel_busy (t : Controller)
    (sectionName next : string) (def def' : Carousel.SectionDef)
    (customOptions customOptions' : CustomOptions) :
  currentState t = IDLE ->
  Carousel.SECTION_DEFINITIONS !! sectionName = Some def ->
  Carousel.SECTION_DEFINITIONS !! next = Some def' ->
  Carousel.isLocked (carousel t) = false ->
  Carousel.isAnimating (carousel t) = false ->
  exists (h : Handle) (t1 : Controller) (tw : Carousel.Tween),
    transitionToSection sectionName customOptions t = (Started h, t1) /\
    carouselTimeline (children h) = Some tw /\
    let t2 := cancel h t1 in
    currentState t2 = IDLE /\
    activeTimelines t2 = [] /\
    timeline_id (timeline h) ∈ killed t2 /\
    Carousel.isAnimating (carousel t2) = true /\
    Carousel.rotation (carousel t2) = Carousel.rotation (carousel t) /\
    CameraSystem.enabled (CameraSystem.controls (camera t2)) = false /\
    exists (h' : Handle) (t3 : Controller),
      transitionToSection next customOptions' t2 = (Started h', t3) /\
      carouselTimeline (children h') = None /\
      carousel t3 = carousel t2 /\
      previousSection t3 = Some sectionName /\
      targetSection t3 = Some next.
Proof.
  intros Hidle Hdef Hdef' HL HA.
  destruct (transitionToSection_started t sectionName def customOptions
              Hidle Hdef) as (preset & cameraTl & cam & Hp & Hcam & E).
  cbv zeta in E.
  destruct (rotateToSection_free sectionName def
              (Some (duration (merge (settings t) customOptions)))
              (carousel t) Hdef HL HA) as (tw & Hrot & _).
  rewrite Hrot in E. cbn [fst snd] in E.
  eexists _, _, tw. split; [exact E |]. split; [reflexivity |].
  cbv zeta.
  set (t2 := cancel _ _).
  assert (Hidle2 : currentState t2 = IDLE) by reflexivity.
  assert (Hbusy : Carousel.isAnimating (carousel t2) = true) by reflexivity.
  split; [exact Hidle2 |]. split; [reflexivity |].
  split; [subst t2; cbn; apply elem_of_cons; left; reflexivity |].
  split; [exact Hbusy |]. split; [reflexivity |].
  split.
  { subst t2. cbn [cancel camera log set_activeTimelines set_state kill].
    rewrite (CameraSpec.transitionToSection_own _ _ _ _ _ Hp) in Hcam.
    unfold CameraSystem.run_transition in Hcam.
    injection Hcam as _ <-. reflexivity. }
  destruct (transitionToSection_started t2 next def' customOptions'
              Hidle2 Hdef') as (preset' & cameraTl' & cam' & _ & _ & E').
  cbv zeta in E'.
  rewrite (rotateToSection_busy next def' _ (carousel t2) Hdef' Hbusy) in E'.
  cbn [fst snd] in E'.
  eexists _, _. split; [exact E' |].
  repeat split; reflexivity.
Qed.

Lemma cancelled_transition_leaves_carousel_busy_witness :
  let t := createTransitionController CameraSystem.createCameraSystem
             Carousel.createCarousel true false in
  exists (h : Handle) (t1 : Controller),
    transitionToSection "skill-planet" no_options t = (Started h, t1) /\
    Carousel.isAnimating (carousel (cancel h t1)) = true /\
    exists (h' : Handle) (t3 : Controller),
      transitionToSection "chill-zone" no_options (cancel h t1)
      = (Started h', t3) /\
      carouselTimeline (children h') = None.
Proof.
  intros t.
  destruct (cancelled_transition_leaves_carousel_busy t
              "skill-planet" "chill-zone"
              {| Carousel.name := "Skill Planet"; Carousel.color := 0x99ffee;
                 Carousel.position := (10, 0, 0);
                 Carousel.angle := Num Math_PI;
                 Carousel.interactive := true |}
              {| Carousel.name := "Chill Zone"; Carousel.color := 0x66ccff;
                 Carousel.position := (0, 0, 10);
                 Carousel.angle := Num (- Math_PI / 2);
                 Carousel.interactive := true |}
              no_options no_options)
    as (h & t1 & tw & E & _ & _ & _ & _ & Hb & _ & _ & h' & t3 & E' & Hn & _);
    try reflexivity.
  exists h, t1. split; [exact E |]. split; [exact Hb |].
  exists h', t3. split; [exact E' | exact Hn].
Defined.

(** X14.  A section transition from start to end.  An idle controller with
    a free carousel accepts a transition to any section of the carousel.
    The camera timeline and the carousel tween both run for the merged
    duration; the camera timeline has the merged camera ease, but the
    carousel tween has the ease of the carousel's own settings, whatever
    [rotationEase] the caller gave.  When the master timeline has run to
    its end the controller is idle again with nothing tracked, the camera
    is on the section's preset, the carousel has reached its target and is
    free again, and the next transition is accepted and records this
    section as the previous one. *)
Theorem completed_section_transition (t : Controller)
    (sectionName next : string) (def def' : Carousel.SectionDef)
    (customOptions customOptions' : CustomOptions) :
  currentState t = IDLE ->
  Carousel.SECTION_DEFINITIONS !! sectionName = Some def ->
  Carousel.SECTION_DEFINITIONS !! next = Some def' ->
  Carousel.isLocked (carousel t) = false ->
  Carousel.isAnimating (carousel t) = false ->
  exists (h : Handle) (t1 : Controller) (preset : CameraSystem.SectionSettings)
         (cameraTl : CameraSystem.Timeline) (tw : Carousel.Tween),
    transitionToSection sectionName customOptions t = (Started h, t1) /\
    CameraSystem.SECTION_CAMERA_SETTINGS !! sectionName = Some preset /\
    cameraTimeline (children h) = Some cameraTl /\
    carouselTimeline (children h) = Some tw /\
    currentState t1 = ACTIVE /\
    CameraSystem.tl_duration cameraTl
    = default (duration (settings t)) (o_duration customOptions) /\
    Carousel.tween_duration tw
    = default (duration (settings t)) (o_duration customOptions) /\
    CameraSystem.tl_ease cameraTl
    = default (cameraEase (settings t)) (o_cameraEase customOptions) /\
    Carousel.tween_ease tw
    = Carousel.rotationEase (Carousel.settings (carousel t)) /\
    let t2 := master_complete h t1 in
    currentState t2 = IDLE /\
    activeTimelines t2 = [] /\
    killed t2 = rev (map timeline_id (activeTimelines t)) ++ killed t /\
    CameraSystem.camera_position (camera t2) = CameraSystem.position preset /\
    CameraSystem.target (CameraSystem.controls (camera t2))
    = CameraSystem.lookAt preset /\
    Carousel.rotation (carousel t2) = Carousel.tween_rotation tw /\
    Carousel.targetRotation (carousel t2) = Carousel.tween_rotation tw /\
    Carousel.group_rotation_y (carousel t2) = Carousel.tween_rotation tw /\
    Carousel.isAnimating (carousel t2) = false /\
    exists (h' : Handle) (t3 : Controller) (tw' : Carousel.Tween),
      transitionToSection next customOptions' t2 = (Started h', t3) /\
      carouselTimeline (children h') = Some tw' /\
      previousSection t3 = Some sectionName /\
      targetSection t3 = Some next.
Proof.
  intros Hidle Hdef Hdef' HL HA.
  destruct (transitionToSection_started t sectionName def customOptions
              Hidle Hdef) as (preset & cameraTl & cam & Hp & Hcam & E).
  cbv zeta in E.
  destruct (rotateToSection_free sectionName def
              (Some (duration (merge (settings t) customOptions)))
              (carousel t) Hdef HL HA) as (tw & Hrot & Hdur & Hease).
  rewrite Hrot in E. cbn [fst snd] in E.
  rewrite (CameraSpec.transitionToSection_own _ _ _ _ _ Hp) in Hcam.
  unfold CameraSystem.run_transition in Hcam.
  injection Hcam as <- <-.
  eexists _, _, preset, _, tw. split; [exact E |].
  split; [exact Hp |]. split; [reflexivity |]. split; [reflexivity |].
  split; [reflexivity |]. split; [reflexivity |].
  split; [exact Hdur |]. split; [reflexivity |]. split; [exact Hease |].
  cbv zeta.
  set (t2 := master_complete _ _).
  assert (Hidle2 : currentState t2 = IDLE) by reflexivity.
  assert (HL2 : Carousel.isLocked (carousel t2) = false) by exact HL.
  assert (HA2 : Carousel.isAnimating (carousel t2) = false) by reflexivity.
  split; [exact Hidle2 |]. split; [reflexivity |]. split; [reflexivity |].
  split; [reflexivity |].
  split.
  { subst t2. unfold master_complete.
    cbn -[Qeq_bool is_zero CameraSystem.on_transition_complete].
    unfold CameraSystem.on_transition_complete.
    cbn -[Qeq_bool is_zero]. destruct (CameraSystem.orbitControls preset);
      reflexivity. }
  split; [reflexivity |]. split; [reflexivity |]. split; [reflexivity |].
  split; [exact HA2 |].
  destruct (transitionToSection_started t2 next def' customOptions'
              Hidle2 Hdef') as (preset' & cameraTl' & cam' & _ & _ & E').
  cbv zeta in E'.
  destruct (rotateToSection_free next def'
              (Some (duration (merge (settings t2) customOptions')))
              (carousel t2) Hdef' HL2 HA2) as (tw' & Hrot' & _).
  rewrite Hrot' in E'. cbn [fst snd] in E'.
  eexists _, _, tw'. split; [exact E' |].
  repeat split; reflexivity.
Qed.

Lemma completed_section_transition_witness :
  let t := createTransitionController CameraSystem.createCameraSystem
             Carousel.createCarousel true false in
  let customOptions :=
    {| o_duration := Some 3; o_cameraEase := None;
       o_rotationEase := Some "none"%string;
       o_bloomTransition := None; o_audioTransition := None |} in
  exists (h : Handle) (t1 : Controller) (tw : Carousel.Tween),
    transitionToSection "achievement-shelf" customOptions t
    = (Started h, t1) /\
    carouselTimeline (children h) = Some tw /\
    Carousel.tween_duration tw = 3 /\
    Carousel.tween_ease tw = "power2.inOut"%string /\
    currentState (master_complete h t1) = IDLE.
Proof.
  intros t customOptions.
  destruct (completed_section_transition t
              "achievement-shelf" "chill-zone"
              {| Carousel.name := "Achievement Shelf";
                 Carousel.color := 0xffcc99;
                 Carousel.position := (0, 0, -10);
                 Carousel.angle := Num (Math_PI / 2);
                 Carousel.interactive := true |}
              {| Carousel.name := "Chill Zone"; Carousel.color := 0x66ccff;
                 Carousel.position := (0, 0, 10);
                 Carousel.angle := Num (- Math_PI / 2);
                 Carousel.interactive := true |}
              customOptions no_options)
    as (h & t1 & preset & cameraTl & tw & E & _ & _ & Hc & _ & _ & Hd & _
        & He & Hi & _);
    try reflexivity.
  exists h, t1, tw. split; [exact E |]. split; [exact Hc |].
  split; [exact Hd |]. split; [exact He | exact Hi].
Defined.

(** X15.  Custom timelines and section transitions.  On a controller
    whose timeline identities were all handed out by it, a custom timeline
    made before a section transition is killed when the transition starts
    and is no longer tracked, so its own completion changes nothing.  A
    custom timeline made while a section transition runs is tracked beside
    the master timeline, but the completion of the master empties the list
    without killing it: [cancelAllTransitions] then kills nothing. *)
Theorem custom_timelines_across_a_section_transition (t : Controller)
    (sectionName : string) (def : Carousel.SectionDef)
    (customOptions : CustomOptions) :
  currentState t = IDLE ->
  Carousel.SECTION_DEFINITIONS !! sectionName = Some def ->
  (forall i, i ∈ killed t -> (i < next_id t)%nat) ->
  (forall tl, tl ∈ activeTimelines t -> (timeline_id tl < next_id t)%nat) ->
  (exists (h : Handle) (t2 : Controller),
      let custom := fst (createCustomTransition t) in
      transitionToSection sectionName customOptions
        (snd (createCustomTransition t)) = (Started h, t2) /\
      timeline_id custom ∈ killed t2 /\
      activeTimelines t2 = [timeline h] /\
      custom_complete custom t2 = t2) /\
  (exists (h : Handle) (t1 : Controller),
      transitionToSection sectionName customOptions t = (Started h, t1) /\
      let custom := fst (createCustomTransition t1) in
      let t2 := snd (createCustomTransition t1) in
      activeTimelines t2 = [timeline h; custom] /\
      let t3 := master_complete h t2 in
      activeTimelines t3 = [] /\
      (timeline_id custom ∉ killed t3) /\
      killed (cancelAllTransitions t3) = killed t3).
Proof.
  intros Hidle Hdef Hk Ha. split.
  - destruct (transitionToSection_started (snd (createCustomTransition t))
                sectionName def customOptions Hidle Hdef)
      as (preset & cameraTl & cam & _ & _ & E).
    cbv zeta in E. eexists _, _. cbv zeta. split; [exact E |].
    split; [| split; [reflexivity |]].
    + cbn [killed createCustomTransition snd fst activeTimelines].
      rewrite map_app, rev_app_distr. cbn. apply elem_of_cons. now left.
    + unfold custom_complete.
      cbn [activeTimelines createCustomTransition fst snd remove_first
           timeline timeline_id next_id].
      unfold timeline_eqb. cbn [timeline_id].
      replace (Nat.eqb (next_id t) (S (next_id t))) with false
        by (symmetry; apply Nat.eqb_neq; lia).
      reflexivity.
  - destruct (transitionToSection_started t sectionName def customOptions
                Hidle Hdef) as (preset & cameraTl & cam & _ & _ & E).
    cbv zeta in E. eexists _, _. split; [exact E |]. cbv zeta.
    split; [reflexivity |].
    set (t3 := master_complete _ _).
    assert (E3 : activeTimelines t3 = []).
    { subst t3. unfold master_complete.
      cbn [children cameraTimeline carouselTimeline].
      destruct (fst (Carousel.rotateToSection _ _ _)); reflexivity. }
    assert (K3 : killed t3
                 = rev (map timeline_id (activeTimelines t)) ++ killed t).
    { subst t3. unfold master_complete.
      cbn [children cameraTimeline carouselTimeline].
      destruct (fst (Carousel.rotateToSection _ _ _)); reflexivity. }
    split; [exact E3 |]. split.
    + rewrite K3.
      cbn [createCustomTransition fst timeline_id next_id].
      intros C. apply elem_of_app in C as [C | C].
      * apply list_elem_of_In, in_rev, in_map_iff in C as (tl & Eq & C).
        apply list_elem_of_In in C. specialize (Ha tl C). lia.
      * specialize (Hk _ C). lia.
    + unfold cancelAllTransitions. rewrite clear_eq.
      cbn [killed log set_state]. rewrite E3. reflexivity.
Qed.

Lemma custom_timelines_across_a_section_transition_witness :
  let t := createTransitionController CameraSystem.createCameraSystem
             Carousel.createCarousel false false in
  exists (h : Handle) (t1 : Controller),
    transitionToSection "chill-zone" no_options t = (Started h, t1) /\
    let custom := fst (createCustomTransition t1) in
    let t3 := master_complete h (snd (createCustomTransition t1)) in
    activeTimelines t3 = [] /\ (timeline_id custom ∉ killed t3).
Proof.
  intros t.
  destruct (custom_timelines_across_a_section_transition t "chill-zone"
              {| Carousel.name := "Chill Zone"; Carousel.color := 0x66ccff;
                 Carousel.position := (0, 0, 10);
                 Carousel.angle := Num (- Math_PI / 2);
                 Carousel.interactive := true |}
              no_options)
    as (_ & h & t1 & E & _ & H1 & H2 & _);
    try reflexivity.
  - intros i C. apply elem_of_nil in C. destruct C.
  - intros tl C. apply elem_of_nil in C. destruct C.
  - exists h, t1. split; [exact E |]. split; [exact H1 | exact H2].
Defined.

End TransitionMore.

(** ** More of the input controls *)
Module ControlsMore.
Import InputControls.

(** X16.  A section selected through the input controls.  The controls
    replace the [onComplete] of the camera timeline by their own, so when
    the timeline ends the camera stands on the preset and the section is
    the active one, but the closure of the camera system has not run: the
    orbit controls are still disabled, their distance bounds are the old
    ones and the stored camera state is the one from before the
    transition.  While the timeline runs, [update] does nothing. *)
Theorem selection_leaves_orbit_controls_disabled (c : Controls)
    (sectionName : string) (preset : CameraSystem.SectionSettings)
    (deltaTime : Q) :
  activeSection c <> Some sectionName ->
  CameraSystem.SECTION_CAMERA_SETTINGS !! sectionName = Some preset ->
  exists (tl : CameraSystem.Timeline) (c1 : Controls),
    selectSection sectionName c = (Launched tl, c1) /\
    isTransitioning c1 = true /\
    activeSection c1 = activeSection c /\
    CameraSystem.activeTransition (camera c1) = Some tl /\
    update deltaTime c1 = c1 /\
    let c2 := timeline_complete tl c1 in
    isTransitioning c2 = false /\
    activeSection c2 = Some sectionName /\
    CameraSystem.camera_position (camera c2) = CameraSystem.position preset /\
    CameraSystem.target (CameraSystem.controls (camera c2))
    = CameraSystem.lookAt preset /\
    CameraSystem.enabled (CameraSystem.controls (camera c2)) = false /\
    CameraSystem.minDistance (CameraSystem.controls (camera c2))
    = CameraSystem.minDistance (CameraSystem.controls (camera c)) /\
    CameraSystem.maxDistance (CameraSystem.controls (camera c2))
    = CameraSystem.maxDistance (CameraSystem.controls (camera c)) /\
    CameraSystem.cs_position (CameraSystem.currentState (camera c2))
    = CameraSystem.camera_position (camera c) /\
    carousel c2 = carousel c.
Proof.
  intros Hne Hp. unfold selectSection.
  rewrite bool_decide_eq_false_2 by exact Hne.
  cbn [camera log set_selection].
  rewrite (CameraSpec.transitionToSection_own _ _ _ _ _ Hp).
  unfold CameraSystem.run_transition.
  eexists _, _. split; [reflexivity |].
  repeat split; reflexivity.
Qed.

Lemma selection_leaves_orbit_controls_disabled_witness :
  let c := createControls CameraSystem.createCameraSystem
             Carousel.createCarousel in
  exists (tl : CameraSystem.Timeline) (c1 : Controls),
    selectSection "skill-planet" c = (Launched tl, c1) /\
    CameraSystem.enabled
      (CameraSystem.controls (camera (timeline_complete tl c1))) = false /\
    CameraSystem.maxDistance
      (CameraSystem.controls (camera (timeline_complete tl c1))) = 40.
Proof.
  intros c.
  destruct (selection_leaves_orbit_controls_disabled c "skill-planet"
              {| CameraSystem.position := CameraSystem.vec 12 5 0;
                 CameraSystem.lookAt := CameraSystem.vec 12 5 (-5);
                 CameraSystem.fov := 60;
                 CameraSystem.orbitControls :=
                   Some CameraSystem.section_orbit |} 1)
    as (tl & c1 & E & _ & _ & _ & _ & _ & _ & _ & _ & He & _ & Hm & _).
  - discriminate.
  - vm_compute. reflexivity.
  - exists tl, c1. split; [exact E |]. split; [exact He | exact Hm].
Defined.

(** X17.  Escape with a section active, outside a transition: the active
    section is cleared at once and the flag [isTransitioning] stays off,
    the camera starts its transition to the overview with the duration 1.5,
    and this timeline, whose [onComplete] is the camera's own, ends with
    the camera on the overview preset, the overview bounds applied and the
    orbit controls enabled unless the camera is locked.  A second Escape
    while the first is still running does nothing to the camera, and a
    section can be selected right away. *)
Theorem escape_returns_to_overview (c : Controls) (sectionName : string) :
  truthy (activeSection c) = true ->
  isTransitioning c = false ->
  CameraSystem.SECTION_CAMERA_SETTINGS !! sectionName <> None ->
  let c1 := onKeyDown "Escape" c in
  activeSection c1 = None /\
  isTransitioning c1 = false /\
  keys c1 !! "Escape"%string = Some true /\
  carousel c1 = carousel c /\
  camera (onKeyDown "Escape" c1) = camera c1 /\
  (exists tl' c2, selectSection sectionName c1 = (Launched tl', c2)) /\
  exists tl : CameraSystem.Timeline,
    CameraSystem.activeTransition (camera c1) = Some tl /\
    CameraSystem.tl_duration tl = 15 # 10 /\
    CameraSystem.currentSection (camera c1) = "overview"%string /\
    CameraSystem.enabled (CameraSystem.controls (camera c1)) = false /\
    let c2 := timeline_complete tl c1 in
    activeSection c2 = None /\
    isTransitioning c2 = false /\
    CameraSystem.camera_position (camera c2) = CameraSystem.vec 0 15 30 /\
    CameraSystem.target (CameraSystem.controls (camera c2))
    = CameraSystem.vec 0 0 0 /\
    CameraSystem.minDistance (CameraSystem.controls (camera c2)) = 15 /\
    CameraSystem.maxDistance (CameraSystem.controls (camera c2)) = 40 /\
    CameraSystem.enabled (CameraSystem.controls (camera c2))
    = negb (CameraSystem.isLocked (camera c)).
Proof.
  intros Ha Ht Hs c1.
  assert (E1 : c1 = resetToOverview (set_key "Escape" true c)).
  { subst c1. unfold onKeyDown. cbn [isTransitioning set_key]. rewrite Ht.
    reflexivity. }
  assert (E2 : resetToOverview (set_key "Escape" true c)
               = set_selection false None
                   (set_camera
                      (snd (CameraSystem.resetToOverview None (camera c)))
                      (set_key "Escape" true c))).
  { unfold resetToOverview. cbn [activeSection set_key]. rewrite Ha.
    cbn [isTransitioning set_key]. rewrite Ht. reflexivity. }
  rewrite E2 in E1. clear E2.
  unfold CameraSystem.resetToOverview, CameraSystem.transitionToSection in E1.
  rewrite CameraSpec.overview_defined in E1.
  unfold CameraSystem.run_transition in E1. cbn [snd default] in E1.
  rewrite E1.
  split; [reflexivity |]. split; [reflexivity |].
  split; [cbn [keys set_selection set_camera set_key];
          apply lookup_insert_eq |].
  split; [reflexivity |].
  split; [reflexivity |].
  split.
  { destruct (CameraSystem.SECTION_CAMERA_SETTINGS !! sectionName)
      as [preset |] eqn:Hp; [| contradiction].
    unfold selectSection. cbn [activeSection set_selection].
    rewrite bool_decide_eq_false_2 by discriminate.
    cbn [camera log set_selection set_camera].
    rewrite (CameraSpec.transitionToSection_own _ _ _ _ _ Hp).
    unfold CameraSystem.run_transition. eexists _, _. reflexivity. }
  eexists. split; [reflexivity |].
  repeat split; reflexivity.
Qed.

Lemma escape_returns_to_overview_witness :
  let c :=
    set_selection false (Some "skill-planet"%string)
      (createControls CameraSystem.createCameraSystem
         Carousel.createCarousel) in
  activeSection (onKeyDown "Escape" c) = None /\
  isTransitioning (onKeyDown "Escape" c) = false.
Proof.
  intros c.
  destruct (escape_returns_to_overview c "chill-zone")
    as (H1 & H2 & _); try reflexivity.
  - vm_compute. discriminate.
  - split; [exact H1 | exact H2].
Defined.

End ControlsMore.

(** ** Dragging, momentum and clicks *)
Module PointerSpec.
Import InputControls Pointer.

Lemma last_cons_default {A : Type} (a b : A) (l : list A) :
  default a (last (b :: l)) = default b (last l).
Proof.
  revert a b. induction l as [| x l IH]; intros a b; [reflexivity |].
  change (last (b :: x :: l)) with (last (x :: l)).
  rewrite (IH a x), (IH b x). reflexivity.
Qed.

Lemma moves_turn (moves : list (Q * Q)) :
  forall (i : Input) (rho : Q),
    draggable i ->
    Carousel.rotation (carousel (controls i)) = Num rho ->
    let i' :=
      fold_left (fun acc p => onMouseMove (fst p) (snd p) acc) moves i in
    draggable i' /\
    settings (controls i') = settings (controls i) /\
    camera (controls i') = camera (controls i) /\
    activeSection (controls i') = activeSection (controls i) /\
    Carousel.targetRotation (carousel (controls i'))
    = Carousel.targetRotation (carousel (controls i)) /\
    lastClickTime i' = lastClickTime i /\
    clickDebounceTime i' = clickDebounceTime i /\
    mouseDragging i'
    = match moves with [] => mouseDragging i | _ :: _ => true end /\
    exists rho' : Q,
      Carousel.rotation (carousel (controls i')) = Num rho' /\
      rho' == rho
              + (fst (default (previousMousePosition i) (last moves))
                 - fst (previousMousePosition i))
                * (1 # 100) * rotationSpeed (settings (controls i)).
Proof.
  induction moves as [| p moves IH]; intros i rho D R.
  - cbn [fold_left last default]. repeat split; try apply D.
    exists rho. split; [exact R |]. ring.
  - cbn [fold_left]. destruct D as (D1 & D2 & D3 & D4).
    set (i1 := onMouseMove (fst p) (snd p) i).
    assert (E1 : i1
                 = {| controls :=
                        spin ((fst p - fst (previousMousePosition i))
                              * (1 # 100)
                              * rotationSpeed (settings (controls i)))
                          (controls i);
                      mouseDragging := true;
                      touchDragging := touchDragging i;
                      previousMousePosition := (fst p, snd p);
                      touchStartPosition := touchStartPosition i;
                      lastClickTime := lastClickTime i; lastTap := lastTap i;
                      clickDebounceTime := clickDebounceTime i;
                      touchSensitivity := touchSensitivity i;
                      doubleTapTime := doubleTapTime i |}).
    { subst i1. unfold onMouseMove. rewrite D1, D2, D3. reflexivity. }
    assert (R1 : Carousel.rotation (carousel (controls i1))
                 = Num (rho + (fst p - fst (previousMousePosition i))
                              * (1 # 100)
                              * rotationSpeed (settings (controls i)))).
    { rewrite E1. unfold spin, Carousel.rotate.
      cbn [controls carousel set_rotationVelocity set_carousel
           rotationVelocity].
      rewrite D4, R. reflexivity. }
    assert (Dr : draggable i1).
    { rewrite E1. unfold draggable, spin, Carousel.rotate.
      cbn [controls carousel set_rotationVelocity set_carousel
           rotationVelocity mouseDown settings isTransitioning].
      rewrite D4. repeat split; assumption. }
    destruct (IH i1 _ Dr R1)
      as (G1 & G2 & G3 & G4 & G5 & G6 & G7 & G8 & rho' & G9 & G10).
    assert (S1 : settings (controls i1) = settings (controls i))
      by (rewrite E1; reflexivity).
    assert (P1 : previousMousePosition i1 = (fst p, snd p))
      by (rewrite E1; reflexivity).
    split; [exact G1 |].
    split; [rewrite G2; exact S1 |].
    split; [rewrite G3, E1; reflexivity |].
    split; [rewrite G4, E1; reflexivity |].
    split.
    { rewrite G5, E1. unfold spin, Carousel.rotate.
      cbn [controls carousel set_rotationVelocity set_carousel
           rotationVelocity].
      rewrite D4. reflexivity. }
    split; [rewrite G6, E1; reflexivity |].
    split; [rewrite G7, E1; reflexivity |].
    split.
    { rewrite G8. destruct moves; [rewrite E1 |]; reflexivity. }
    exists rho'. split; [exact G9 |].
    rewrite G10, S1, P1, last_cons_default.
    destruct p as [px py]. cbn [fst snd].
    ring.
Qed.

(** X18.  Dragging the carousel with the mouse.  With rotation enabled,
    no transition running and the carousel unlocked, a drag turns the
    carousel by the total horizontal movement times 0.01 times the
    rotation speed, however the movement is split into mouse-move events;
    the target rotation of the carousel is not moved along.  The click
    event that ends the drag selects nothing, whatever is under the
    pointer: it only clears the dragging flag and restarts the debounce
    window. *)
Theorem drag_turns_by_total_movement (i : Input) (start : Q * Q)
    (moves : list (Q * Q)) (r currentTime : Q) (hit : option string) :
  enableRotation (settings (controls i)) = true ->
  isTransitioning (controls i) = false ->
  Carousel.isLocked (carousel (controls i)) = false ->
  Carousel.rotation (carousel (controls i)) = Num r ->
  moves <> [] ->
  clickDebounceTime i <= currentTime - lastClickTime i ->
  let dragged := onMouseUp (drag start moves i) in
  (exists r' : Q,
      Carousel.rotation (carousel (controls dragged)) = Num r' /\
      r' == r + (last_x start moves - fst start) * (1 # 100)
                * rotationSpeed (settings (controls i))) /\
  Carousel.targetRotation (carousel (controls dragged))
  = Carousel.targetRotation (carousel (controls i)) /\
  mouseDown (controls dragged) = false /\
  mouseDragging dragged = true /\
  let clicked := onClick currentTime hit dragged in
  controls clicked = controls dragged /\
  mouseDragging clicked = false /\
  lastClickTime clicked = currentTime.
Proof.
  intros HE HT HL HR Hne Hdeb dragged.
  assert (D0 : draggable (onMouseDown (fst start) (snd start) i)).
  { unfold draggable. cbn. repeat split; assumption. }
  destruct (moves_turn moves (onMouseDown (fst start) (snd start) i) r D0 HR)
    as (G1 & G2 & G3 & G4 & G5 & G6 & G7 & G8 & r' & G9 & G10).
  fold (drag start moves i) in G1, G2, G3, G4, G5, G6, G7, G8, G9, G10.
  assert (Hdrag : mouseDragging (drag start moves i) = true).
  { rewrite G8. destruct moves; [contradiction | reflexivity]. }
  split; [| split; [| split; [| split]]].
  - exists r'. split; [exact G9 |]. rewrite G10.
    cbn [previousMousePosition onMouseDown controls settings set_mouseDown].
    unfold last_x. destruct start as [sx sy]. cbn [fst snd]. ring.
  - exact G5.
  - reflexivity.
  - exact Hdrag.
  - cbv zeta. unfold onClick.
    change (lastClickTime dragged) with (lastClickTime (drag start moves i)).
    change (clickDebounceTime dragged)
      with (clickDebounceTime (drag start moves i)).
    rewrite G6, G7.
    cbn [lastClickTime clickDebounceTime onMouseDown].
    destruct (Qlt_le_dec _ _) as [C | C]; [lra |].
    cbn [mouseDragging]. 
    change (mouseDragging dragged) with (mouseDragging (drag start moves i)).
    rewrite Hdrag. repeat split; reflexivity.
Qed.

Lemma drag_turns_by_total_movement_witness :
  let i := createInput (createControls CameraSystem.createCameraSystem
                          Carousel.createCarousel) in
  exists r' : Q,
    Carousel.rotation
      (carousel
         (controls
            (onMouseUp (drag (100, 50) [(140, 50); (90, 55); (300, 60)] i))))
    = Num r' /\
    r' == 1.
Proof.
  intros i.
  destruct (drag_turns_by_total_movement i (100, 50)
              [(140, 50); (90, 55); (300, 60)] 0 1000 None)
    as ((r' & E & H) & _); try reflexivity; try discriminate.
  exists r'. split; [exact E |]. rewrite H. reflexivity.
Defined.

Lemma update_coasting (deltaTime : Q) (c : Controls) (rho w : Q) :
  coasting c ->
  Carousel.rotation (carousel c) = Num rho ->
  rotationVelocity c = Num w ->
  let d := dampingFactor (settings c) in
  let c' := update deltaTime c in
  coasting c' /\
  settings c' = settings c /\
  camera c' = camera c /\
  rotationVelocity c' = Num (w * d) /\
  Carousel.rotation (carousel c')
  = Num (if Qlt_le_dec (1 # 10000) (Qabs (w * d)) then rho + w * d else rho) /\
  (Qabs (w * d) <= 1 # 10000 -> carousel c' = carousel c).
Proof.
  intros (C1 & C2 & C3 & C4 & C5) R V d c'.
  assert (Auto : autoRotate (settings c) && negb (mouseDown c)
                 && negb (touchDown c) && negb (truthy (activeSection c))
                 = false).
  { destruct C4 as [-> | ->]; [reflexivity |].
    rewrite andb_false_r. reflexivity. }
  assert (E : c'
              = let c2 := set_rotationVelocity (Num (w * d)) c in
                if Qlt_le_dec (1 # 10000) (Qabs (w * d))
                then set_carousel
                       (Carousel.set_rotation (Num (rho + w * d))
                          (carousel c)) c2
                else c2).
  { subst c'. unfold update. rewrite C1, Auto. cbv beta iota zeta.
    rewrite V. cbn [jmul]. fold d.
    cbn [mouseDown touchDown set_rotationVelocity rotationVelocity carousel].
    rewrite C2, C3. cbn [negb andb]. unfold jabs, jgt.
    destruct (Qlt_le_dec (1 # 10000) (Qabs (w * d))); [| reflexivity].
    unfold Carousel.rotate. rewrite C5, R. reflexivity. }
  rewrite E. cbv zeta.
  destruct (Qlt_le_dec (1 # 10000) (Qabs (w * d))) as [G | G].
  - repeat split; try assumption; try reflexivity.
    intros L. lra.
  - repeat split; try assumption; try reflexivity.
Qed.

Lemma Qmult_le_l' (a b c : Q) : 0 <= a -> b <= c -> a * b <= a * c.
Proof. intros Ha Hbc. nra. Qed.

Lemma power_nonneg (d : Q) (n : nat) : 0 <= d -> 0 <= power d n.
Proof.
  intros H. induction n as [| n IH]; cbn [power]; [lra | nra].
Qed.

Lemma power_le_one (d : Q) (n : nat) : 0 <= d -> d <= 1 -> power d n <= 1.
Proof.
  intros H0 H1. induction n as [| n IH]; cbn [power]; [lra |].
  pose proof (power_nonneg d n H0). nra.
Qed.

Lemma power_decreasing (d : Q) (n m : nat) :
  0 <= d -> d <= 1 -> (n <= m)%nat -> power d m <= power d n.
Proof.
  intros H0 H1 Hnm. induction Hnm as [| m Hnm IH]; [lra |].
  cbn [power]. pose proof (power_nonneg d m H0). nra.
Qed.

(** Bernoulli's inequality, read downwards. *)
Lemma power_bernoulli (d : Q) (n : nat) :
  0 <= d -> d <= 1 ->
  power d n * (1 + inject_Z (Z.of_nat n) * (1 - d)) <= 1.
Proof.
  intros H0 H1. induction n as [| n IH].
  - cbn [power]. change (inject_Z (Z.of_nat 0)) with 0. lra.
  - cbn [power]. rewrite Nat2Z.inj_succ. unfold Z.succ.
    rewrite inject_Z_plus. change (inject_Z 1) with 1.
    pose proof (power_nonneg d n H0) as P.
    set (k := inject_Z (Z.of_nat n)) in *.
    assert (0 <= k).
    { subst k. change 0 with (inject_Z 0). rewrite <- Zle_Qle. lia. }
    set (p := power d n) in *.
    assert (d * (1 + (k + 1) * (1 - d)) <= 1 + k * (1 - d)).
    { assert (S1 : 0 <= (1 - d) * (1 - d)) by nra.
      assert (S2 : 0 <= (1 - d) * (1 - d) * (k + 1)) by nra.
      assert (S3 : 1 + k * (1 - d) - d * (1 + (k + 1) * (1 - d))
                   == (1 - d) * (1 - d) * (k + 1)) by ring.
      lra. }
    assert (p * (d * (1 + (k + 1) * (1 - d))) <= p * (1 + k * (1 - d)))
      by nra.
    lra.
Qed.

Lemma power_small (d bound eps : Q) :
  0 <= d -> d < 1 -> 0 <= bound -> 0 < eps ->
  exists N : nat, bound * power d N <= eps.
Proof.
  intros H0 H1 Hb He.
  assert (He' : 0 < eps * (1 - d)) by nra.
  set (e := eps * (1 - d)) in *.
  set (q := bound / e).
  assert (Hq : 0 <= q).
  { subst q. apply Qle_shift_div_l; lra. }
  pose proof (CarouselMore.below_numerator q Hq) as Hn.
  exists (Z.to_nat (Qnum q)).
  assert (Hnum : (0 <= Qnum q)%Z).
  { destruct q as [a b]. unfold Qle in Hq. cbn in *. lia. }
  rewrite <- (Z2Nat.id (Qnum q) Hnum) in Hn.
  set (N := Z.to_nat (Qnum q)) in *.
  pose proof (power_bernoulli d N H0 (Qlt_le_weak _ _ H1)) as B.
  pose proof (power_nonneg d N H0) as P.
  set (k := inject_Z (Z.of_nat N)) in *.
  set (p := power d N) in *.
  assert (Hk : bound <= k * e).
  { assert (q * e == bound) by (subst q; field; lra).
    assert (q * e <= k * e) by nra.
    lra. }
  assert (Hk' : bound * p <= k * e * p) by nra.
  assert (B' : eps * (p * (1 + k * (1 - d))) <= eps) by nra.
  assert (E : eps * (p * (1 + k * (1 - d))) == eps * p + k * e * p)
    by (subst e; ring).
  assert (0 <= eps * p) by nra.
  lra.
Qed.

(** The state after [n] frames of coasting. *)
Lemma coasting_frames (deltaTime : Q) (c : Controls) (r v : Q) (n : nat) :
  coasting c ->
  0 <= dampingFactor (settings c) -> dampingFactor (settings c) < 1 ->
  Carousel.rotation (carousel c) = Num r ->
  rotationVelocity c = Num v ->
  let d := dampingFactor (settings c) in
  let cn := frames deltaTime n c in
  coasting cn /\ settings cn = settings c /\ camera cn = camera c /\
  exists rn vn : Q,
    Carousel.rotation (carousel cn) = Num rn /\
    rotationVelocity cn = Num vn /\
    vn == v * power d n /\
    (1 - d) * Qabs (rn - r) <= d * (Qabs v - Qabs vn).
Proof.
  intros C D0 D1 R V d. induction n as [| n IH].
  - cbn [frames Nat.iter]. split; [exact C |]. split; [reflexivity |].
    split; [reflexivity |]. exists r, v.
    split; [exact R |]. split; [exact V |].
    split; [cbn [power]; ring |].
    assert (Z0 : Qabs (r - r) == 0).
    { rewrite (Qabs_wd (r - r) 0) by ring. reflexivity. }
    rewrite Z0. lra.
  - destruct IH as (Cn & Sn & Kn & rn & vn & Rn & Vn & Pn & Bn).
    change (frames deltaTime (S n) c)
      with (update deltaTime (frames deltaTime n c)).
    destruct (update_coasting deltaTime _ rn vn Cn Rn Vn)
      as (U1 & U2 & U3 & U4 & U5 & _).
    rewrite Sn in U2, U4, U5. fold d in U4, U5.
    split; [exact U1 |]. split; [exact U2 |].
    split; [rewrite U3; exact Kn |].
    eexists _, (vn * d). split; [exact U5 |]. split; [exact U4 |].
    split; [rewrite Pn; cbn [power]; ring |].
    assert (D0' : 0 <= d) by exact D0.
    assert (D1' : d < 1) by exact D1.
    assert (Av : Qabs (vn * d) == Qabs vn * d).
    { rewrite Qabs_Qmult. rewrite (Qabs_pos d) by exact D0. reflexivity. }
    pose proof (Qabs_nonneg vn) as Nv.
    pose proof (Qabs_nonneg (rn - r)) as Nr.
    destruct (Qlt_le_dec (1 # 10000) (Qabs (vn * d))) as [G | G].
    + assert (T : Qabs (rn + vn * d - r) <= Qabs (rn - r) + Qabs vn * d).
      { rewrite <- Av.
        rewrite (Qabs_wd (rn + vn * d - r) ((rn - r) + vn * d)) by ring.
        apply Qabs_triangle. }
      rewrite Av. clear G Av.
      set (A := Qabs (rn - r)) in *. set (B := Qabs vn) in *.
      set (A' := Qabs (rn + vn * d - r)) in *.
      assert (S1 : (1 - d) * A' <= (1 - d) * (A + B * d)).
      { apply Qmult_le_l; [lra | exact T]. }
      assert (S2 : (1 - d) * (A + B * d)
                   == (1 - d) * A + B * d - B * d * d) by ring.
      assert (S3 : d * (Qabs v - B * d) == d * Qabs v - B * d * d) by ring.
      assert (S4 : d * (Qabs v - B) == d * Qabs v - B * d) by ring.
      lra.
    + rewrite Av. clear G Av.
      set (A := Qabs (rn - r)) in *. set (B := Qabs vn) in *.
      assert (S3 : d * (Qabs v - B * d) == d * Qabs v - B * d * d) by ring.
      assert (S4 : d * (Qabs v - B) == d * Qabs v - B * d) by ring.
      assert (S5 : 0 <= B * d * (1 - d)).
      { apply Qmult_le_0_compat; [apply Qmult_le_0_compat; assumption | lra]. }
      assert (S6 : B * d * (1 - d) == B * d - B * d * d) by ring.
      lra.
Qed.

(** X19.  Momentum after a release.  While the controls coast (no
    transition, nothing pressed, auto-rotation off or a section active,
    carousel unlocked) with a damping factor [d] in [0, 1), each frame
    multiplies the velocity by [d] and turns the carousel by the new
    velocity while that exceeds 0.0001.  The carousel never gets further
    than [d / (1 - d)] times the release velocity from where it was, and
    after finitely many frames it is not turned any more. *)
Theorem momentum_is_bounded_and_dies_out (deltaTime : Q) (c : Controls)
    (r v : Q) :
  coasting c ->
  0 <= dampingFactor (settings c) -> dampingFactor (settings c) < 1 ->
  Carousel.rotation (carousel c) = Num r ->
  rotationVelocity c = Num v ->
  let d := dampingFactor (settings c) in
  (forall n : nat,
      exists rn vn : Q,
        Carousel.rotation (carousel (frames deltaTime n c)) = Num rn /\
        rotationVelocity (frames deltaTime n c) = Num vn /\
        vn == v * power d n /\
        (1 - d) * Qabs (rn - r) <= d * Qabs v) /\
  exists N : nat,
    forall n : nat, (N <= n)%nat ->
      carousel (frames deltaTime n c) = carousel (frames deltaTime N c).
Proof.
  intros C D0 D1 R V d. split.
  - intros n.
    destruct (coasting_frames deltaTime c r v n C D0 D1 R V)
      as (_ & _ & _ & rn & vn & Rn & Vn & Pn & Bn).
    exists rn, vn. split; [exact Rn |]. split; [exact Vn |].
    split; [exact Pn |].
    assert (D0' : 0 <= d) by exact D0.
    assert (S1 : 0 <= d * Qabs vn)
      by (apply Qmult_le_0_compat; [exact D0' | apply Qabs_nonneg]).
    assert (S2 : d * (Qabs v - Qabs vn) == d * Qabs v - d * Qabs vn) by ring.
    fold d in Bn. lra.
  - destruct (power_small d (Qabs v) (1 # 10000) D0 D1 (Qabs_nonneg v))
      as [N HN]; [reflexivity |].
    exists N. intros n Hn. induction Hn as [| m Hm IH]; [reflexivity |].
    rewrite <- IH.
    change (frames deltaTime (S m) c)
      with (update deltaTime (frames deltaTime m c)).
    destruct (coasting_frames deltaTime c r v m C D0 D1 R V)
      as (Cm & Sm & _ & rm & vm & Rm & Vm & Pm & _).
    destruct (update_coasting deltaTime _ rm vm Cm Rm Vm)
      as (_ & _ & _ & _ & _ & Stop).
    apply Stop. rewrite Sm. fold d.
    rewrite Qabs_Qmult, (Qabs_pos d) by exact D0.
    rewrite Pm, Qabs_Qmult. fold d.
    rewrite (Qabs_pos (power d m)) by (apply power_nonneg; exact D0).
    pose proof (power_decreasing d N m D0 (Qlt_le_weak _ _ D1) Hm) as Dec.
    pose proof (power_nonneg d m D0) as Pm0.
    pose proof (Qabs_nonneg v) as Nv.
    assert (D0' : 0 <= d) by exact D0.
    assert (D1' : d < 1) by exact D1.
    assert (S1 : Qabs v * power d m <= Qabs v * power d N)
      by (apply Qmult_le_l'; assumption).
    assert (S2 : 0 <= Qabs v * power d m)
      by (apply Qmult_le_0_compat; assumption).
    assert (S3 : 0 <= Qabs v * power d m * (1 - d))
      by (apply Qmult_le_0_compat; [assumption | lra]).
    assert (S4 : Qabs v * power d m * (1 - d)
                 == Qabs v * power d m - Qabs v * power d m * d) by ring.
    lra.
Qed.

Lemma momentum_is_bounded_and_dies_out_witness :
  let c :=
    set_rotationVelocity (Num (1 # 10))
      (set_selection false (Some "skill-planet"%string)
         (createControls CameraSystem.createCameraSystem
            Carousel.createCarousel)) in
  exists N : nat,
    forall n : nat, (N <= n)%nat ->
      carousel (frames (1 # 60) n c) = carousel (frames (1 # 60) N c).
Proof.
  intros c.
  destruct (momentum_is_bounded_and_dies_out (1 # 60) c 0 (1 # 10))
    as (_ & N & H); try reflexivity; try discriminate.
  - unfold coasting. cbn. repeat split; try reflexivity. right. reflexivity.
  - exists N. exact H.
Defined.

(** What [selectSection] does for a section with a camera preset that is
    not the active one. *)
Lemma selectSection_launched (sectionName : string)
    (preset : CameraSystem.SectionSettings) (c : Controls) :
  activeSection c <> Some sectionName ->
  CameraSystem.SECTION_CAMERA_SETTINGS !! sectionName = Some preset ->
  exists (tl : CameraSystem.Timeline) (c1 : Controls),
    selectSection sectionName c = (Launched tl, c1) /\
    isTransitioning c1 = true.
Proof.
  intros Hne Hp. unfold selectSection.
  rewrite bool_decide_eq_false_2 by exact Hne.
  cbn [camera log set_selection].
  rewrite (CameraSpec.transitionToSection_own _ _ _ _ _ Hp).
  unfold CameraSystem.run_transition.
  eexists _, _. split; reflexivity.
Qed.

(** X20.  A click on a section that is not the active one, outside the
    debounce window and not ending a drag, starts the selection.  Until
    its timeline ends, every further click, whenever it comes and whatever
    it hits, leaves the controls as they are, and a drag does not turn the
    carousel. *)
Theorem click_selects_once_until_complete (i : Input) (currentTime : Q)
    (sectionName : string) (preset : CameraSystem.SectionSettings) :
  isTransitioning (controls i) = false ->
  mouseDragging i = false ->
  activeSection (controls i) <> Some sectionName ->
  sectionName <> ""%string ->
  CameraSystem.SECTION_CAMERA_SETTINGS !! sectionName = Some preset ->
  clickDebounceTime i <= currentTime - lastClickTime i ->
  let i1 := onClick currentTime (Some sectionName) i in
  (exists (tl : CameraSystem.Timeline) (c1 : Controls),
      selectSection sectionName (controls i) = (Launched tl, c1) /\
      controls i1 = c1) /\
  isTransitioning (controls i1) = true /\
  lastClickTime i1 = currentTime /\
  (forall (later : Q) (hit : option string),
      controls (onClick later hit i1) = controls i1) /\
  (forall (start : Q * Q) (moves : list (Q * Q)),
      carousel (controls (drag start moves i1)) = carousel (controls i1) /\
      mouseDragging (drag start moves i1) = false).
Proof.
  intros HT HD HA HS HP Hdeb i1.
  destruct (selectSection_launched sectionName preset (controls i) HA HP)
    as (tl & c1 & E & T1).
  assert (E1 : i1
               = with_controls c1
                   {| controls := controls i; mouseDragging := mouseDragging i;
                      touchDragging := touchDragging i;
                      previousMousePosition := previousMousePosition i;
                      touchStartPosition := touchStartPosition i;
                      lastClickTime := currentTime; lastTap := lastTap i;
                      clickDebounceTime := clickDebounceTime i;
                      touchSensitivity := touchSensitivity i;
                      doubleTapTime := doubleTapTime i |}).
  { subst i1. unfold onClick.
    destruct (Qlt_le_dec _ _) as [C | C]; [lra |].
    cbn [mouseDragging]. rewrite HD. unfold handleSectionSelection.
    cbn [controls]. rewrite HT.
    assert (Tr : truthy (Some sectionName) = true)
      by (destruct sectionName; [contradiction | reflexivity]).
    rewrite Tr, E. reflexivity. }
  assert (T : isTransitioning (controls i1) = true)
    by (rewrite E1; exact T1).
  split; [exists tl, c1; split; [exact E | rewrite E1; reflexivity] |].
  split; [exact T |].
  split; [rewrite E1; reflexivity |].
  split.
  - intros later hit. unfold onClick.
    destruct (Qlt_le_dec _ _); [reflexivity |].
    cbn [mouseDragging controls].
    destruct (mouseDragging i1); [reflexivity |].
    unfold handleSectionSelection. cbn [controls]. rewrite T. reflexivity.
  - intros start moves. unfold drag.
    set (i2 := onMouseDown (fst start) (snd start) i1).
    assert (T2 : isTransitioning (controls i2) = true) by exact T.
    assert (D2 : mouseDragging i2 = false) by reflexivity.
    assert (C2 : carousel (controls i2) = carousel (controls i1))
      by reflexivity.
    rewrite <- C2. clearbody i2. clear C2.
    induction moves as [| p moves IH] in i2, T2, D2 |- *;
      [split; [reflexivity | exact D2] |].
    cbn [fold_left].
    assert (Same : onMouseMove (fst p) (snd p) i2 = i2).
    { unfold onMouseMove. rewrite T2, andb_false_r. reflexivity. }
    rewrite Same. apply IH; assumption.
Qed.

Lemma click_selects_once_until_complete_witness :
  let i := createInput (createControls CameraSystem.createCameraSystem
                          Carousel.createCarousel) in
  isTransitioning (controls (onClick 1000 (Some "chill-zone"%string) i))
  = true /\
  controls (onClick 5000 (Some "skill-planet"%string)
              (onClick 1000 (Some "chill-zone"%string) i))
  = controls (onClick 1000 (Some "chill-zone"%string) i).
Proof.
  intros i.
  destruct (click_selects_once_until_complete i 1000 "chill-zone"
              {| CameraSystem.position := CameraSystem.vec 0 5 12;
                 CameraSystem.lookAt := CameraSystem.vec 0 5 7;
                 CameraSystem.fov := 60;
                 CameraSystem.orbitControls :=
                   Some CameraSystem.section_orbit |})
    as (_ & T & _ & H & _); try reflexivity; try discriminate.
  split; [exact T | apply H].
Defined.

End PointerSpec.

(** ** The application controller over sequences of events *)
Module AppSpec.
Import App AppRun.

Lemma selectSection_keeps (sectionName : string) (app : APP) :
  let app' := snd (selectSection sectionName app) in
  isLoading app' = isLoading app /\ carousel app' = carousel app /\
  carouselRotation app' = carouselRotation app /\
  targetRotation app' = targetRotation app /\
  (animations app' = animations app \/
   exists p l, animations app' = ToSection sectionName p l :: animations app).
Proof.
  unfold selectSection.
  destruct (_ || _); [repeat split; left; reflexivity |].
  destruct (camera_for sectionName) as [[p l] |]; cbn;
    repeat split; [right; eexists _, _; reflexivity | left; reflexivity].
Qed.

Lemma handle_never_loaded (e : Event) (app : APP) :
  never_loaded app -> never_loaded (handle e app).
Proof.
  intros (H1 & H2 & H3 & H4 & H5).
  assert (Ret : never_loaded (snd (returnToOverview app))).
  { unfold returnToOverview, never_loaded.
    destruct (isTransitioning app); cbn; repeat split; try assumption.
    constructor; [reflexivity | assumption]. }
  assert (Rot : forall (a : number) (app0 : APP),
             never_loaded app0 ->
             snd (rotateCarouselTo a app0) = app0).
  { intros a app0 (_ & C & _). unfold rotateCarouselTo. rewrite C.
    reflexivity. }
  assert (Sel : forall s, never_loaded (snd (selectSection s app))).
  { intros s. destruct (selectSection_keeps s app)
      as (S1 & S2 & S3 & S4 & S5). cbv zeta in *.
    unfold never_loaded. rewrite S1, S2, S3, S4.
    repeat split; try assumption.
    destruct S5 as [-> | (p & l & ->)]; [assumption |].
    constructor; [reflexivity | assumption]. }
  destruct e as [key | hit | delta | s | | a | k]; cbn [handle].
  - unfold onKeyDown.
    destruct (String.eqb key "Escape" && _);
      destruct (String.eqb key "ArrowLeft");
      try destruct (String.eqb key "ArrowRight");
      rewrite ?Rot by (first [exact Ret | repeat split; assumption]);
      first [exact Ret | repeat split; assumption].
  - unfold onCanvasClick. rewrite H1, orb_true_r.
    repeat split; assumption.
  - unfold animate. rewrite H2. repeat split; assumption.
  - apply Sel.
  - exact Ret.
  - rewrite Rot by (repeat split; assumption). repeat split; assumption.
  - destruct (animations app !! k) as [a |] eqn:E;
      [| repeat split; assumption].
    assert (Ha : is_rotation a = false).
    { rewrite Forall_forall in H5. apply H5.
      eapply list_elem_of_lookup_2. exact E. }
    destruct a as [s p l | | a]; [| | discriminate];
      cbn; repeat split; assumption.
Qed.

(** X21.  None of the event handlers, exported functions and animation
    callbacks of app.js ends the loading state or sets the carousel
    reference.  So from [init] on, whatever events arrive, whatever
    exported functions are called and whichever animations end: [isLoading]
    is true and [APP.carousel] is null, a click on the canvas selects
    nothing, the arrow keys and [rotateCarouselTo] start no rotation, and
    the animation loop never turns the carousel. *)
Theorem app_never_leaves_loading_state (events : list Event) :
  let app := handle_all events init in
  isLoading app = true /\
  carousel app = None /\
  carouselRotation app = Num 0 /\
  (forall hit, onCanvasClick hit app = app) /\
  onKeyDown "ArrowLeft" app = app /\
  onKeyDown "ArrowRight" app = app /\
  (forall targetAngle, rotateCarouselTo targetAngle app = (Skipped, app)) /\
  (forall s delta, animate s delta app = app).
Proof.
  assert (Inv : forall app0, never_loaded app0 ->
                             never_loaded (handle_all events app0)).
  { induction events as [| e events IH]; intros app0 H; [exact H |].
    cbn [handle_all fold_left]. apply IH, handle_never_loaded, H. }
  assert (I0 : never_loaded init).
  { unfold never_loaded. cbn. repeat split; constructor. }
  specialize (Inv init I0). cbv zeta.
  destruct Inv as (H1 & H2 & H3 & H4 & H5).
  split; [exact H1 |]. split; [exact H2 |]. split; [exact H3 |].
  split; [intros hit; unfold onCanvasClick; rewrite H1, orb_true_r;
          reflexivity |].
  split.
  { unfold onKeyDown. change (String.eqb "ArrowLeft" "Escape") with false.
    cbn [andb]. change (String.eqb "ArrowLeft" "ArrowLeft") with true.
    cbv iota. unfold rotateCarouselTo. rewrite H2. reflexivity. }
  split.
  { unfold onKeyDown. change (String.eqb "ArrowRight" "Escape") with false.
    cbn [andb]. change (String.eqb "ArrowRight" "ArrowLeft") with false.
    change (String.eqb "ArrowRight" "ArrowRight") with true.
    cbv iota. unfold rotateCarouselTo. rewrite H2. reflexivity. }
  split; [intros a; unfold rotateCarouselTo; rewrite H2; reflexivity |].
  intros s delta. unfold animate. rewrite H2. reflexivity.
Qed.

Lemma camera_for_known (sectionName : string) (p l : Vector3) :
  camera_for sectionName = Some (p, l) ->
  sectionName <> ""%string.
Proof. intros H ->. discriminate. Qed.

(** X22.  [selectSection] with a name the [switch] does not know.  The
    active section and the transition flag are set and the controls
    disabled before the camera target, which no case assigned, is read:
    the call throws, no animation exists that would clear the flag, and
    from then on every key, click and frame and every call of the exported
    functions leaves the application as it is, with its controls
    disabled. *)
Theorem unknown_section_wedges_app (app : APP) (sectionName : string)
    (events : list Event) :
  isTransitioning app = false ->
  activeSection app <> Some sectionName ->
  camera_for sectionName = None ->
  Forall (fun e => is_animation_end e = false) events ->
  exists (error : string) (app1 : APP),
    selectSection sectionName app = (Threw error, app1) /\
    activeSection app1 = Some sectionName /\
    isTransitioning app1 = true /\
    controls_enabled app1 = false /\
    animations app1 = animations app /\
    camera_position app1 = camera_position app /\
    handle_all events app1 = app1.
Proof.
  intros HT HA HC Hev. unfold selectSection.
  rewrite HT, (bool_decide_eq_false_2 _ HA), HC. cbn [orb].
  eexists _, _. split; [reflexivity |].
  repeat split.
  set (app1 := {| isLoading := isLoading app |}).
  assert (T1 : isTransitioning app1 = true) by reflexivity.
  clearbody app1.
  induction Hev as [| e events He _ IH]; [reflexivity |].
  cbn [handle_all fold_left].
  assert (Same : handle e app1 = app1).
  { destruct e as [key | hit | delta | s | | a | k]; cbn [handle].
    - unfold onKeyDown, returnToOverview, rotateCarouselTo. rewrite T1.
      destruct (String.eqb key "Escape" && _); cbn [snd]; rewrite ?T1;
        destruct (String.eqb key "ArrowLeft");
        try destruct (String.eqb key "ArrowRight");
        destruct (carousel app1); reflexivity.
    - unfold onCanvasClick. rewrite T1. reflexivity.
    - unfold animate. rewrite T1, andb_false_r.
      destruct (carousel app1); reflexivity.
    - unfold selectSection. rewrite T1. reflexivity.
    - unfold returnToOverview. rewrite T1. reflexivity.
    - unfold rotateCarouselTo. rewrite T1.
      destruct (carousel app1); reflexivity.
    - discriminate. }
  rewrite Same. exact IH.
Qed.

Lemma unknown_section_wedges_app_witness :
  exists (error : string) (app1 : APP),
    selectSection "contact" init = (Threw error, app1) /\
    handle_all [KeyDown "Escape"; CallSelectSection "skill-planet";
                CallReturnToOverview] app1 = app1.
Proof.
  destruct (unknown_section_wedges_app init "contact"
              [KeyDown "Escape"; CallSelectSection "skill-planet";
               CallReturnToOverview])
    as (error & app1 & E & _ & _ & _ & _ & _ & H); try reflexivity.
  - discriminate.
  - repeat constructor.
  - exists error, app1. split; [exact E | exact H].
Defined.

(** X23.  A section visited and left again in the application controller.
    For a name the [switch] knows, selected outside a transition: while the
    camera moves the controls are disabled and other selections are
    skipped; at the end the controls are enabled around the section with
    the distance bounds 5 and 15 and the info panel shows the section;
    [returnToOverview] followed to its end puts the camera, the target and
    the bounds back to those of the overview, clears the active section
    and hides the panel. *)
Theorem visit_and_return_in_app (app : APP) (sectionName other : string)
    (cameraTarget lookAtPosition : Vector3) :
  isTransitioning app = false ->
  activeSection app <> Some sectionName ->
  camera_for sectionName = Some (cameraTarget, lookAtPosition) ->
  exists (a : Animation) (app1 : APP),
    selectSection sectionName app = (Launched a, app1) /\
    controls_enabled app1 = false /\
    selectSection other app1 = (Skipped, app1) /\
    returnToOverview app1 = (Skipped, app1) /\
    let app2 := animation_complete a app1 in
    camera_position app2 = cameraTarget /\
    controls_target app2 = lookAtPosition /\
    controls_minDistance app2 = 5 /\ controls_maxDistance app2 = 15 /\
    controls_enabled app2 = true /\
    infoPanel app2 = Some sectionName /\
    activeSection app2 = Some sectionName /\
    exists app3 : APP,
      onKeyDown "Escape" app2 = app3 /\
      returnToOverview app2 = (Launched ToOverview, app3) /\
      controls_enabled app3 = false /\
      infoPanel app3 = None /\
      activeSection app3 = Some sectionName /\
      let app4 := animation_complete ToOverview app3 in
      camera_position app4 = vec 0 15 30 /\
      controls_target app4 = vec 0 0 0 /\
      controls_minDistance app4 = 15 /\ controls_maxDistance app4 = 40 /\
      controls_enabled app4 = true /\
      activeSection app4 = None /\
      isTransitioning app4 = false.
Proof.
  intros HT HA HC.
  pose proof (camera_for_known _ _ _ HC) as Hne.
  unfold selectSection at 1.
  rewrite HT, (bool_decide_eq_false_2 _ HA), HC. cbn [orb].
  eexists _, _. split; [reflexivity |].
  split; [reflexivity |]. split; [reflexivity |]. split; [reflexivity |].
  cbv zeta. cbn [animation_complete].
  repeat (split; [reflexivity |]).
  eexists. split; [| split; [reflexivity |]].
  - unfold onKeyDown. change (String.eqb "Escape" "Escape") with true.
    cbn [activeSection andb].
    assert (Tr : InputControls.truthy (Some sectionName) = true)
      by (destruct sectionName; [contradiction | reflexivity]).
    rewrite Tr. reflexivity.
  - repeat split; reflexivity.
Qed.

Lemma visit_and_return_in_app_witness :
  exists (a : Animation) (app1 : APP),
    selectSection "skill-planet" init = (Launched a, app1) /\
    controls_maxDistance (animation_complete a app1) = 15.
Proof.
  destruct (visit_and_return_in_app init "skill-planet" "chill-zone"
              (vec 12 5 0) (vec 12 5 (-5)))
    as (a & app1 & E & _ & _ & _ & _ & _ & _ & H & _); try reflexivity.
  - discriminate.
  - exists a, app1. split; [exact E | exact H].
Defined.

End AppSpec.

(** ** More of the asset manager *)
Module LoaderMore.
Import AssetManager AssetStore.
Local Open Scope nat_scope.

Lemma resolved_idempotent (p : option PromiseState) :
  resolved (resolved p) = resolved p.
Proof. destruct p as [[| | e] |]; reflexivity. Qed.

Lemma resolve_promise (m : Manager) :
  resolve m = set_promise (resolved (promise m)) m.
Proof.
  unfold resolve, resolved.
  destruct m as [tx mo fo sv au q total loaded onP onC onE [[| | e] |] ev];
    reflexivity.
Qed.

(** Calling a completion callback value touches the event list and the
    promise only. *)
Lemma call_complete_effect (cb : CompleteCallback) (m : Manager) :
  let m' := call_complete cb m in
  stores m' = stores m /\ configuration m' = configuration m /\
  loadedItems m' = loadedItems m /\
  console_errors m' = console_errors m /\
  error_reports m' = error_reports m /\
  completions m' = completions m + user_calls cb /\
  promise m' = (if wraps cb then resolved (promise m) else promise m).
Proof.
  induction cb as [| | cb IH]; cbn [call_complete user_calls wraps].
  - rewrite Nat.add_0_r. repeat split; reflexivity.
  - unfold completions, console_errors, error_reports. cbn.
    rewrite Nat.add_1_r. repeat split; reflexivity.
  - destruct IH as (I1 & I2 & I3 & I4 & I5 & I6 & I7).
    rewrite resolve_promise.
    set (m1 := call_complete cb m) in *.
    change (stores (set_promise (resolved (promise m1)) m1)) with (stores m1).
    change (configuration (set_promise (resolved (promise m1)) m1))
      with (configuration m1).
    cbn [set_promise loadedItems promise].
    unfold completions, console_errors, error_reports in *.
    cbn [set_promise events].
    rewrite I1, I2, I3, I4, I5, I6, I7.
    repeat split; try reflexivity.
    destruct (wraps cb); [apply resolved_idempotent | reflexivity].
Qed.

Lemma updateProgress_effect (m : Manager) :
  let m' := updateProgress m in
  let last := Nat.eqb (S (loadedItems m)) (totalItems m) in
  stores m' = stores m /\ configuration m' = configuration m /\
  loadedItems m' = S (loadedItems m) /\
  console_errors m' = console_errors m /\
  error_reports m' = error_reports m /\
  completions m'
  = completions m + (if last then user_calls (onCompleteCallback m) else 0) /\
  promise m'
  = (if last && wraps (onCompleteCallback m) then resolved (promise m)
     else promise m).
Proof.
  destruct m as [tx mo fo sv au q total loaded onP onC onE pr ev].
  unfold updateProgress.
  cbn [loadedItems totalItems onProgressCallback onCompleteCallback
       textures models fonts svgs audios loadingQueue onErrorCallback
       promise events].
  cbv zeta.
  destruct onP;
    cbn [emit loadedItems totalItems onProgressCallback onCompleteCallback
         textures models fonts svgs audios loadingQueue onErrorCallback
         promise events];
    destruct (Nat.eqb (S loaded) total);
    cbn [andb];
    try match goal with
      | |- context [call_complete onC ?x] =>
          destruct (call_complete_effect onC x)
            as (C1 & C2 & C3 & C4 & C5 & C6 & C7);
          cbv zeta in C1, C2, C3, C4, C5, C6, C7;
          rewrite C1, C2, C3, C4, C5, C6, C7
      end;
    rewrite ?Nat.add_0_r;
    repeat split; reflexivity.
Qed.

Lemma reject_promise (error : string) (m : Manager) :
  reject error m = set_promise (rejected error (promise m)) m.
Proof.
  unfold reject, rejected.
  destruct m as [tx mo fo sv au q total loaded onP onC onE [[| | e] |] ev];
    reflexivity.
Qed.

Lemma dictionary_stores (m m' : Manager) :
  stores m' = stores m -> forall ty, dictionary ty m' = dictionary ty m.
Proof.
  unfold stores. intros E ty. injection E as E1 E2 E3 E4 E5.
  destruct ty; assumption.
Qed.

(** What one answer of a loader does, whatever the callbacks are. *)
Lemma settle_effect (item : QueueItem) (r : Result) (m : Manager) :
  let m' := settle item r m in
  let last := Nat.eqb (S (loadedItems m)) (totalItems m) in
  let settled :=
    if last && wraps (onCompleteCallback m) then resolved (promise m)
    else promise m in
  configuration m' = configuration m /\
  loadedItems m' = S (loadedItems m) /\
  console_errors m'
  = console_errors m + (if is_failure (item, r) then 1 else 0) /\
  error_reports m'
  = error_reports m
    + (if is_failure (item, r) && onErrorCallback m then 1 else 0) /\
  completions m'
  = completions m + (if last then user_calls (onCompleteCallback m) else 0) /\
  (forall ty,
      dictionary ty m'
      = match r with
        | Loaded =>
            if bool_decide (type item = ty)
            then <[name item := url item]> (dictionary ty m)
            else dictionary ty m
        | Failed _ => dictionary ty m
        end) /\
  promise m'
  = match r with
    | Loaded => settled
    | Failed error => rejected error settled
    end.
Proof.
  destruct r as [| error]; unfold settle, is_failure; cbn [snd andb].
  - destruct (updateProgress_effect (store item m))
      as (U1 & U2 & U3 & U4 & U5 & U6 & U7).
    cbv zeta in *.
    change (configuration (store item m)) with (configuration m) in U2.
    change (loadedItems (store item m)) with (loadedItems m) in *.
    change (totalItems (store item m)) with (totalItems m) in *.
    change (onCompleteCallback (store item m))
      with (onCompleteCallback m) in *.
    change (console_errors (store item m)) with (console_errors m) in U4.
    change (error_reports (store item m)) with (error_reports m) in U5.
    change (completions (store item m)) with (completions m) in U6.
    change (promise (store item m)) with (promise m) in U7.
    rewrite !Nat.add_0_r.
    split; [exact U2 |]. split; [exact U3 |]. split; [exact U4 |].
    split; [exact U5 |]. split; [exact U6 |]. split; [| exact U7].
    intros ty. rewrite (dictionary_stores _ _ U1 ty).
    destruct ty, item as [[] nm u]; reflexivity.
  - unfold handleError.
    set (logged := emit (ConsoleError (type item) (url item) error) m).
    set (told := if onErrorCallback logged then _ else logged).
    assert (T : stores told = stores m /\ configuration told = configuration m
                /\ loadedItems told = loadedItems m
                /\ totalItems told = totalItems m
                /\ onCompleteCallback told = onCompleteCallback m
                /\ console_errors told = S (console_errors m)
                /\ error_reports told
                   = error_reports m + (if onErrorCallback m then 1 else 0)
                /\ completions told = completions m
                /\ promise told = promise m).
    { subst told logged. cbn [emit onErrorCallback].
      destruct (onErrorCallback m);
        unfold console_errors, error_reports, completions; cbn;
        rewrite ?Nat.add_0_r, ?Nat.add_1_r; repeat split; reflexivity. }
    destruct T as (T1 & T2 & T3 & T4 & T5 & T6 & T7 & T8 & T9).
    destruct (updateProgress_effect told)
      as (U1 & U2 & U3 & U4 & U5 & U6 & U7).
    cbv zeta in *. rewrite reject_promise.
    set (m1 := updateProgress told) in *.
    change (configuration (set_promise (rejected error (promise m1)) m1))
      with (configuration m1).
    change (console_errors (set_promise (rejected error (promise m1)) m1))
      with (console_errors m1).
    change (error_reports (set_promise (rejected error (promise m1)) m1))
      with (error_reports m1).
    change (completions (set_promise (rejected error (promise m1)) m1))
      with (completions m1).
    cbn [set_promise loadedItems promise].
    rewrite U2, U3, U4, U5, U6, U7, T2, T3, T4, T5, T6, T7, T8, T9.
    rewrite Nat.add_1_r.
    split; [reflexivity |]. split; [reflexivity |].
    split; [reflexivity |]. split; [reflexivity |].
    split; [reflexivity |]. split; [| reflexivity].
    intros ty.
    match goal with
    | |- dictionary ty (set_promise ?p m1) = _ =>
        change (dictionary ty (set_promise p m1)) with (dictionary ty m1)
    end.
    rewrite (dictionary_stores _ _ U1 ty). apply dictionary_stores, T1.
Qed.

Lemma run_cons (a : QueueItem * Result) (l : list (QueueItem * Result))
    (m : Manager) :
  run (a :: l) m = run l (settle (fst a) (snd a) m).
Proof. reflexivity. Qed.

Lemma configuration_fields (m m' : Manager) :
  configuration m' = configuration m ->
  loadingQueue m' = loadingQueue m /\ totalItems m' = totalItems m /\
  onProgressCallback m' = onProgressCallback m /\
  onCompleteCallback m' = onCompleteCallback m /\
  onErrorCallback m' = onErrorCallback m.
Proof.
  unfold configuration. intros E. injection E as E1 E2 E3 E4 E5.
  repeat split; assumption.
Qed.

Lemma failures_cons (a : QueueItem * Result)
    (l : list (QueueItem * Result)) :
  failures (a :: l) = (if is_failure a then 1 else 0) + failures l.
Proof.
  unfold failures. rewrite filter_cons.
  destruct a as [item [| e]]; reflexivity.
Qed.

(** A run of answers, whatever the callbacks are. *)
Lemma run_effect (answers : list (QueueItem * Result)) (m : Manager) :
  let m' := run answers m in
  configuration m' = configuration m /\
  loadedItems m' = loadedItems m + length answers /\
  console_errors m' = console_errors m + failures answers /\
  error_reports m'
  = error_reports m + (if onErrorCallback m then failures answers else 0) /\
  completions m'
  = completions m
    + (if reaches_total m answers then user_calls (onCompleteCallback m)
       else 0).
Proof.
  revert m. induction answers as [| [item r] answers IH]; intros m.
  - cbn [run fold_left length]. unfold failures, reaches_total. cbn [length].
    rewrite Nat.add_0_r.
    replace (Nat.ltb (loadedItems m) (totalItems m)
             && Nat.leb (totalItems m) (loadedItems m)) with false
      by (symmetry; apply andb_false_iff;
          destruct (Nat.ltb_spec (loadedItems m) (totalItems m));
          [right; apply Nat.leb_gt; lia | left; reflexivity]).
    destruct (onErrorCallback m); rewrite ?Nat.add_0_r;
      repeat split; reflexivity.
  - rewrite run_cons. cbn [fst snd].
    destruct (settle_effect item r m) as (S1 & S2 & S3 & S4 & S5 & _ & _).
    cbv zeta in S1, S2, S3, S4, S5.
    destruct (configuration_fields _ _ S1) as (_ & C2 & _ & C4 & C5).
    destruct (IH (settle item r m)) as (H1 & H2 & H3 & H4 & H5).
    cbv zeta in *.
    rewrite H1, H2, H3, H4, H5, S1, S2, S3, S4, S5, C4, C5.
    unfold reaches_total. rewrite S2, C2. cbn [length].
    rewrite failures_cons.
    split; [reflexivity |]. split; [lia |].
    split; [| split].
    + destruct r; cbn [is_failure snd andb]; lia.
    + destruct r; cbn [is_failure snd andb];
        destruct (onErrorCallback m); lia.
    + destruct (Nat.eqb_spec (S (loadedItems m)) (totalItems m)) as [E | E];
        destruct (Nat.ltb_spec (S (loadedItems m)) (totalItems m));
        destruct (Nat.ltb_spec (loadedItems m) (totalItems m));
        destruct (Nat.leb_spec (totalItems m)
                    (S (loadedItems m) + length answers));
        destruct (Nat.leb_spec (totalItems m)
                    (loadedItems m + S (length answers)));
        cbn [andb]; lia.
Qed.

(** X24.  The bookkeeping of a loading run, whatever the callbacks and
    whatever state the manager is in: every answer of a loader, success
    or failure, counts as one loaded item; every failure is written to the
    console, and reported to the error callback exactly when one was
    given; the queue, the total and the callbacks are not touched. *)
Theorem every_answer_counts_and_every_failure_is_logged
    (answers : list (QueueItem * Result)) (m : Manager) :
  let m' := run answers m in
  loadedItems m' = loadedItems m + length answers /\
  console_errors m' = console_errors m + failures answers /\
  error_reports m'
  = error_reports m + (if onErrorCallback m then failures answers else 0) /\
  loadingQueue m' = loadingQueue m /\
  totalItems m' = totalItems m /\
  onCompleteCallback m' = onCompleteCallback m /\
  (completions m' = completions m \/
   completions m' = completions m + user_calls (onCompleteCallback m)).
Proof.
  destruct (run_effect answers m) as (H1 & H2 & H3 & H4 & H5).
  cbv zeta in *.
  destruct (configuration_fields _ _ H1) as (C1 & C2 & _ & C4 & _).
  repeat (split; [assumption |]).
  rewrite H5. destruct (reaches_total m answers); [right | left]; lia.
Qed.

Lemma run_past_total (answers : list (QueueItem * Result)) (m : Manager) :
  totalItems m <= loadedItems m ->
  let m' := run answers m in
  completions m' = completions m /\
  promise m'
  = fold_left (fun p a => match snd a with
                          | Loaded => p
                          | Failed error => rejected error p
                          end) answers (promise m).
Proof.
  revert m. induction answers as [| [item r] answers IH]; intros m Hle.
  - split; reflexivity.
  - rewrite run_cons. cbn [fst snd fold_left].
    destruct (settle_effect item r m) as (S1 & S2 & _ & _ & S5 & _ & S7).
    cbv zeta in S1, S2, S5, S7.
    destruct (configuration_fields _ _ S1) as (_ & C2 & _).
    replace (Nat.eqb (S (loadedItems m)) (totalItems m)) with false in S5, S7
      by (symmetry; apply Nat.eqb_neq; lia).
    cbn [andb] in S7. rewrite Nat.add_0_r in S5.
    destruct (IH (settle item r m)) as [H1 H2]; [rewrite S2, C2; lia |].
    cbv zeta in *. rewrite H1, H2, S5, S7.
    split; [reflexivity |]. destruct r; reflexivity.
Qed.

Lemma rejections_never_fulfil (answers : list (QueueItem * Result))
    (p : option PromiseState) :
  p <> Some Fulfilled ->
  let p' := fold_left (fun p a => match snd a with
                                  | Loaded => p
                                  | Failed error => rejected error p
                                  end) answers p in
  p' <> Some Fulfilled /\ (failures answers = 0 -> p' = p).
Proof.
  revert p. induction answers as [| [item r] answers IH]; intros p Hp.
  - split; [exact Hp | reflexivity].
  - cbn [fold_left snd]. rewrite failures_cons.
    destruct r as [| error]; cbn [is_failure snd].
    + apply IH, Hp.
    + destruct (IH (rejected error p)) as [H1 _].
      { destruct p as [[| | e] |]; cbn; congruence. }
      split; [exact H1 | intros C; lia].
Qed.

(** X25.  Loading again without [reset].  On a manager whose loaded count
    has already reached the total, as after a completed run, [loadAll]
    starts every queued asset again and returns a new pending promise, but
    the count moves further past the total and never equals it: the
    completion callback is not called again, and the promise is never
    fulfilled, whichever answers arrive; it stays pending for ever when
    all loads succeed. *)
Theorem reload_without_reset_never_completes
    (answers : list (QueueItem * Result)) (m : Manager) :
  loadingQueue m <> [] ->
  totalItems m <= loadedItems m ->
  let m' := run answers (loadAll m) in
  promise (loadAll m) = Some Pending /\
  completions m' = completions m /\
  promise m' <> Some Fulfilled /\
  (failures answers = 0 -> promise m' = Some Pending) /\
  (answers <> [] -> totalItems m' < loadedItems m').
Proof.
  intros Hq Hle.
  assert (L : promise (loadAll m) = Some Pending
              /\ totalItems (loadAll m) = totalItems m
              /\ loadedItems (loadAll m) = loadedItems m
              /\ completions (loadAll m) = completions m).
  { unfold loadAll. destruct (loadingQueue m); [contradiction |].
    repeat split; reflexivity. }
  destruct L as (L1 & L2 & L3 & L4).
  destruct (run_past_total answers (loadAll m)) as [H1 H2];
    [rewrite L2, L3; exact Hle |].
  destruct (rejections_never_fulfil answers (promise (loadAll m)))
    as [R1 R2]; [rewrite L1; discriminate |].
  destruct (run_effect answers (loadAll m)) as (E1 & E2 & _).
  destruct (configuration_fields _ _ E1) as (_ & C2 & _).
  cbv zeta in *.
  split; [exact L1 |]. split; [rewrite H1; exact L4 |].
  split; [rewrite H2; exact R1 |].
  split; [intros F; rewrite H2, (R2 F); exact L1 |].
  intros Hne. rewrite C2, E2, L2, L3.
  destruct answers; [contradiction | cbn [length]; lia].
Qed.

Lemma reload_without_reset_never_completes_witness :
  let finished :=
    run [(stars, Loaded); (noise, Loaded)] (start true true true [noise; stars]) in
  completions finished = 1 /\
  completions
    (run [(noise, Loaded); (stars, Loaded)] (loadAll finished)) = 1 /\
  promise (run [(noise, Loaded); (stars, Loaded)] (loadAll finished))
  = Some Pending.
Proof.
  intros finished.
  destruct (reload_without_reset_never_completes
              [(noise, Loaded); (stars, Loaded)] finished)
    as (_ & H1 & _ & H2 & _).
  - discriminate.
  - vm_compute. lia.
  - split; [reflexivity |]. split; [exact H1 |]. apply H2. reflexivity.
Defined.

Lemma run_app' (l1 l2 : list (QueueItem * Result)) (m : Manager) :
  run (l1 ++ l2) m = run l2 (run l1 m).
Proof. unfold run. apply fold_left_app. Qed.

Lemma run_keeps_entry (answers : list (QueueItem * Result)) (ty : AssetType)
    (n : string) (m : Manager) :
  (forall a, a ∈ answers -> ~ stores_as ty n a) ->
  dictionary ty (run answers m) !! n = dictionary ty m !! n.
Proof.
  revert m. induction answers as [| [item r] answers IH]; intros m H;
    [reflexivity |].
  rewrite run_cons. cbn [fst snd].
  rewrite IH by (intros a Ha; apply H; apply elem_of_cons; now right).
  destruct (settle_effect item r m) as (_ & _ & _ & _ & _ & D & _).
  rewrite (D ty). destruct r as [| error]; [| reflexivity].
  destruct (bool_decide (type item = ty)) eqn:B; [| reflexivity].
  apply bool_decide_eq_true in B.
  apply lookup_insert_ne. intros E.
  apply (H (item, Loaded)); [apply elem_of_cons; now left |].
  unfold stores_as. cbn [fst snd]. repeat split; assumption.
Qed.

(** X26.  What the dictionaries hold after a run in which no asset of the
    type looked at is loaded under the name [__proto__].  (An assignment
    to that name runs the setter every object inherits: it creates no
    entry and replaces the prototype of the dictionary, which the map
    insert of [store] does not describe.)  An entry for which no answer of
    the run was a successful load of that type and name is what it was
    before: a failed load stores nothing.  After a successful load that no
    later successful load of the same type and name follows, the entry is
    the loaded asset, and the getter returns it. *)
Theorem loaded_assets_are_stored_and_failed_ones_are_not
    (answers : list (QueueItem * Result)) (ty : AssetType) (n : string)
    (m : Manager) :
  (forall a, a ∈ answers -> snd a = Loaded -> type (fst a) = ty ->
             name (fst a) <> "__proto__"%string) ->
  ((forall a, a ∈ answers -> ~ stores_as ty n a) ->
   dictionary ty (run answers m) !! n = dictionary ty m !! n /\
   getAsset ty n (run answers m) = getAsset ty n m) /\
  (forall (before after : list (QueueItem * Result)) (item : QueueItem),
      answers = before ++ (item, Loaded) :: after ->
      type item = ty -> name item = n ->
      (forall a, a ∈ after -> ~ stores_as ty n a) ->
      n <> "__proto__"%string /\
      dictionary ty (run answers m) !! n = Some (url item) /\
      getAsset ty n (run answers m) = Own (url item)).
Proof.
  intros Hplain. split.
  - intros H. pose proof (run_keeps_entry answers ty n m H) as E.
    split; [exact E |]. unfold getAsset, get. rewrite E. reflexivity.
  - intros before after item -> Hty Hn Hafter.
    split.
    { rewrite <- Hn.
      apply (Hplain (item, Loaded)); [| reflexivity | exact Hty].
      apply elem_of_app. right. apply elem_of_cons. left. reflexivity. }
    assert (E : dictionary ty (run (before ++ (item, Loaded) :: after) m) !! n
                = Some (url item)).
    { rewrite run_app', run_cons. cbn [fst snd].
      rewrite (run_keeps_entry after ty n _ Hafter).
      destruct (settle_effect item Loaded (run before m))
        as (_ & _ & _ & _ & _ & D & _).
      rewrite (D ty), (bool_decide_eq_true_2 _ Hty), Hn.
      apply lookup_insert_eq. }
    split; [exact E |]. unfold getAsset, get. rewrite E. reflexivity.
Qed.

Lemma loaded_assets_are_stored_and_failed_ones_are_not_witness :
  let answers := [(noise, Loaded); (stars, Failed "404"); (glow, Loaded)] in
  let m := start false false false [noise; stars; glow] in
  getTexture "starsTex" (run answers m) = Undefined /\
  getTexture "noiseTex" (run answers m) = Own "assets/textures/noise.jpg"%string.
Proof.
  intros answers m.
  assert (Hplain : forall a, a ∈ answers -> snd a = Loaded ->
                             type (fst a) = texture ->
                             name (fst a) <> "__proto__"%string).
  { intros a Ha _ _.
    repeat (apply elem_of_cons in Ha as [-> | Ha]); try discriminate.
    apply elem_of_nil in Ha. destruct Ha. }
  split.
  - apply (proj1 (loaded_assets_are_stored_and_failed_ones_are_not
                    answers texture "starsTex" m Hplain)).
    intros a Ha (H1 & H2 & H3).
    repeat (apply elem_of_cons in Ha as [-> | Ha]); try discriminate.
    apply elem_of_nil in Ha. exact Ha.
  - apply (proj2 (loaded_assets_are_stored_and_failed_ones_are_not
                    answers texture "noiseTex" m Hplain)
             [] [(stars, Failed "404"); (glow, Loaded)] noise);
      try reflexivity.
    intros a Ha (H1 & H2 & H3).
    repeat (apply elem_of_cons in Ha as [-> | Ha]); try discriminate.
    apply elem_of_nil in Ha. exact Ha.
Defined.

Lemma run_promise_loaded (answers : list (QueueItem * Result)) (m : Manager) :
  failures answers = 0 ->
  promise (run answers m)
  = (if reaches_total m answers && wraps (onCompleteCallback m)
     then resolved (promise m) else promise m).
Proof.
  revert m. induction answers as [| [item r] answers IH]; intros m F.
  - cbn [run fold_left]. unfold reaches_total. cbn [length].
    rewrite Nat.add_0_r.
    destruct (Nat.ltb_spec (loadedItems m) (totalItems m));
      destruct (Nat.leb_spec (totalItems m) (loadedItems m));
      cbn [andb]; try reflexivity; lia.
  - rewrite failures_cons in F.
    destruct r as [| error]; cbn [is_failure snd] in F; [| lia].
    rewrite run_cons. cbn [fst snd]. rewrite IH by exact F.
    destruct (settle_effect item Loaded m) as (S1 & S2 & _ & _ & _ & _ & S7).
    cbv zeta in S1, S2, S7.
    destruct (configuration_fields _ _ S1) as (_ & C2 & _ & C4 & _).
    unfold reaches_total. rewrite S2, S7, C2, C4. cbn [length].
    destruct (wraps (onCompleteCallback m));
      rewrite ?andb_true_r, ?andb_false_r; [| reflexivity].
    destruct (Nat.eqb_spec (S (loadedItems m)) (totalItems m)) as [E | E];
      destruct (Nat.ltb_spec (S (loadedItems m)) (totalItems m));
      destruct (Nat.ltb_spec (loadedItems m) (totalItems m));
      destruct (Nat.leb_spec (totalItems m)
                  (S (loadedItems m) + length answers));
      destruct (Nat.leb_spec (totalItems m)
                  (loadedItems m + S (length answers)));
      cbn [andb]; rewrite ?resolved_idempotent; try reflexivity; lia.
Qed.

Lemma user_calls_at_most_one (cb : CompleteCallback) : user_calls cb <= 1.
Proof. induction cb; cbn [user_calls]; lia. Qed.

(** X27.  A manager used again after [reset].  Whatever it loaded before
    and however many closures of earlier [loadAll] calls its completion
    callback is wrapped in, a new batch queued after [reset] is counted
    from zero: the promise of the new [loadAll] is pending, nothing is
    completed while answers are outstanding, and the last answer calls the
    function given to [setCallbacks] once, not once per earlier run.
    When no load fails, the promise is then fulfilled. *)
Theorem reset_starts_a_fresh_count (items : list QueueItem)
    (answers : list (QueueItem * Result)) (m : Manager) :
  items <> [] ->
  length answers = length items ->
  let m0 := loadAll (queue_all items (reset m)) in
  loadedItems m0 = 0 /\ totalItems m0 = length items /\
  promise m0 = Some Pending /\
  onCompleteCallback m0 = LoadAllCallback (onCompleteCallback m) /\
  (forall k, k < length items ->
             completions (run (take k answers) m0) = completions m) /\
  completions (run answers m0)
  = completions m + user_calls (onCompleteCallback m) /\
  user_calls (onCompleteCallback m) <= 1 /\
  (failures answers = 0 -> promise (run answers m0) = Some Fulfilled).
Proof.
  intros Hne Hlen m0.
  destruct (LoaderSpec.queue_all_fields items (reset m))
    as (Q1 & Q2 & Q3 & _ & Q5 & _ & Q7).
  cbv zeta in Q1, Q2, Q3, Q5, Q7.
  cbn [reset loadingQueue totalItems loadedItems onCompleteCallback events
       app] in Q1, Q2, Q3, Q5, Q7.
  assert (M : loadedItems m0 = 0 /\ totalItems m0 = length items
              /\ promise m0 = Some Pending
              /\ onCompleteCallback m0 = LoadAllCallback (onCompleteCallback m)
              /\ completions m0 = completions m).
  { subst m0. unfold loadAll. rewrite Q1.
    destruct items as [| i l]; [contradiction |].
    unfold completions.
    cbn [loadedItems totalItems promise onCompleteCallback events].
    rewrite Q2, Q3, Q5, Q7. repeat split; reflexivity. }
  destruct M as (M1 & M2 & M3 & M4 & M5).
  assert (Hpos : 0 < length items)
    by (destruct items; [contradiction | cbn; lia]).
  split; [exact M1 |]. split; [exact M2 |]. split; [exact M3 |].
  split; [exact M4 |]. split; [| split; [| split]].
  - intros k Hk.
    destruct (run_effect (take k answers) m0) as (_ & _ & _ & _ & E).
    cbv zeta in E. rewrite E, M5. unfold reaches_total.
    rewrite M1, M2, length_take, Hlen.
    replace (Nat.leb (length items) (0 + Nat.min k (length items)))
      with false by (symmetry; apply Nat.leb_gt; lia).
    rewrite andb_false_r. lia.
  - destruct (run_effect answers m0) as (_ & _ & _ & _ & E).
    cbv zeta in E. rewrite E, M5, M4. unfold reaches_total.
    rewrite M1, M2, Hlen.
    replace (Nat.ltb 0 (length items)) with true
      by (symmetry; apply Nat.ltb_lt; exact Hpos).
    replace (Nat.leb (length items) (0 + length items)) with true
      by (symmetry; apply Nat.leb_le; lia).
    reflexivity.
  - apply user_calls_at_most_one.
  - intros F. rewrite (run_promise_loaded answers m0 F).
    unfold reaches_total. rewrite M1, M2, M3, M4, Hlen.
    replace (Nat.ltb 0 (length items)) with true
      by (symmetry; apply Nat.ltb_lt; exact Hpos).
    replace (Nat.leb (length items) (0 + length items)) with true
      by (symmetry; apply Nat.leb_le; lia).
    reflexivity.
Qed.

Lemma reset_starts_a_fresh_count_witness :
  let finished :=
    run [(stars, Loaded); (noise, Loaded)]
      (start true true true [noise; stars]) in
  let again := loadAll (queue_all [glow; platform] (reset finished)) in
  completions finished = 1 /\
  completions (run [(platform, Loaded); (glow, Loaded)] again) = 2 /\
  promise (run [(platform, Loaded); (glow, Loaded)] again) = Some Fulfilled.
Proof.
  intros finished again.
  destruct (reset_starts_a_fresh_count [glow; platform]
              [(platform, Loaded); (glow, Loaded)] finished)
    as (_ & _ & _ & _ & _ & H1 & _ & H2).
  - discriminate.
  - reflexivity.
  - split; [reflexivity |]. split; [exact H1 |]. apply H2. reflexivity.
Defined.

End LoaderMore.

(** ** The effect transitions *)
Module PostProcessingSpec.
Import PostProcessing.

Lemma eased_unit (easing : string) (progress : Q) :
  0 <= progress -> progress < 1 ->
  0 <= eased easing progress /\ eased easing progress <= 1.
Proof.
  intros H0 H1. unfold eased.
  destruct (String.eqb easing "easeIn"); [split; nra |].
  destruct (String.eqb easing "easeOut"); [split; nra |].
  destruct (String.eqb easing "easeInOut"); [| split; lra].
  destruct (Qlt_le_dec progress (5 # 10)); [split; nra |].
  change (?x / 2) with (x * (1 # 2)). split; nra.
Qed.

Lemma between_blend (a b e : Q) :
  0 <= e -> e <= 1 -> between a b (a + (b - a) * e).
Proof.
  intros H0 H1. unfold between.
  destruct (Qlt_le_dec b a); [right | left]; split; nra.
Qed.

Lemma between_end (a b : Q) : between a b b.
Proof.
  unfold between. destruct (Qlt_le_dec b a); [right | left]; split; lra.
Qed.

Lemma value_of_set_value (e e' : Effect) (v : Q) (p : Passes) :
  value_of e' (set_value e v p)
  = if bool_decide (e' = e) then Some v else value_of e' p.
Proof. destruct e, e'; reflexivity. Qed.

Lemma not_yet (a now : Q) : Qle_bool a now = false -> now < a.
Proof.
  intros E. apply Qnot_le_lt. intros C. apply Qle_bool_iff in C. congruence.
Qed.

Lemma not_zero (q : Q) : 0 < q -> is_zero q = false.
Proof.
  intros H. unfold is_zero. destruct (Qeq_bool q 0) eqn:E; [| reflexivity].
  apply Qeq_bool_iff in E. lra.
Qed.

(** What one update of an effect animation does. *)
Lemma animation_update_spec (a : Animation) (now : Q) (p : Passes) :
  startTime a <= now ->
  exists (done : bool) (v : Q),
    animation_update a now p = Some (done, set_value (effect a) v p) /\
    (done = true <-> endTime a <= now) /\
    between (fromValue a) (toValue a) v /\
    (done = true -> v = toValue a).
Proof.
  intros Ht. unfold animation_update.
  destruct (Qle_bool (endTime a) now) eqn:E.
  - exists true, (toValue a). split; [reflexivity |].
    split; [split; [intros _; apply Qle_bool_iff; exact E | reflexivity] |].
    split; [apply between_end | reflexivity].
  - pose proof (not_yet _ _ E) as Hlt.
    rewrite not_zero by lra.
    destruct (CameraAnimationsSpec.ratio_unit (now - startTime a)
                (endTime a - startTime a)) as [P0 P1]; [lra | lra |].
    destruct (eased_unit (easing a) _ P0 P1) as [E0 E1].
    eexists false, _. split; [reflexivity |].
    split; [split; [discriminate |
                    intros C; apply Qle_bool_iff in C; congruence] |].
    split; [apply between_blend; assumption | discriminate].
Qed.

(** X28.  An effect transition made by [transitionEffect] for one of the
    four effects it knows, updated at a time not before its start: the
    animated value always lies between the start value and the target
    value, for each of the easings; the update reports completion exactly
    when the end time has been reached, and the value is then the target
    value itself.  Nothing else is written. *)
Theorem effect_transition_stays_between_and_lands_on_target
    (name : string) (fromValue toValue duration : Q) (easing : option string)
    (t0 now : Q) (p : Passes) (a : Animation) :
  transitionEffect name fromValue toValue duration easing t0 p = Some a ->
  t0 <= now ->
  effect_of name = Some (effect a) /\
  exists (done : bool) (p' : Passes) (v : Q),
    animation_update a now p = Some (done, p') /\
    (done = true <-> t0 + duration * 1000 <= now) /\
    value_of (effect a) p' = Some v /\
    between fromValue toValue v /\
    (done = true -> v = toValue) /\
    (forall e, e <> effect a -> value_of e p' = value_of e p) /\
    depthOfField p' = depthOfField p.
Proof.
  intros Ha Ht. unfold transitionEffect in Ha.
  destruct (effect_of name) as [e |]; [| discriminate].
  destruct (value_of e p) as [current |]; [| discriminate].
  injection Ha as <-. cbn [effect]. split; [reflexivity |].
  destruct (animation_update_spec
              {| effect := e; fromValue := fromValue; toValue := toValue;
                 startTime := t0; endTime := t0 + duration * 1000;
                 easing := default "linear"%string easing |} now p Ht)
    as (done & v & E & D & B & T).
  cbn [effect PostProcessing.fromValue PostProcessing.toValue endTime]
    in E, D, B, T.
  exists done, (set_value e v p), v.
  split; [exact E |]. split; [exact D |].
  split; [rewrite value_of_set_value, bool_decide_eq_true_2; reflexivity |].
  split; [exact B |]. split; [exact T |].
  split.
  - intros e' Hne.
    rewrite value_of_set_value, bool_decide_eq_false_2; [reflexivity | exact Hne].
  - destruct e; reflexivity.
Qed.

Lemma effect_transition_stays_between_and_lands_on_target_witness :
  exists (a : Animation) (done : bool) (p' : Passes) (v : Q),
    transitionEffect "vignette" 1 (1 # 2) 2 (Some "easeInOut"%string) 1000
      (createPostProcessing cosmic) = Some a /\
    animation_update a 2500 (createPostProcessing cosmic) = Some (done, p') /\
    vignette p' = Some v /\ between 1 (1 # 2) v.
Proof.
  eexists. 
  destruct (effect_transition_stays_between_and_lands_on_target
              "vignette" 1 (1 # 2) 2 (Some "easeInOut"%string) 1000 2500
              (createPostProcessing cosmic) _ eq_refl)
    as (_ & done & p' & v & E & _ & V & B & _).
  - discriminate.
  - exists done, p', v. split; [reflexivity |].
    split; [exact E |]. split; [exact V | exact B].
Defined.

Lemma optimizeForSection_overwrites (sectionName : string) (p : Passes)
    (b b' c c' : Q) :
  bloom p = Some b -> chromaticAberration p = Some c ->
  optimizeForSection sectionName
    (set_value ChromaticAberration c' (set_value Bloom b' p))
  = optimizeForSection sectionName p.
Proof.
  intros Hb Hc. unfold optimizeForSection.
  destruct p as [bl ca vi ne dof]. cbn in Hb, Hc. subst bl ca.
  repeat match goal with
    | |- context [String.eqb sectionName ?s] =>
        destruct (String.eqb sectionName s)
    end; reflexivity.
Qed.

Lemma optimizeForSection_creates_no_pass (sectionName : string) (p : Passes) :
  (depthOfField p = None ->
   depthOfField (optimizeForSection sectionName p) = None) /\
  vignette (optimizeForSection sectionName p) = vignette p /\
  neonGlow (optimizeForSection sectionName p) = neonGlow p.
Proof.
  unfold optimizeForSection.
  repeat match goal with
    | |- context [String.eqb sectionName ?s] =>
        destruct (String.eqb sectionName s)
    end;
    (split; [intros H; cbn; rewrite H; reflexivity | split; reflexivity]).
Qed.

(** X29.  The section transition effect.  With a bloom pass and a
    chromatic aberration pass, [createSectionTransition] returns a
    transition; an update at times not before its two starts leaves both
    values between where they were and the peaks 1.2 and 0.01 while it is
    not complete, is complete exactly when both animations have run their
    0.6 seconds, and then leaves the passes exactly as [optimizeForSection]
    alone would have: the peaks leave no trace.  No update creates a pass:
    under the [cosmic] preset, which has no depth of field pass, no section
    ever gets one, although four of the five branches of
    [optimizeForSection] configure it. *)
Theorem section_transition_ends_on_section_values
    (fromSection toSection : string) (t1 t2 now1 now2 b c : Q) (p : Passes) :
  bloom p = Some b -> chromaticAberration p = Some c ->
  t1 <= now1 -> t2 <= now2 ->
  (exists (t : SectionTransition) (done : bool) (p' : Passes),
      createSectionTransition fromSection toSection t1 t2 p = Some t /\
      section_transition_update t now1 now2 p = Some (done, p') /\
      (done = true <-> t1 + 600 <= now1 /\ t2 + 600 <= now2) /\
      (done = true -> p' = optimizeForSection toSection p) /\
      (done = false ->
       exists v w : Q,
         bloom p' = Some v /\ between b (12 # 10) v /\
         chromaticAberration p' = Some w /\ between c (1 # 100) w /\
         vignette p' = vignette p /\ neonGlow p' = neonGlow p /\
         depthOfField p' = depthOfField p) /\
      (depthOfField p = None -> depthOfField p' = None)) /\
  (forall sectionName,
      depthOfField (optimizeForSection sectionName (createPostProcessing cosmic))
      = None).
Proof.
  intros Hb Hc Ht1 Ht2. split.
  2: { intros s.
       apply (proj1 (optimizeForSection_creates_no_pass s _)). reflexivity. }
  unfold createSectionTransition. rewrite Hb, Hc.
  unfold transitionEffect.
  change (effect_of "bloom") with (Some Bloom).
  change (effect_of "chromaticAberration") with (Some ChromaticAberration).
  cbn [value_of default]. rewrite Hb, Hc.
  eexists. 
  set (a1 := {| effect := Bloom; fromValue := b |}).
  set (a2 := {| effect := ChromaticAberration; fromValue := c |}).
  destruct (animation_update_spec a1 now1 p Ht1)
    as (d1 & v & E1 & D1 & B1 & T1).
  destruct (animation_update_spec a2 now2 (set_value Bloom v p) Ht2)
    as (d2 & w & E2 & D2 & B2 & T2).
  assert (U : section_transition_update
                {| bloomAnimation := Some a1; aberrationAnimation := Some a2;
                   toSection := toSection |} now1 now2 p
              = Some (if d1 && d2
                      then (true,
                            optimizeForSection toSection
                              (set_value ChromaticAberration w
                                 (set_value Bloom v p)))
                      else (false,
                            set_value ChromaticAberration w
                              (set_value Bloom v p)))).
  { unfold section_transition_update.
    cbn [bloomAnimation aberrationAnimation PostProcessing.toSection].
    cbv beta iota zeta. rewrite E1. cbv beta iota zeta. cbn [andb].
    change (effect a1) with Bloom. rewrite E2.
    change (effect a2) with ChromaticAberration.
    destruct d1, d2; reflexivity. }
  assert (End1 : endTime a1 <= now1 <-> t1 + 600 <= now1).
  { subst a1. cbn [endTime]. split; intros; lra. }
  assert (End2 : endTime a2 <= now2 <-> t2 + 600 <= now2).
  { subst a2. cbn [endTime]. split; intros; lra. }
  destruct (d1 && d2) eqn:Both.
  - apply andb_true_iff in Both as [-> ->].
    eexists true, _. split; [reflexivity |]. split; [exact U |].
    split.
    { split; [intros _ | reflexivity].
      split; [apply End1, D1 | apply End2, D2]; reflexivity. }
    split.
    { intros _. apply (optimizeForSection_overwrites _ _ b v c w Hb Hc). }
    split; [discriminate |].
    intros Hd.
    apply (proj1 (optimizeForSection_creates_no_pass toSection _)).
    exact Hd.
  - eexists false, _. split; [reflexivity |]. split; [exact U |].
    split.
    { split; [discriminate |]. intros [F1 F2].
      apply End1, D1 in F1. apply End2, D2 in F2. subst d1 d2. discriminate. }
    split; [discriminate |].
    split.
    { intros _. exists v, w. cbn.
      split; [reflexivity |]. split; [exact B1 |].
      split; [reflexivity |]. split; [exact B2 |].
      repeat split; reflexivity. }
    intros Hd. exact Hd.
Qed.

Lemma section_transition_ends_on_section_values_witness :
  exists (t : SectionTransition),
    createSectionTransition "overview" "skill-planet" 0 1
      (createPostProcessing cosmic) = Some t /\
    section_transition_update t 700 700 (createPostProcessing cosmic)
    = Some (true,
            optimizeForSection "skill-planet" (createPostProcessing cosmic)).
Proof.
  destruct (section_transition_ends_on_section_values
              "overview" "skill-planet" 0 1 700 700 (7 # 10) (3 # 1000)
              (createPostProcessing cosmic))
    as ((t & done & p' & E & U & D & F & _) & _);
    try reflexivity; try discriminate.
  exists t. split; [exact E |].
  assert (Hd : done = true).
  { apply D. split; discriminate. }
  rewrite U, Hd, (F Hd). reflexivity.
Defined.

End PostProcessingSpec.

(** ** The reveal transitions *)
Module RevealSpec.
Import CameraSystem Reveal.

Lemma set_opacity_twice (a b : Q) (m : option Material) :
  set_opacity a (set_opacity b m) = set_opacity a m.
Proof.
  destruct m as [[[] o] |]; reflexivity.
Qed.

Lemma start_pose_ignores_delay (object : Object3D) (d : Q) (s : Settings) :
  snd (createRevealTransition object (with_delay d s))
  = snd (createRevealTransition object s) /\
  reveal_complete (fst (createRevealTransition object (with_delay d s)))
  = reveal_complete (fst (createRevealTransition object s)).
Proof.
  unfold createRevealTransition. cbn [from with_delay].
  repeat match goal with
    | |- context [String.eqb (from s) ?k] => destruct (String.eqb (from s) k)
    end; split; reflexivity.
Qed.

(** What a reveal does to one object. *)
Lemma reveal_one (object : Object3D) (settings : Settings) :
  let t := fst (createRevealTransition object settings) in
  let start := snd (createRevealTransition object settings) in
  let shown := reveal_complete t start in
  visible start = true /\
  obj_position shown = obj_position object /\
  obj_scale shown = obj_scale object /\
  euler_x (obj_rotation shown) = euler_x (obj_rotation object) /\
  euler_y (obj_rotation shown) = euler_y (obj_rotation object) /\
  euler_z (obj_rotation shown) = euler_z (obj_rotation object) /\
  order (obj_rotation shown)
  = (if rotation settings && is_direction (from settings)
     then "XYZ"%string else order (obj_rotation object)) /\
  visible shown = true /\
  material shown
  = (if is_direction (from settings) then material object
     else if String.eqb (from settings) "fade"
          then set_opacity 1 (material object)
          else set_opacity 0 (material object)) /\
  forall mid : Object3D,
    material mid = material start ->
    reveal_cancel t mid
    = {| obj_position := obj_position object;
         obj_rotation := obj_rotation object;
         obj_scale := obj_scale object;
         visible := visible object;
         material := set_opacity 1 (material object) |}.
Proof.
  unfold createRevealTransition, is_direction.
  destruct object as [pos [rx ry rz ord] scl vis mat].
  cbn [obj_position obj_rotation obj_scale visible material euler_x euler_y
       euler_z order].
  assert (Dir : forall k : string,
             from settings = k ->
             String.eqb (from settings) "fade" = String.eqb k "fade").
  { intros k ->. reflexivity. }
  destruct (String.eqb_spec (from settings) "bottom") as [E | _];
    [rewrite (Dir _ E)
    | destruct (String.eqb_spec (from settings) "top") as [E | _];
      [rewrite (Dir _ E)
      | destruct (String.eqb_spec (from settings) "left") as [E | _];
        [rewrite (Dir _ E)
        | destruct (String.eqb_spec (from settings) "right") as [E | _];
          [rewrite (Dir _ E)
          | destruct (String.eqb (from settings) "fade")]]]];
    clear Dir;
    repeat match goal with
      | |- context [String.eqb ?a "fade"] =>
          change (String.eqb a "fade") with false
      end;
    cbn [orb andb fst snd];
    rewrite ?andb_true_r, ?andb_false_r;
    unfold reveal_complete, reveal_cancel;
    cbn [fst snd originalPosition originalRotation originalScale
         originalVisibility rotationTween scaleTween fadeTween
         obj_position obj_rotation obj_scale visible material];
    destruct (rotation settings), (scale settings);
    cbn [new_Euler euler_x euler_y euler_z order];
    destruct mat as [[[] o] |];
    cbn [is_transparent set_opacity transparent];
    repeat split; try reflexivity;
    intros mid ->; reflexivity.
Qed.

(** What a reveal stores as the original is the pose the object has when
    the reveal is created. *)
Lemma reveal_stores_current_pose (object : Object3D) (settings : Settings) :
  originalPosition (fst (createRevealTransition object settings))
  = obj_position object /\
  originalScale (fst (createRevealTransition object settings))
  = obj_scale object /\
  scaleTween (fst (createRevealTransition object settings)) = scale settings.
Proof.
  unfold createRevealTransition.
  repeat match goal with
    | |- context [String.eqb (from settings) ?k] =>
        destruct (String.eqb (from settings) k)
    end; repeat split; reflexivity.
Qed.

(** Reveals at their end leave the objects they do not animate alone. *)
Lemma complete_elsewhere (reveals : list (nat * Transition)) :
  forall (scene : gmap nat Object3D) (obj : nat),
    obj ∉ fst <$> reveals ->
    sequential_complete reveals scene !! obj = scene !! obj.
Proof.
  unfold sequential_complete.
  induction reveals as [| [o t] reveals IH]; intros scene obj Hno;
    [reflexivity |].
  rewrite fmap_cons in Hno. apply not_elem_of_cons in Hno as [Hne Hno].
  cbn [fold_left]. rewrite (IH _ _ Hno). unfold complete_in.
  cbn [fst snd] in *. apply lookup_alter_ne. congruence.
Qed.

(** An object animated by one reveal only ends where that reveal ends. *)
Lemma complete_once (reveals : list (nat * Transition)) :
  forall (scene : gmap nat Object3D) (obj : nat) (t : Transition),
    NoDup (fst <$> reveals) -> (obj, t) ∈ reveals ->
    sequential_complete reveals scene !! obj
    = reveal_complete t <$> scene !! obj.
Proof.
  induction reveals as [| [o t0] reveals IH]; intros scene obj t Hnd Hin.
  - apply elem_of_nil in Hin. destruct Hin.
  - rewrite fmap_cons in Hnd. apply NoDup_cons in Hnd as [Hno Hnd].
    cbn [fst] in Hno.
    change (sequential_complete ((o, t0) :: reveals) scene)
      with (sequential_complete reveals (complete_in scene (o, t0))).
    apply elem_of_cons in Hin as [Hin | Hin].
    + injection Hin as -> ->.
      rewrite (complete_elsewhere reveals _ o Hno).
      unfold complete_in. apply lookup_alter_eq.
    + assert (Hne : o <> obj).
      { intros ->. apply Hno.
        apply (list_elem_of_fmap_2 fst reveals (obj, t)). exact Hin. }
      rewrite (IH _ obj t Hnd Hin). unfold complete_in. cbn [fst snd].
      rewrite lookup_alter_ne by exact Hne. reflexivity.
Qed.

(** The reveals of an array of distinct objects. *)
Lemma reveal_each_distinct (staggerDelay : Q) (settings : Settings)
    (objects : list nat) :
  forall (index : Q) (scene : gmap nat Object3D),
    NoDup objects ->
    (forall obj, obj ∈ objects -> is_Some (scene !! obj)) ->
    exists (reveals : list (nat * Transition))
           (started : gmap nat Object3D),
      reveal_each index staggerDelay settings objects scene
      = Some (reveals, started) /\
      fst <$> reveals = objects /\
      (forall obj, obj ∉ objects -> started !! obj = scene !! obj) /\
      (forall obj object,
          obj ∈ objects -> scene !! obj = Some object ->
          started !! obj = Some (snd (createRevealTransition object settings)) /\
          exists d : Q,
            (obj, fst (createRevealTransition object (with_delay d settings)))
            ∈ reveals).
Proof.
  induction objects as [| o objects IH]; intros index scene Hnd Hall.
  - exists [], scene. split; [reflexivity |]. split; [reflexivity |].
    split; [reflexivity |].
    intros obj object Hin. apply elem_of_nil in Hin. destruct Hin.
  - apply NoDup_cons in Hnd as [Hno Hnd].
    destruct (Hall o) as [object Ho]; [apply elem_of_cons; left; reflexivity |].
    cbn [reveal_each]. rewrite Ho.
    destruct (createRevealTransition object
                (with_delay (index * staggerDelay) settings))
      as [reveal started0] eqn:E.
    assert (E1 : reveal
                 = fst (createRevealTransition object
                          (with_delay (index * staggerDelay) settings)))
      by (rewrite E; reflexivity).
    assert (E2 : started0 = snd (createRevealTransition object settings)).
    { rewrite <- (proj1 (start_pose_ignores_delay object
                           (index * staggerDelay) settings)).
      rewrite E. reflexivity. }
    destruct (IH (index + 1) (<[o := started0]> scene) Hnd)
      as (reveals & started & R & F & Out & In).
    { intros obj Hin. rewrite lookup_insert_ne.
      - apply Hall. apply elem_of_cons. right. exact Hin.
      - intros ->. exact (Hno Hin). }
    rewrite R. exists ((o, reveal) :: reveals), started.
    split; [reflexivity |].
    split; [rewrite fmap_cons, F; reflexivity |].
    split.
    + intros obj Hout. apply not_elem_of_cons in Hout as [Hne Hout].
      rewrite (Out obj Hout). apply lookup_insert_ne. congruence.
    + intros obj object' Hin Hobj.
      apply elem_of_cons in Hin as [-> | Hin].
      * rewrite Ho in Hobj. injection Hobj as <-.
        split.
        { rewrite (Out o Hno), lookup_insert_eq, E2. reflexivity. }
        exists (index * staggerDelay). apply elem_of_cons. left.
        rewrite E1. reflexivity.
      * assert (Hne : o <> obj) by (intros ->; exact (Hno Hin)).
        destruct (In obj object' Hin) as [S [d Hd]].
        { rewrite lookup_insert_ne by exact Hne. exact Hobj. }
        split; [exact S |].
        exists d. apply elem_of_cons. right. exact Hd.
Qed.

(** X30.  A reveal of one object and of several.  [createRevealTransition]
    puts the object in its start pose and makes it visible.  When the
    timeline has run to its end the object has its original position, scale
    and rotation angles again and is visible; the rotation order is the
    default one if the start rotation was built for a direction; the
    opacity of a transparent material is 1 after a fade, but stays 0 for a
    [from] that is neither a direction nor ['fade'].  [cancel] at any moment
    puts position, rotation, scale and visibility back and sets the opacity
    of a transparent material to 1.

    A sequential reveal of an array of distinct objects puts each of them
    in its start pose and leaves the pose of every other object alone; when
    it has run to its end every object of the array has its original
    position, scale and rotation angles again.  Its [cancel] resets
    nothing.  An object that occurs twice in the array is not restored: the
    second reveal stores the start pose of the first as the original, and
    the completed sequence leaves the object there. *)
Theorem reveal_restores_the_original_pose (settings : Settings)
    (staggerDelay : Q) :
  (forall object : Object3D,
      let t := fst (createRevealTransition object settings) in
      let start := snd (createRevealTransition object settings) in
      let shown := reveal_complete t start in
      visible start = true /\
      obj_position shown = obj_position object /\
      obj_scale shown = obj_scale object /\
      euler_x (obj_rotation shown) = euler_x (obj_rotation object) /\
      euler_y (obj_rotation shown) = euler_y (obj_rotation object) /\
      euler_z (obj_rotation shown) = euler_z (obj_rotation object) /\
      order (obj_rotation shown)
      = (if rotation settings && is_direction (from settings)
         then "XYZ"%string else order (obj_rotation object)) /\
      visible shown = true /\
      material shown
      = (if is_direction (from settings) then material object
         else if String.eqb (from settings) "fade"
              then set_opacity 1 (material object)
              else set_opacity 0 (material object)) /\
      forall mid : Object3D,
        material mid = material start ->
        reveal_cancel t mid
        = {| obj_position := obj_position object;
             obj_rotation := obj_rotation object;
             obj_scale := obj_scale object;
             visible := visible object;
             material := set_opacity 1 (material object) |}) /\
  (forall (scene : gmap nat Object3D) (objects : list nat),
      NoDup objects ->
      (forall obj, obj ∈ objects -> is_Some (scene !! obj)) ->
      exists (reveals : list (nat * Transition))
             (started : gmap nat Object3D),
        createSequentialReveal objects staggerDelay settings scene
        = Some (reveals, started) /\
        fst <$> reveals = objects /\
        sequential_cancel reveals started = started /\
        (forall obj,
            obj ∉ objects ->
            pose <$> started !! obj = pose <$> scene !! obj /\
            pose <$> sequential_complete reveals started !! obj
            = pose <$> scene !! obj) /\
        (forall obj object,
            obj ∈ objects -> scene !! obj = Some object ->
            pose <$> started !! obj
            = Some (pose (snd (createRevealTransition object settings))) /\
            exists shown : Object3D,
              sequential_complete reveals started !! obj = Some shown /\
              obj_position shown = obj_position object /\
              obj_scale shown = obj_scale object /\
              euler_x (obj_rotation shown) = euler_x (obj_rotation object) /\
              euler_y (obj_rotation shown) = euler_y (obj_rotation object) /\
              euler_z (obj_rotation shown) = euler_z (obj_rotation object) /\
              visible shown = true)) /\
  (forall (scene : gmap nat Object3D) (obj : nat) (object : Object3D),
      scene !! obj = Some object -> 0 <= staggerDelay ->
      let start := snd (createRevealTransition object settings) in
      exists (first second : Transition) (started : gmap nat Object3D)
             (shown : Object3D),
        createSequentialReveal [obj; obj] staggerDelay settings scene
        = Some ([(obj, first); (obj, second)], started) /\
        originalPosition first = obj_position object /\
        originalScale first = obj_scale object /\
        originalPosition second = obj_position start /\
        originalScale second = obj_scale start /\
        sequential_complete [(obj, first); (obj, second)] started !! obj
        = Some shown /\
        obj_position shown = obj_position start /\
        obj_scale shown = obj_scale start).
Proof.
  split; [intros object; apply reveal_one |]. split.
  - intros scene objects Hnd Hall.
    destruct (reveal_each_distinct staggerDelay settings objects 0 scene
                Hnd Hall) as (reveals & started & R & F & Out & In).
    exists reveals, started.
    split; [exact R |]. split; [exact F |]. split; [reflexivity |].
    split.
    + intros obj Hout.
      rewrite complete_elsewhere by (rewrite F; exact Hout).
      rewrite (Out obj Hout). split; reflexivity.
    + intros obj object Hin Hobj.
      destruct (In obj object Hin Hobj) as [S [d Hd]].
      split; [rewrite S; reflexivity |].
      rewrite (complete_once reveals started obj _) with (2 := Hd)
        by (rewrite F; exact Hnd).
      rewrite S. cbn [fmap option_fmap option_map].
      eexists. split; [reflexivity |].
      rewrite (proj2 (start_pose_ignores_delay object d settings)).
      destruct (reveal_one object settings)
        as (_ & P & Sc & X & Y & Z & _ & V & _).
      cbv zeta in P, Sc, X, Y, Z, V.
      repeat split; assumption.
  - intros scene obj object Hobj Hstagger start.
    unfold createSequentialReveal. cbn [reveal_each]. rewrite Hobj.
    destruct (createRevealTransition object
                (with_delay (0 * staggerDelay) settings))
      as [first started0] eqn:E1.
    rewrite lookup_insert_eq.
    destruct (createRevealTransition started0
                (with_delay ((0 + 1) * staggerDelay) settings))
      as [second started1] eqn:E2.
    assert (S0 : started0 = start).
    { unfold start.
      rewrite <- (proj1 (start_pose_ignores_delay object
                           (0 * staggerDelay) settings)).
      rewrite E1. reflexivity. }
    destruct (reveal_stores_current_pose object
                (with_delay (0 * staggerDelay) settings)) as (A1 & A2 & _).
    destruct (reveal_stores_current_pose started0
                (with_delay ((0 + 1) * staggerDelay) settings))
      as (B1 & B2 & B3).
    rewrite E1 in A1, A2. rewrite E2 in B1, B2, B3.
    cbn [fst] in A1, A2, B1, B2, B3. rewrite S0 in B1, B2.
    exists first, second. eexists _, _.
    split; [reflexivity |].
    split; [exact A1 |]. split; [exact A2 |].
    split; [exact B1 |]. split; [exact B2 |].
    split.
    { unfold sequential_complete, complete_in. cbn [fold_left fst snd].
      rewrite !lookup_alter_eq, lookup_insert_eq. reflexivity. }
    split; [exact B1 |].
    unfold reveal_complete. cbn [obj_scale]. rewrite B3.
    cbn [with_delay scale].
    destruct (scale settings) eqn:Sc; [exact B2 |].
    destruct (reveal_stores_current_pose object
                (with_delay (0 * staggerDelay) settings)) as (_ & _ & A3).
    rewrite E1 in A3. cbn [fst] in A3. rewrite A3. cbn [with_delay scale].
    rewrite Sc.
    assert (Sk : obj_scale started1 = obj_scale started0).
    { replace started1
        with (snd (createRevealTransition started0
                     (with_delay ((0 + 1) * staggerDelay) settings)))
        by (rewrite E2; reflexivity).
      unfold createRevealTransition. cbn [with_delay scale from].
      rewrite Sc.
      repeat match goal with
        | |- context [String.eqb (from settings) ?k] =>
            destruct (String.eqb (from settings) k)
        end; reflexivity. }
    rewrite Sk, S0. reflexivity.
Qed.

(** Two objects revealed with the default settings of a sequential reveal:
    each starts three units lower and half as large, and the completed
    sequence puts both back. *)
Lemma reveal_restores_the_original_pose_witness :
  let a := {| obj_position := vec 0 0 0; obj_rotation := new_Euler 0 0 0;
              obj_scale := vec 1 1 1; visible := false; material := None |} in
  let b := {| obj_position := vec 2 1 0; obj_rotation := new_Euler 0 0 0;
              obj_scale := vec 2 2 2; visible := true; material := None |} in
  let scene : gmap nat Object3D := <[7%nat := a]> (<[9%nat := b]> ∅) in
  exists (reveals : list (nat * Transition))
         (started : gmap nat Object3D) (shown : Object3D),
    createSequentialReveal [7%nat; 9%nat] (15 # 100)
      default_sequential_settings scene
    = Some (reveals, started) /\
    pose <$> started !! 9%nat
    = Some (pose (snd (createRevealTransition b default_sequential_settings)))
    /\
    sequential_complete reveals started !! 9%nat = Some shown /\
    obj_position shown = vec 2 1 0 /\ obj_scale shown = vec 2 2 2.
Proof.
  intros a b scene.
  destruct (proj1 (proj2 (reveal_restores_the_original_pose
                            default_sequential_settings (15 # 100)))
              scene [7%nat; 9%nat])
    as (reveals & started & R & _ & _ & _ & In).
  - apply NoDup_cons. split.
    + intros H. apply list_elem_of_singleton in H. discriminate.
    + apply NoDup_singleton.
  - intros obj Hin.
    apply elem_of_cons in Hin as [-> | Hin];
      [| apply list_elem_of_singleton in Hin as ->]; eexists; reflexivity.
  - destruct (In 9%nat b) as (S & shown & C & P & Sc & _).
    + apply elem_of_cons. right. apply elem_of_cons. left. reflexivity.
    + reflexivity.
    + exists reveals, started, shown.
      split; [exact R |]. split; [exact S |]. split; [exact C |].
      split; [exact P | exact Sc].
Defined.

End RevealSpec.
